(** * Hubble telemetry agent: batching, delivery and redaction pipeline

    A shallow embedding of the Splunk returners
    ([splunk_pulsar_return.py], [splunk_nova_return.py]) and of the
    password masking of [nebula_osquery.py], followed by the properties
    proved about them.

    Layout: part I holds the definitions (one module per source component),
    part II the lemmas and theorems. *)

From Stdlib Require Import List String Ascii ZArith Lia Bool Arith DecimalString.
Import ListNotations.
Open Scope string_scope.
Open Scope list_scope.
Open Scope Z_scope.
Set Warnings "-register-all".

(* ===================================================================== *)
(** * Part I. Definitions                                                 *)
(* ===================================================================== *)

(** ** Dedup utility ([splunk_pulsar_return.py], [_dedupList]) *)

Module Dedup.
Section WithEq.
Context {A : Type} (eq_dec : forall x y : A, {x = y} + {x <> y}).

(** Python's [x in l]: some element of [l] equals [x]. *)
Definition py_in (x : A) (l : list A) : bool :=
  existsb (fun y => if eq_dec x y then true else false) l.

(** [for i, x in enumerate(l): if x not in l[i + 1:]: deduped.append(x)].
    At position [i] the slice [l[i + 1:]] is the tail after [x]. *)
Fixpoint _dedupList (l : list A) : list A :=
  match l with
  | [] => []
  | x :: later => if py_in x later then _dedupList later
                  else x :: _dedupList later
  end.

(** The reading the specification gives: the first occurrence of every
    element is kept, later equal elements are dropped. *)
Fixpoint keep_first_occurrences (l : list A) : list A :=
  match l with
  | [] => []
  | x :: later => x :: remove eq_dec x (keep_first_occurrences later)
  end.
End WithEq.
End Dedup.

(** ** Python values

    The returners and the masking code work on parsed JSON / YAML data.
    Numbers are integers here (no float arithmetic is performed on them by the
    modelled code); dictionaries are association lists with string keys, kept
    in insertion order, with at most one binding per key as long as they are
    built with [dict_set]. *)

Module Py.
Inductive value : Type :=
| VNone
| VBool (b : bool)
| VNum (n : Z)
| VStr (s : string)
| VList (xs : list value)
| VDict (kv : list (string * value)).

Definition dict : Type := list (string * value).

(** The exceptions the modelled code can meet. *)
Inductive exn : Type :=
| KeyError | TypeError | IndexError | AttributeError
| ReError                       (* re.error: the pattern does not compile *)
| CommandExecutionError.

(** [d.get(k)] / [d[k]] on a dictionary *)
Fixpoint dict_get (d : dict) (k : string) : option value :=
  match d with
  | [] => None
  | (k', v) :: rest => if String.eqb k k' then Some v else dict_get rest k
  end.

(** [k in d] *)
Definition dict_has (d : dict) (k : string) : bool :=
  match dict_get d k with Some _ => true | None => false end.

(** [d[k] = v]: replaces the binding of [k] in place, or adds one *)
Fixpoint dict_set (d : dict) (k : string) (v : value) : dict :=
  match d with
  | [] => [(k, v)]
  | (k', v') :: rest =>
      if String.eqb k k' then (k, v) :: rest else (k', v') :: dict_set rest k v
  end.

(** [d.update(upd)] *)
Definition dict_update (d upd : dict) : dict :=
  fold_left (fun acc kv => dict_set acc (fst kv) (snd kv)) upd d.

(** [del d[k]] for a key that is present *)
Definition dict_del (d : dict) (k : string) : dict :=
  filter (fun kv => negb (String.eqb k (fst kv))) d.

(** Truth value of an object, as [if x:] takes it *)
Definition truthy (v : value) : bool :=
  match v with
  | VNone => false
  | VBool b => b
  | VNum n => negb (n =? 0)
  | VStr s => negb (String.eqb s "")
  | VList xs => match xs with [] => false | _ :: _ => true end
  | VDict kv => match kv with [] => false | _ :: _ => true end
  end.

(** The characters of a string, each as a one-character string *)
Fixpoint chars (s : string) : list value :=
  match s with
  | EmptyString => []
  | String a rest => VStr (String a EmptyString) :: chars rest
  end.

(** What [for x in v] iterates over: the elements of a list, the keys of a
    dictionary, the characters of a string; other objects are not iterable. *)
Definition py_iter (v : value) : exn + list value :=
  match v with
  | VList xs => inr xs
  | VDict kv => inr (map (fun p => VStr (fst p)) kv)
  | VStr s => inr (chars s)
  | VNone | VBool _ | VNum _ => inl TypeError
  end.

(** [isinstance(v, basestring)] *)
Definition is_basestring (v : value) : bool :=
  match v with VStr _ => true | _ => false end.

(** [','.join(xs)], which wants strings only *)
Fixpoint join_strings (sep : string) (xs : list value) : option string :=
  match xs with
  | [] => Some ""
  | x :: rest =>
      match x with
      | VStr s =>
          match rest with
          | [] => Some s
          | _ :: _ =>
              match join_strings sep rest with
              | Some t => Some (s ++ sep ++ t)%string
              | None => None
              end
          end
      | _ => None
      end
  end.

(** [a == b]: booleans compare as the integers 0 and 1, dictionaries
    regardless of the order of their keys. *)
Fixpoint py_eq (a b : value) {struct a} : bool :=
  match a, b with
  | VNone, VNone => true
  | VBool x, VBool y => Bool.eqb x y
  | VBool x, VNum n => n =? (if x then 1 else 0)
  | VNum n, VBool x => n =? (if x then 1 else 0)
  | VNum x, VNum y => x =? y
  | VStr x, VStr y => String.eqb x y
  | VList xs, VList ys =>
      (fix all2 (xs ys : list value) {struct xs} : bool :=
         match xs, ys with
         | [], [] => true
         | x :: xs', y :: ys' => py_eq x y && all2 xs' ys'
         | _, _ => false
         end) xs ys
  | VDict kx, VDict ky =>
      (List.length kx =? List.length ky)%nat
      && (fix all_in (kx : list (string * value)) {struct kx} : bool :=
            match kx with
            | [] => true
            | (k, v) :: rest =>
                match dict_get ky k with
                | Some v' => py_eq v v'
                | None => false
                end && all_in rest
            end) kx
  | _, _ => false
  end.

Fixpoint is_prefix (p s : string) : bool :=
  match p, s with
  | EmptyString, _ => true
  | String a p', String b s' => Ascii.eqb a b && is_prefix p' s'
  | String _ _, EmptyString => false
  end.

(** [t in s] for two strings *)
Fixpoint is_substring (t s : string) : bool :=
  is_prefix t s || match s with
                   | EmptyString => false
                   | String _ s' => is_substring t s'
                   end.

(** [item in container] *)
Definition py_contains (container item : value) : exn + bool :=
  match container with
  | VList xs => inr (existsb (py_eq item) xs)
  | VDict kv =>
      match item with
      | VStr k => inr (dict_has kv k)
      | VList _ | VDict _ => inl TypeError          (* unhashable *)
      | VNone | VBool _ | VNum _ => inr false
      end
  | VStr s =>
      match item with
      | VStr t => inr (is_substring t s)
      | _ => inl TypeError
      end
  | VNone | VBool _ | VNum _ => inl TypeError       (* not iterable *)
  end.

(** A list index: negative numbers count from the end. *)
Definition list_index (n : Z) (size : nat) : option nat :=
  let i := if n <? 0 then n + Z.of_nat size else n in
  if (0 <=? i) && (i <? Z.of_nat size) then Some (Z.to_nat i) else None.

Definition as_index (key : value) : option Z :=
  match key with
  | VNum n => Some n
  | VBool b => Some (if b then 1 else 0)
  | _ => None
  end.

(** [container[key]] *)
Definition py_getitem (container key : value) : exn + value :=
  match container with
  | VDict kv =>
      match key with
      | VStr k => match dict_get kv k with Some v => inr v | None => inl KeyError end
      | VList _ | VDict _ => inl TypeError
      | VNone | VBool _ | VNum _ => inl KeyError
      end
  | VList xs =>
      match as_index key with
      | Some n =>
          match list_index n (List.length xs) with
          | Some i => match nth_error xs i with Some v => inr v | None => inl IndexError end
          | None => inl IndexError
          end
      | None => inl TypeError
      end
  | VStr s =>
      match as_index key with
      | Some n =>
          match list_index n (String.length s) with
          | Some i => match nth_error (chars s) i with
                      | Some v => inr v
                      | None => inl IndexError
                      end
          | None => inl IndexError
          end
      | None => inl TypeError
      end
  | VNone | VBool _ | VNum _ => inl TypeError
  end.

Fixpoint list_set (xs : list value) (i : nat) (v : value) : list value :=
  match xs, i with
  | [], _ => []
  | _ :: rest, O => v :: rest
  | x :: rest, S i' => x :: list_set rest i' v
  end.

(** [container[key] = v], giving the container as it is afterwards.  A
    dictionary takes string keys only here; the masking code assigns to a
    key only after finding it in the container, so no other key reaches
    this function with a dictionary. *)
Definition py_setitem (container key v : value) : exn + value :=
  match container with
  | VDict kv =>
      match key with
      | VStr k => inr (VDict (dict_set kv k v))
      | _ => inl TypeError
      end
  | VList xs =>
      match as_index key with
      | Some n =>
          match list_index n (List.length xs) with
          | Some i => inr (VList (list_set xs i v))
          | None => inl IndexError
          end
      | None => inl TypeError
      end
  | VStr _ | VNone | VBool _ | VNum _ => inl TypeError
  end.

(** [s.strip() != ''].  The query results are parsed by [json.loads], so
    their strings are unicode strings; a character here is a code point below
    256.  Of these, [strip] removes the ASCII whitespace (9 to 13 and 32), the
    separators 28 to 31, the next-line character 133 and the no-break space
    160. *)
Definition is_space (a : ascii) : bool :=
  let n := nat_of_ascii a in
  ((n =? 32) || (9 <=? n) && (n <=? 13) || (28 <=? n) && (n <=? 31)
   || (n =? 133) || (n =? 160))%nat.

Fixpoint is_blank (s : string) : bool :=
  match s with
  | EmptyString => true
  | String a rest => is_space a && is_blank rest
  end.
End Py.

(** ** The HTTP event collector ([class http_event_collector])

    [flushBatch] is the same text in both returners; [batchEvent] differs
    (the pulsar returner stamps the time into the payload before measuring it,
    the nova returner measures first and stamps afterwards). *)

Module Hec.
Import Py.

(** What one [requests.post] followed by [r.raise_for_status()] does,
    named after the [except] clause that handles it.  The clauses are tried
    in source order, so an exception that is both a [Timeout] and a
    [ConnectionError] (requests' [ConnectTimeout]) is a [TimedOut] here. *)
Inductive outcome : Type :=
| Accepted            (* no exception: a 2xx answer *)
| TimedOut            (* requests.exceptions.Timeout *)
| ConnectionFailed    (* requests.exceptions.ConnectionError *)
| HTTPFailed          (* requests.exceptions.HTTPError, from raise_for_status *)
| RequestFailed       (* any other requests.exceptions.RequestException *)
| Crashed.            (* any other Exception *)

(** The observable effects of the collector. *)
Inductive action : Type :=
| Sleep (seconds : Z)
| Post (url body : string).

(** The network: the answer to the [n]-th POST of the session (counted
    from 0), given where it goes and what it carries. *)
Definition network : Type := nat -> string -> string -> outcome.

(** Module global [RETRY] and the two [config.get] keys [flushBatch]
    reads; [None] is a key that is not configured. *)
Record settings : Type := mkSettings {
  RETRY : bool;
  returner_retry_max : option Z;
  returner_retry_sleep : option Z
}.

(** The instance fields [batchEvent] and [flushBatch] use.  An entry of
    [server_uri] is the two-element list [[url, flag]] of the source. *)
Record collector : Type := mkCollector {
  host : string;
  batchEvents : list string;
  maxByteLength : Z;
  currentByteLength : Z;
  server_uri : list (string * bool)
}.

Definition _max_content_bytes : Z := 100000.

(** The URL [__init__] builds for one server *)
Definition server_url (http_event_server_ssl : bool) (server http_event_port : string)
  : string :=
  ((if http_event_server_ssl then "https://" else "http://")
     ++ server ++ ":" ++ http_event_port ++ "/services/collector/event")%string.

(** [__init__]: an empty batch, every server flagged [True].  [hostname]
    is what [socket.gethostname()] returns. *)
Definition init (host_ hostname : string) (servers : list string)
           (http_event_port : string) (http_event_server_ssl : bool) (max_bytes : Z)
  : collector :=
  {| host := if String.eqb host_ "" then hostname else host_;
     batchEvents := [];
     maxByteLength := max_bytes;
     currentByteLength := 0;
     server_uri := map (fun server =>
                          (server_url http_event_server_ssl server http_event_port, true))
                       servers |}.

Definition count_posts (acts : list action) : nat :=
  List.length (filter (fun a => match a with Post _ _ => true | Sleep _ => false end) acts).

(** [time.sleep(seconds)] raises on a negative argument. *)
Definition sleep_raises (seconds : Z) : bool := seconds <? 0.

(** The call that performed [acts] was left by an exception of
    [time.sleep]: one of its sleeps, then the last of its actions, raised.
    Nothing in the collector catches it, so it ends [flushBatch], the
    [batchEvent] that called it, and the session. *)
Definition raised (acts : list action) : bool :=
  existsb (fun a => match a with
                    | Sleep seconds => sleep_raises seconds
                    | Post _ _ => false
                    end) acts.

Section WithWorld.
Variable net : network.
Variable cfg : settings.

(** The [while retries < max_retries] loop for one server.  [clock] is
    the number of POSTs made so far in the session.  Returns the server
    entry as the loop leaves it, [success], and the actions performed;
    [None] only when [fuel] runs out.  The sleep comes before the [try]:
    when it raises, the loop is left with that sleep as its last action. *)
Fixpoint retry_loop (fuel : nat) (retries max_retries retry_sleep : Z)
         (server : string * bool) (body : string) (clock : nat)
  : option ((string * bool) * bool * list action) :=
  match fuel with
  | O => None
  | S fuel' =>
      if retries <? max_retries then
        let retries := retries + 1 in
        if negb (retries =? 0) && sleep_raises retry_sleep then
          (* time.sleep raises *)
          Some (server, false, [Sleep retry_sleep])
        else
        let slept := if negb (retries =? 0) then [Sleep retry_sleep] else [] in
        let attempt := slept ++ [Post (fst server) body] in
        match net clock (fst server) body with
        | Accepted =>
            (* server[1] = True; success = True; break *)
            Some ((fst server, true), true, attempt)
        | RequestFailed =>
            (* server[1] = False, and the loop goes on *)
            match retry_loop fuel' retries max_retries retry_sleep
                             (fst server, false) body (S clock) with
            | Some (server', success, acts) => Some (server', success, attempt ++ acts)
            | None => None
            end
        | TimedOut | ConnectionFailed | HTTPFailed | Crashed =>
            (* logged only *)
            match retry_loop fuel' retries max_retries retry_sleep
                             server body (S clock) with
            | Some (server', success, acts) => Some (server', success, attempt ++ acts)
            | None => None
            end
        end
      else Some (server, false, [])
  end.

Definition max_retries_of : Z :=
  if RETRY cfg then match returner_retry_max cfg with Some n => n | None => 3 end
  else 0.

Definition retry_sleep_of : Z :=
  if RETRY cfg then match returner_retry_sleep cfg with Some n => n | None => 15 end
  else 15.

(** The body of [for server in self.server_uri] for one server:
    [retries = -1], the settings, then the loop. *)
Definition try_server (server : string * bool) (body : string) (clock : nat)
  : option ((string * bool) * bool * list action) :=
  retry_loop (S (Z.to_nat (max_retries_of + 1))) (-1) max_retries_of retry_sleep_of
             server body clock.

(** [for server in self.server_uri: ...; if success: break]; an
    exception of [time.sleep] ends the loop as well. *)
Fixpoint for_servers (servers : list (string * bool)) (body : string) (clock : nat)
  : option (list (string * bool) * bool * list action) :=
  match servers with
  | [] => Some ([], false, [])
  | server :: rest =>
      match try_server server body clock with
      | None => None
      | Some (server', true, acts) => Some (server' :: rest, true, acts)
      | Some (server', false, acts) =>
          if raised acts then Some (server' :: rest, false, acts)
          else
          match for_servers rest body (clock + count_posts acts) with
          | Some (rest', success, acts') =>
              Some (server' :: rest', success, acts ++ acts')
          | None => None
          end
      end
  end.

(** [x[1] is not False] *)
Definition eligible (servers : list (string * bool)) : list (string * bool) :=
  filter (fun x => negb (Bool.eqb (snd x) false)) servers.

(** [' '.join(self.batchEvents)] *)
Definition join_events (events : list string) : string := String.concat " " events.

(** [flushBatch].  When [time.sleep] raises, the two resets that follow
    the loop are not reached: the list of servers has been filtered and its
    flags set, the pending events and the counter are as they were. *)
Definition flushBatch (c : collector) (clock : nat)
  : option (collector * list action) :=
  if (0 <? List.length (batchEvents c))%nat then
    match for_servers (eligible (server_uri c)) (join_events (batchEvents c)) clock with
    | Some (servers, _, acts) =>
        if raised acts then
          Some ({| host := host c;
                   batchEvents := batchEvents c;
                   maxByteLength := maxByteLength c;
                   currentByteLength := currentByteLength c;
                   server_uri := servers |}, acts)
        else
        Some ({| host := host c;
                 batchEvents := [];
                 maxByteLength := maxByteLength c;
                 currentByteLength := 0;
                 server_uri := servers |}, acts)
    | None => None
    end
  else Some (c, []).

Definition with_batch (c : collector) (events : list string) (len : Z) : collector :=
  {| host := host c;
     batchEvents := events;
     maxByteLength := maxByteLength c;
     currentByteLength := len;
     server_uri := server_uri c |}.

(** [json.dumps] *)
Variable dumps : value -> string.

Definition len (s : string) : Z := Z.of_nat (String.length s).

(** [if 'host' not in payload: payload.update({'host': self.host})] *)
Definition fill_host (c : collector) (payload : dict) : dict :=
  if dict_has payload "host" then payload else dict_set payload "host" (VStr (host c)).

(** The size test and what follows it, shared by both returners:
    flush when the new length would pass the limit, otherwise add the
    length to the counter; then append [entry].  An exception that leaves
    [flushBatch] leaves [batchEvent] too, before the append. *)
Definition account_and_append (c : collector) (payloadLength : Z) (entry : string)
           (clock : nat) : option (collector * list action) :=
  if currentByteLength c + payloadLength >? maxByteLength c then
    match flushBatch c clock with
    | Some (c', acts) =>
        if raised acts then Some (c', acts)
        else
        Some (with_batch c' (batchEvents c' ++ [entry]) (currentByteLength c'), acts)
    | None => None
    end
  else
    Some (with_batch c (batchEvents c ++ [entry]) (currentByteLength c + payloadLength), []).

(** [batchEvent] of [splunk_pulsar_return.py].  [now] is what
    [time.time()] returns. *)
Definition batchEvent_pulsar (c : collector) (payload : dict) (eventtime : string)
           (now : value) (clock : nat) : option (collector * list action) :=
  let payload := fill_host c payload in
  let payload :=
    if (String.eqb eventtime "" && negb (dict_has payload "time"))%bool
    then dict_set payload "time" now else payload in
  let payloadString := dumps (VDict payload) in
  account_and_append c (len payloadString) payloadString clock.

(** [batchEvent] of [splunk_nova_return.py].  [now_str] is
    [str(int(time.time()))]. *)
Definition batchEvent_nova (c : collector) (payload : dict) (eventtime : string)
           (now_str : string) (clock : nat) : option (collector * list action) :=
  let payload := fill_host c payload in
  let payloadLength := len (dumps (VDict payload)) in
  let eventtime := if String.eqb eventtime "" then now_str else eventtime in
  let data := dict_update [("time", VStr eventtime)] payload in
  account_and_append c payloadLength (dumps (VDict data)) clock.

(** One call on the collector, as the returners make them. *)
Inductive op : Type :=
| BatchPulsar (payload : dict) (eventtime : string) (now : value)
| BatchNova (payload : dict) (eventtime : string) (now_str : string)
| Flush.

Definition step (o : op) (c : collector) (clock : nat) : option (collector * list action) :=
  match o with
  | BatchPulsar payload eventtime now => batchEvent_pulsar c payload eventtime now clock
  | BatchNova payload eventtime now_str => batchEvent_nova c payload eventtime now_str clock
  | Flush => flushBatch c clock
  end.

(** A delivery session: calls made one after the other on one instance,
    as a returner makes them inside its one [try]: the call that raises is
    the last one. *)
Fixpoint run (ops : list op) (c : collector) (clock : nat)
  : option (collector * list action) :=
  match ops with
  | [] => Some (c, [])
  | o :: rest =>
      match step o c clock with
      | None => None
      | Some (c', acts) =>
          if raised acts then Some (c', acts)
          else
          match run rest c' (clock + count_posts acts) with
          | None => None
          | Some (c'', acts') => Some (c'', acts ++ acts')
          end
      end
  end.
End WithWorld.

(** *** Vocabulary for the statements *)

(** The actions of [k] failed attempts in a row on one server, the first of
    them made when the loop variable holds [retries]. *)
Fixpoint failed_attempts (k : nat) (retries retry_sleep : Z) (url body : string)
  : list action :=
  match k with
  | O => []
  | S k' =>
      (if negb (retries + 1 =? 0) then [Sleep retry_sleep] else [])
        ++ [Post url body]
        ++ failed_attempts k' (retries + 1) retry_sleep url body
  end.

Definition is_request_failed (o : outcome) : bool :=
  match o with RequestFailed => true | _ => false end.

(** Was one of the [k] POSTs starting at [clock] answered by a generic
    request exception? *)
Definition some_request_failed (net : network) (clock k : nat) (url body : string) : bool :=
  existsb (fun i => is_request_failed (net (clock + i)%nat url body)) (seq 0 k).

(** The answers the network gave to the POSTs of [acts], in order, when
    the first of them is POST number [clock] of the session. *)
Fixpoint answers (net : network) (clock : nat) (acts : list action) : list outcome :=
  match acts with
  | [] => []
  | Sleep _ :: rest => answers net clock rest
  | Post url body :: rest => net clock url body :: answers net (S clock) rest
  end.

(** Every POST of [acts] was refused. *)
Definition all_failed (net : network) (clock : nat) (acts : list action) : Prop :=
  Forall (fun o => o <> Accepted) (answers net clock acts).

(** [acts] ends with the one POST that was accepted. *)
Definition delivered_last (net : network) (clock : nat) (acts : list action) : Prop :=
  exists pre url body,
    acts = pre ++ [Post url body]
    /\ all_failed net clock pre
    /\ net (clock + count_posts pre)%nat url body = Accepted.

Definition well_ended (net : network) (clock : nat) (success : bool)
           (acts : list action) : Prop :=
  if success then delivered_last net clock acts else all_failed net clock acts.

(** An endpoint that never accepts. *)
Definition always_fails (net : network) (url : string) : Prop :=
  forall n body, net n url body <> Accepted.

(** Every entry for [url] is flagged [False]. *)
Definition unhealthy (c : collector) (url : string) : Prop :=
  forall s, In s (server_uri c) -> fst s = url -> snd s = false.

(** What [batchEvent] appends for a payload, and the length it tests
    against the limit. *)
Definition pulsar_entry (dumps : value -> string) (c : collector) (payload : dict)
           (eventtime : string) (now : value) : string :=
  let payload := fill_host c payload in
  dumps (VDict (if (String.eqb eventtime "" && negb (dict_has payload "time"))%bool
                then dict_set payload "time" now else payload)).

Definition nova_measured (dumps : value -> string) (c : collector) (payload : dict) : Z :=
  len (dumps (VDict (fill_host c payload))).

Definition nova_entry (dumps : value -> string) (c : collector) (payload : dict)
           (eventtime now_str : string) : string :=
  dumps (VDict (dict_update [("time", VStr (if String.eqb eventtime "" then now_str
                                             else eventtime))]
                            (fill_host c payload))).

(** What is to hold of the result [res] of a [batchEvent] made at [clock]
    for an event whose serialized form is [entry].  The call returns.  Its
    actions are those of a [flushBatch] of what was pending: every POST
    carries the pending events, and when events were pending they are POSTed,
    to the first eligible server at least.  [entry] alone is pending
    afterwards, and a later [flushBatch] sends [entry], again to the first
    eligible server at least. *)
Definition kept_and_sent (net : network) (cfg : settings) (c : collector) (clock : nat)
           (res : option (collector * list action)) (entry : string) : Prop :=
  exists c' acts,
    res = Some (c', acts)
    /\ raised acts = false
    /\ batchEvents c' = [entry]
    /\ (exists flushed, flushBatch net cfg c clock = Some (flushed, acts))
    /\ (forall url b, In (Post url b) acts -> b = join_events (batchEvents c))
    /\ (forall s rest,
           batchEvents c <> [] ->
           eligible (server_uri c) = s :: rest ->
           0 <= max_retries_of cfg ->
           exists more, acts = Post (fst s) (join_events (batchEvents c)) :: more)
    /\ forall clock',
        exists c'' acts',
          flushBatch net cfg c' clock' = Some (c'', acts')
          /\ raised acts' = false
          /\ batchEvents c'' = []
          /\ (forall url b, In (Post url b) acts' -> b = entry)
          /\ (forall s rest,
                 eligible (server_uri c') = s :: rest ->
                 0 <= max_retries_of cfg ->
                 exists more, acts' = Post (fst s) entry :: more).

(** What holds of the counter between calls: it is not negative, and it is
    0 while nothing is pending. *)
Definition consistent (c : collector) : Prop :=
  0 <= currentByteLength c /\ (batchEvents c = [] -> currentByteLength c = 0).

(** Sample data for the worked examples. *)
Definition fim_event (path : string) : dict := [("event", VDict [("path", VStr path)])].

Definition url_a : string := "https://splunk-a:8088/services/collector/event".
Definition url_b : string := "https://splunk-b:8088/services/collector/event".

Definition net_refusing (kind : outcome) : network := fun _ _ _ => kind.

(** The first POST of the session raises a generic request exception,
    every later one is accepted. *)
Definition net_first_request_fails : network :=
  fun n _ _ => match n with O => RequestFailed | S _ => Accepted end.

(** One server, a limit of 100 bytes. *)
Definition small_collector : collector :=
  init "" "minion-1" ["splunk-a"] "8088" true 100.

(** [url_a] is unreachable, everything else accepts. *)
Definition net_a_down (kind : outcome) : network :=
  fun _ url _ => if String.eqb url url_a then kind else Accepted.

Definition two_servers (events : list string) (count : Z) : collector :=
  {| host := "minion-1";
     batchEvents := events;
     maxByteLength := _max_content_bytes;
     currentByteLength := count;
     server_uri := [(url_a, true); (url_b, true)] |}.

(** A serializer for examples: JSON text with Python's default separators,
    without escaping inside strings. *)
Definition quote : string := String (ascii_of_nat 34) EmptyString.

Definition show_Z (n : Z) : string := DecimalString.NilZero.string_of_int (Z.to_int n).

Fixpoint dumps_plain (v : value) : string :=
  match v with
  | VNone => "null"
  | VBool true => "true"
  | VBool false => "false"
  | VNum n => show_Z n
  | VStr s => quote ++ s ++ quote
  | VList xs => "[" ++ String.concat ", " (map dumps_plain xs) ++ "]"
  | VDict kv =>
      "{" ++ String.concat ", "
               (map (fun p => quote ++ fst p ++ quote ++ ": " ++ dumps_plain (snd p)) kv)
          ++ "}"
  end%string.
End Hec.

(** ** The nova returner ([splunk_nova_return.py], [returner])

    The part of [returner] that builds one event per audit result and hands
    it to [hec.batchEvent].  Grains, options and [config.get] are inputs. *)

Module Nova.
Import Py.

Record context : Type := mkContext {
  jid : value;                       (* ret['jid'] *)
  minion_id : value;                 (* ret['id'] *)
  master : value;                    (* __grains__['master'] or the hostname *)
  fqdn : value;                      (* the resolved dest_host *)
  fqdn_ip4 : value;
  local_fqdn : value;
  system_uuid : value;               (* __grains__.get('system_uuid') *)
  cloud_details : dict;              (* __grains__.get('cloud_details', {}) *)
  custom_fields : list string;       (* opts['custom_fields'] *)
  config_get : string -> value;      (* __salt__['config.get'](field, '') *)
  opts_index : value;                (* opts['index'] *)
  opts_sourcetype : value;           (* opts['sourcetype'] *)
  index_extracted_fields : list string
}.

(** [str(x)] for the scalars the returner applies it to *)
Definition py_str (v : value) : string :=
  match v with
  | VNone => "None"
  | VBool true => "True"
  | VBool false => "False"
  | VNum n => DecimalString.NilZero.string_of_int (Z.to_int n)
  | VStr s => s
  | VList _ | VDict _ => ""
  end.

Section WithContext.
Variable ctx : context.

(** The head of a Failure / Success event: result, id, job, and then
    either the description or every key but ['tag'] of the check's data. *)
Definition check_head (check_result : string) (entry : dict) : exn + dict :=
  match entry with
  | [] => inl IndexError                    (* fai.keys()[0] *)
  | (check_id, body) :: _ =>
      let event := [] in
      let event := dict_update event [("check_result", VStr check_result)] in
      let event := dict_update event [("check_id", VStr check_id)] in
      let event := dict_update event [("job_id", jid ctx)] in
      inr match body with
          | VDict d =>
              if dict_has d "description"
              then fold_left (fun ev kv => if String.eqb (fst kv) "tag" then ev
                                           else dict_set ev (fst kv) (snd kv))
                             d event
              else event
          | other => dict_update event [("description", other)]
          end
  end.

(** The identity keys every event gets, then the cloud details *)
Definition add_identity (event : dict) : dict :=
  let event := dict_update event [("master", master ctx)] in
  let event := dict_update event [("minion_id", minion_id ctx)] in
  let event := dict_update event [("dest_host", fqdn ctx)] in
  let event := dict_update event [("dest_ip", fqdn_ip4 ctx)] in
  let event := dict_update event [("dest_fqdn", local_fqdn ctx)] in
  let event := dict_update event [("system_uuid", system_uuid ctx)] in
  dict_update event (cloud_details ctx).

(** One round of [for custom_field in custom_fields] *)
Definition add_custom_field (event : exn + dict) (custom_field : string) : exn + dict :=
  match event with
  | inl e => inl e
  | inr event =>
      let custom_field_name := ("custom_" ++ custom_field)%string in
      match config_get ctx custom_field with
      | VStr s => inr (dict_update event [(custom_field_name, VStr s)])
      | VList xs =>
          match join_strings "," xs with
          | Some s => inr (dict_update event [(custom_field_name, VStr s)])
          | None => inl TypeError
          end
      | _ => inr event
      end
  end.

Definition add_custom_fields (event : dict) : exn + dict :=
  fold_left add_custom_field (custom_fields ctx) (inr event).

(** [remove_keys = [k for k in event if event[k] == ""]] and the deletions *)
Definition remove_empty_fields (event : dict) : dict :=
  let remove_keys :=
    map fst (filter (fun kv => match snd kv with
                               | VStr s => String.eqb s ""
                               | _ => false
                               end) event) in
  fold_left dict_del remove_keys event.

(** The metadata fields, added to the payload when there are any *)
Definition add_fields (payload : dict) (event : dict) : dict :=
  let fields :=
    fold_left (fun fields item =>
                 match dict_get event item with
                 | Some (VList _) | Some (VDict _) | None => fields
                 | Some v => dict_set fields item (VStr (py_str v))
                 end)
              (index_extracted_fields ctx) [] in
  match fields with
  | [] => payload
  | _ :: _ => dict_update payload [("fields", VDict fields)]
  end.

(** The body of [for fai in data.get('Failure', [])], up to the payload
    handed to [hec.batchEvent] *)
Definition failure_payload (fai : dict) : exn + dict :=
  match check_head "Failure" fai with
  | inl e => inl e
  | inr event =>
      match add_custom_fields (add_identity event) with
      | inl e => inl e
      | inr event =>
          let payload := [] in
          let payload := dict_update payload [("host", fqdn ctx)] in
          let payload := dict_update payload [("index", opts_index ctx)] in
          let payload := dict_update payload [("sourcetype", opts_sourcetype ctx)] in
          let payload := dict_update payload [("event", VDict event)] in
          inr (add_fields payload event)
      end
  end.

(** The body of [for suc in data.get('Success', [])] *)
Definition success_payload (suc : dict) : exn + dict :=
  match check_head "Success" suc with
  | inl e => inl e
  | inr event =>
      match add_custom_fields (add_identity event) with
      | inl e => inl e
      | inr event =>
          let payload := [] in
          let payload := dict_update payload [("host", fqdn ctx)] in
          let payload := dict_update payload [("sourcetype", opts_sourcetype ctx)] in
          let payload := dict_update payload [("index", opts_index ctx)] in
          (* Remove any empty fields from the event payload *)
          let event := remove_empty_fields event in
          let payload := dict_update payload [("event", VDict event)] in
          inr (add_fields payload event)
      end
  end.

(** The body of [if data.get('Compliance', None)] *)
Definition compliance_payload (compliance : value) : exn + dict :=
  let event := [] in
  let event := dict_update event [("job_id", jid ctx)] in
  let event := dict_update event [("compliance_percentage", compliance)] in
  match add_custom_fields (add_identity event) with
  | inl e => inl e
  | inr event =>
      let payload := [] in
      let payload := dict_update payload [("host", fqdn ctx)] in
      let payload := dict_update payload [("sourcetype", opts_sourcetype ctx)] in
      let payload := dict_update payload [("index", opts_index ctx)] in
      let payload := dict_update payload [("event", VDict event)] in
      inr (add_fields payload event)
  end.

(** A loop over audit results: the payloads batched before the first
    exception, and that exception if there is one. *)
Fixpoint batch_each (build : dict -> exn + dict) (entries : list value)
  : list dict * option exn :=
  match entries with
  | [] => ([], None)
  | VDict entry :: rest =>
      match build entry with
      | inl e => ([], Some e)
      | inr payload =>
          let (payloads, err) := batch_each build rest in (payload :: payloads, err)
      end
  | _ :: _ => ([], Some AttributeError)       (* no [keys] on this object *)
  end.

(** [data.get(key, [])], iterated *)
Definition results_of (data : dict) (key : string) : exn + list value :=
  match dict_get data key with
  | None => inr []
  | Some v => py_iter v
  end.

(** The payloads [returner] hands to [hec.batchEvent] for one set of
    options, in order, and the exception that cut the work short, if any. *)
Definition batched_payloads (data : dict) : list dict * option exn :=
  match results_of data "Failure" with
  | inl e => ([], Some e)
  | inr failures =>
      match batch_each failure_payload failures with
      | (sent, Some e) => (sent, Some e)
      | (sent, None) =>
          match results_of data "Success" with
          | inl e => (sent, Some e)
          | inr successes =>
              match batch_each success_payload successes with
              | (sent', Some e) => (sent ++ sent', Some e)
              | (sent', None) =>
                  match dict_get data "Compliance" with
                  | Some compliance =>
                      if truthy compliance then
                        match compliance_payload compliance with
                        | inl e => (sent ++ sent', Some e)
                        | inr payload => (sent ++ sent' ++ [payload], None)
                        end
                      else (sent ++ sent', None)
                  | None => (sent ++ sent', None)
                  end
              end
          end
      end
  end.
End WithContext.

(** The event inside a payload *)
Definition event_of (payload : dict) : dict :=
  match dict_get payload "event" with
  | Some (VDict event) => event
  | _ => []
  end.

(** Some key of the event holds the empty string. *)
Definition has_empty_field (event : dict) : Prop :=
  exists k, dict_get event k = Some (VStr "").

(** Sample data: one custom field that is not configured, so that
    [config.get(field, '')] answers the empty string. *)
Definition sample_context : context :=
  {| jid := VStr "20180101000000000000";
     minion_id := VStr "minion-1";
     master := VStr "master-1";
     fqdn := VStr "minion-1.example.org";
     fqdn_ip4 := VStr "10.0.0.5";
     local_fqdn := VStr "minion-1.example.org";
     system_uuid := VStr "1234-abcd";
     cloud_details := [];
     custom_fields := ["site"];
     config_get := fun _ => VStr "";
     opts_index := VStr "trubble";
     opts_sourcetype := VStr "trubble_audit";
     index_extracted_fields := [] |}.

Definition sample_check : dict :=
  [("CIS-1.1.1", VDict [("description", VStr "Ensure mounting of cramfs is disabled");
                        ("tag", VStr "CIS-1.1.1")])].
End Nova.

(** ** Password masking ([nebula_osquery.py], [mask_passwords_inplace])

    The object to be masked is mutated in place by the source.  Here every
    function returns the object as it is when the function is left, together
    with how it was left, so a mutation made before an exception stays
    visible.  The regular-expression engine is an input. *)

Module Mask.
Import Py.

(** How a loop body is left *)
Inductive signal : Type :=
| Normal
| Broke                      (* break *)
| Raised (e : exn).

(** Where the merged mask configuration comes from: the files loaded and
    merged, a file that [cp.cache_file] did not find ([return None] after
    [log.error]), or an exception on the way ([get_top_data], [yaml],
    [_dict_update]). *)
Inductive mask_source : Type :=
| MaskLoaded (mask : dict)
| MaskFileMissing
| MaskLoadFailed (e : exn).

(** What the caller observes: the object, what was logged with
    [log.exception], and the exception that reaches the caller. *)
Record masking : Type := mkMasking {
  masked : value;
  logged : option exn;
  escaped : option exn
}.

(** [for x in xs: body(x)] over objects that are mutated in place, for a
    body that may [break] *)
Fixpoint for_rows (body : value -> value * signal) (rows : list value)
  : list value * option exn :=
  match rows with
  | [] => ([], None)
  | row :: rest =>
      match body row with
      | (row', Normal) => let (rest', err) := for_rows body rest in (row' :: rest', err)
      | (row', Broke) => (row' :: rest, None)
      | (row', Raised e) => (row' :: rest, Some e)
      end
  end.

(** The same for a body without [break] *)
Fixpoint for_each (body : value -> value * option exn) (xs : list value)
  : list value * option exn :=
  match xs with
  | [] => ([], None)
  | x :: rest =>
      match body x with
      | (x', None) => let (rest', err) := for_each body rest in (x' :: rest', err)
      | (x', Some e) => (x' :: rest, Some e)
      end
  end.

(** A loop over any object: the elements of a list are the objects
    themselves; what a string or a dictionary yields (characters, keys) are
    strings, which no body can change. *)
Definition iterate (loop : list value -> list value * option exn) (v : value)
  : value * option exn :=
  match v with
  | VList xs => let (xs', err) := loop xs in (VList xs', err)
  | _ =>
      match py_iter v with
      | inl e => (v, Some e)
      | inr items => (v, snd (loop items))
      end
  end.

(** Puts back a part that was mutated in place. *)
Definition store_back (container key part : value) : value :=
  match py_setitem container key part with
  | inr container' => container'
  | inl _ => container
  end.

Section WithRegex.
(** [re.sub(pattern, repl, string)]; [None] is [re.error]. *)
Variable re_sub : string -> string -> string -> option string.

(** [for pattern in patterns: value = re.sub(pattern + "()",
    r"\1" + mask_by + r"\3", value)] *)
Fixpoint substitute_all (patterns : list value) (mask_by : value) (value_ : string)
  : exn + string :=
  match patterns with
  | [] => inr value_
  | pattern :: rest =>
      match pattern, mask_by with
      | VStr p, VStr m =>
          match re_sub (p ++ "()") ("\1" ++ m ++ "\3") value_ with
          | Some value' => substitute_all rest mask_by value'
          | None => inl ReError
          end
      | _, _ => inl TypeError              (* str + non-str *)
      end
  end.

(** The body of the row loop of a [blacklisted_strings] rule (the two
    copies in the source, for a named query and for ['*'], are the same). *)
Definition mask_string_row (blacklisted_string column mask_by : value)
           (query_result : value) : value * signal :=
  match py_contains query_result column with
  | inl e => (query_result, Raised e)
  | inr false => (query_result, Broke)
  | inr true =>
      match py_getitem query_result column with
      | inl e => (query_result, Raised e)
      | inr v =>
          match v with
          | VStr value_ =>
              match py_getitem blacklisted_string (VStr "blacklisted_patterns") with
              | inl e => (query_result, Raised e)
              | inr patterns =>
                  match py_iter patterns with
                  | inl e => (query_result, Raised e)
                  | inr patterns =>
                      match substitute_all patterns mask_by value_ with
                      | inl e => (query_result, Raised e)
                      | inr value' =>
                          match py_setitem query_result column (VStr value') with
                          | inl e => (query_result, Raised e)
                          | inr query_result' => (query_result', Normal)
                          end
                      end
                  end
              end
          | _ => (query_result, Broke)
          end
      end
  end.
End WithRegex.

(** [_recursively_mask_objects] *)
Definition mask_attributes (object_to_mask : value) (keys : list value) (mask_by : value)
  : value * option exn :=
  fold_left (fun (acc : value * option exn) key =>
               match acc with
               | (obj, Some e) => (obj, Some e)
               | (obj, None) =>
                   match py_contains obj key with
                   | inl e => (obj, Some e)
                   | inr false => (obj, None)
                   | inr true =>
                       match py_setitem obj key mask_by with
                       | inl e => (obj, Some e)
                       | inr obj' => (obj', None)
                       end
                   end
               end)
            keys (object_to_mask, None).

Definition mask_one_object (blacklisted_object mask_by object_to_mask : value)
  : value * option exn :=
  match py_getitem blacklisted_object (VStr "attribute_to_check") with
  | inl e => (object_to_mask, Some e)
  | inr attribute =>
      match py_contains object_to_mask attribute with
      | inl e => (object_to_mask, Some e)
      | inr false => (object_to_mask, None)
      | inr true =>
          match py_getitem object_to_mask attribute with
          | inl e => (object_to_mask, Some e)
          | inr found =>
              match py_getitem blacklisted_object (VStr "blacklisted_patterns") with
              | inl e => (object_to_mask, Some e)
              | inr patterns =>
                  match py_contains patterns found with
                  | inl e => (object_to_mask, Some e)
                  | inr false => (object_to_mask, None)
                  | inr true =>
                      match py_getitem blacklisted_object (VStr "attributes_to_mask") with
                      | inl e => (object_to_mask, Some e)
                      | inr keys =>
                          match py_iter keys with
                          | inl e => (object_to_mask, Some e)
                          | inr keys => mask_attributes object_to_mask keys mask_by
                          end
                      end
                  end
              end
          end
      end
  end.

Fixpoint _recursively_mask_objects (object_to_mask blacklisted_object mask_by : value)
         {struct object_to_mask} : value * option exn :=
  match object_to_mask with
  | VList children =>
      let (children', err) :=
        (fix each (children : list value) : list value * option exn :=
           match children with
           | [] => ([], None)
           | child :: rest =>
               match _recursively_mask_objects child blacklisted_object mask_by with
               | (child', None) => let (rest', err) := each rest in (child' :: rest', err)
               | (child', Some e) => (child' :: rest, Some e)
               end
           end) children in
      (VList children', err)
  | _ => mask_one_object blacklisted_object mask_by object_to_mask
  end.

(** The body of the row loop of a [blacklisted_objects] rule *)
Definition mask_object_row (blacklisted_object column mask_by : value)
           (query_result : value) : value * signal :=
  match py_contains query_result column with
  | inl e => (query_result, Raised e)
  | inr false => (query_result, Broke)
  | inr true =>
      match py_getitem query_result column with
      | inl e => (query_result, Raised e)
      | inr v =>
          if match v with VStr s => negb (is_blank s) | _ => false end
          then (query_result, Broke)
          else
            match _recursively_mask_objects v blacklisted_object mask_by with
            | (v', None) => (store_back query_result column v', Normal)
            | (v', Some e) => (store_back query_result column v', Raised e)
            end
      end
  end.

(** [for r in object_to_be_masked: for query_result in
    r.get(query_name, {'data': []})['data']: body] *)
Definition in_named_query (body : value -> value * signal) (query_name : value)
           (r : value) : value * option exn :=
  match r with
  | VDict kv =>
      match query_name with
      | VList _ | VDict _ => (r, Some TypeError)       (* unhashable key *)
      | _ =>
          match (match query_name with VStr q => dict_get kv q | _ => None end) with
          | None => (r, None)                          (* {'data': []}['data'] *)
          | Some query_ret =>
              match py_getitem query_ret (VStr "data") with
              | inl e => (r, Some e)
              | inr rows =>
                  let (rows', err) := iterate (for_rows body) rows in
                  (store_back r query_name (store_back query_ret (VStr "data") rows'), err)
              end
          end
      end
  | _ => (r, Some AttributeError)                      (* no [get] *)
  end.

(** [for r in object_to_be_masked: for query_name, query_ret in
    r.iteritems(): for query_result in query_ret['data']: body] *)
Fixpoint in_items (body : value -> value * signal) (items : list (string * value))
  : list (string * value) * option exn :=
  match items with
  | [] => ([], None)
  | (query_name, query_ret) :: rest =>
      match py_getitem query_ret (VStr "data") with
      | inl e => ((query_name, query_ret) :: rest, Some e)
      | inr rows =>
          match iterate (for_rows body) rows with
          | (rows', None) =>
              let (rest', err) := in_items body rest in
              ((query_name, store_back query_ret (VStr "data") rows') :: rest', err)
          | (rows', Some e) =>
              ((query_name, store_back query_ret (VStr "data") rows') :: rest, Some e)
          end
      end
  end.

Definition in_every_query (body : value -> value * signal) (r : value)
  : value * option exn :=
  match r with
  | VDict kv => let (kv', err) := in_items body kv in (VDict kv', err)
  | _ => (r, Some AttributeError)                      (* no [iteritems] *)
  end.

(** One round of [for blacklisted_string in ...] or of
    [for blacklisted_object in ...]; [row_body] is the row loop's body for
    the rule and the column. *)
Definition apply_rule (row_body : value -> value -> value -> value * signal)
           (object_to_be_masked rule : value) : value * option exn :=
  match py_getitem rule (VStr "query_name") with
  | inl e => (object_to_be_masked, Some e)
  | inr query_name =>
      match py_getitem rule (VStr "column") with
      | inl e => (object_to_be_masked, Some e)
      | inr column =>
          if negb (py_eq query_name (VStr "*"))
          then iterate (for_each (in_named_query (row_body rule column) query_name))
                       object_to_be_masked
          else iterate (for_each (in_every_query (row_body rule column)))
                       object_to_be_masked
      end
  end.

(** The rules of one list, in order, until one raises *)
Fixpoint apply_rules (row_body : value -> value -> value -> value * signal)
         (rules : list value) (object_to_be_masked : value) : value * option exn :=
  match rules with
  | [] => (object_to_be_masked, None)
  | rule :: rest =>
      match apply_rule row_body object_to_be_masked rule with
      | (obj, None) => apply_rules row_body rest obj
      | (obj, Some e) => (obj, Some e)
      end
  end.

(** [mask.get(key, [])], iterated *)
Definition rules_of (mask : dict) (key : string) : exn + list value :=
  match dict_get mask key with
  | None => inr []
  | Some rules => py_iter rules
  end.

Section WithRegexTop.
Variable re_sub : string -> string -> string -> option string.

(** The part of the [try] block after the mask is loaded *)
Definition mask_with (mask : dict) (object_to_be_masked : value) : value * option exn :=
  let mask_by := match dict_get mask "mask_by" with
                 | Some m => m
                 | None => VStr "******"
                 end in
  match rules_of mask "blacklisted_strings" with
  | inl e => (object_to_be_masked, Some e)
  | inr string_rules =>
      match apply_rules (fun rule column => mask_string_row re_sub rule column mask_by)
                        string_rules object_to_be_masked with
      | (obj, Some e) => (obj, Some e)
      | (obj, None) =>
          match rules_of mask "blacklisted_objects" with
          | inl e => (obj, Some e)
          | inr object_rules =>
              apply_rules (fun rule column => mask_object_row rule column mask_by)
                          object_rules obj
          end
      end
  end.

(** [mask_passwords_inplace]: the [try] block, and the handler
    [except Exception as e: log.exception(...)] *)
Definition mask_passwords_inplace (source : mask_source) (object_to_be_masked : value)
  : masking :=
  let (obj, raised) :=
    match source with
    | MaskLoadFailed e => (object_to_be_masked, Some e)
    | MaskFileMissing => (object_to_be_masked, None)
    | MaskLoaded mask => mask_with mask object_to_be_masked
    end in
  {| masked := obj; logged := raised; escaped := None |}.
End WithRegexTop.

(** *** Vocabulary for the statements *)

(** A row as a [blacklisted_strings] rule leaves it when the column holds
    a string and every substitution succeeds *)
Definition masked_row (re_sub : string -> string -> string -> option string)
           (column : string) (patterns : list value) (mask_by : value) (row : value)
  : option value :=
  match row with
  | VDict d =>
      match dict_get d column with
      | Some (VStr s) =>
          match substitute_all re_sub patterns mask_by s with
          | inr s' => Some (VDict (dict_set d column (VStr s')))
          | inl _ => None
          end
      | _ => None
      end
  | _ => None
  end.

(** The column is absent from the row, or what it holds is not a string. *)
Definition column_unusable (column : string) (row : value) : Prop :=
  py_contains row (VStr column) = inr false
  \/ exists v, py_contains row (VStr column) = inr true
               /\ py_getitem row (VStr column) = inr v
               /\ is_basestring v = false.

(** A well-formed [blacklisted_strings] rule, a mask file holding just
    that rule, and an object holding the rows of one query *)
Definition string_rule (query_name column : string) (patterns : list value) : value :=
  VDict [("query_name", VStr query_name);
         ("column", VStr column);
         ("blacklisted_patterns", VList patterns)].

Definition one_rule_mask (mask_by rule : value) : dict :=
  [("mask_by", mask_by); ("blacklisted_strings", VList [rule])].

Definition one_query (query_name : string) (rows : list value) : value :=
  VList [VDict [(query_name, VDict [("data", VList rows)])]].

(** The row loop's bodies as [mask_with] passes them to [apply_rules] *)
Definition string_body (re_sub : string -> string -> string -> option string)
           (mask_by : value) : value -> value -> value -> value * signal :=
  fun rule column => mask_string_row re_sub rule column mask_by.

Definition object_body (mask_by : value) : value -> value -> value -> value * signal :=
  fun rule column => mask_object_row rule column mask_by.

Definition mask_by_of (mask : dict) : value :=
  match dict_get mask "mask_by" with
  | Some m => m
  | None => VStr "******"
  end.

(** *** A small regular-expression engine for the examples

    It knows one shape of pattern: a literal in parentheses (not empty,
    no metacharacter in it) followed by a dot-star group in parentheses, as
    [mask_passwords_inplace] passes it on, with an empty group appended; and
    one shape of replacement: group 1, the mask, group 3.  The subject is
    taken to be one line.  Everything else is answered like a pattern that
    does not compile. *)

Fixpoint strip_prefix (p s : string) : option string :=
  match p, s with
  | EmptyString, _ => Some s
  | String a p', String b s' => if Ascii.eqb a b then strip_prefix p' s' else None
  | String _ _, EmptyString => None
  end.

Fixpoint find_literal (lit s : string) : option (string * string) :=
  match strip_prefix lit s with
  | Some after => Some (EmptyString, after)
  | None =>
      match s with
      | EmptyString => None
      | String a s' =>
          match find_literal lit s' with
          | Some (before, after) => Some (String a before, after)
          | None => None
          end
      end
  end.

Fixpoint until_paren (s : string) : option (string * string) :=
  match s with
  | EmptyString => None
  | String a s' =>
      if Ascii.eqb a ")"%char then Some (EmptyString, s')
      else match until_paren s' with
           | Some (l, r) => Some (String a l, r)
           | None => None
           end
  end.

Definition re_sub_sample (pattern repl subject : string) : option string :=
  match strip_prefix "(" pattern with
  | Some rest =>
      match until_paren rest with
      | Some (lit, tail) =>
          let m := String.substring 2 (String.length repl - 4) repl in
          if (String.eqb tail "(.*)()" && negb (String.eqb lit "")
              && String.eqb repl ("\1" ++ m ++ "\3"))%bool
          then match find_literal lit subject with
               | Some (before, _) => Some (before ++ lit ++ m)%string
               | None => Some subject
               end
          else None
      | None => None
      end
  | None => None
  end.

(** *** Sample data *)

Definition process_row (cmdline : value) : value :=
  VDict [("pid", VStr "41"); ("cmdline", cmdline)].

(** Three good rows, one without a usable column, one more good row. *)
Definition sample_rows : list value :=
  [process_row (VStr "mysql --password=hunter2");
   process_row (VStr "ls -l");
   process_row (VNum 7);
   process_row (VStr "curl --password=letmein")].

Definition sample_object (rows : list value) : value :=
  VList [VDict [("running_procs", VDict [("data", VList rows); ("result", VBool true)])]].

Definition password_rule (query_name : string) : value :=
  VDict [("query_name", VStr query_name);
         ("column", VStr "cmdline");
         ("blacklisted_patterns", VList [VStr "(--password=)(.*)"])].

(** A structured column: a list of objects, one of them a secret *)
Definition env_rows : list value :=
  [VDict [("env", VList [VDict [("name", VStr "PATH"); ("value", VStr "/bin")];
                         VDict [("name", VStr "DB_PASSWORD"); ("value", VStr "hunter2")]])]].

Definition env_rule : value :=
  VDict [("query_name", VStr "running_procs");
         ("column", VStr "env");
         ("attribute_to_check", VStr "name");
         ("blacklisted_patterns", VList [VStr "DB_PASSWORD"]);
         ("attributes_to_mask", VList [VStr "value"])].

(** A rule without its keys, as a malformed mask file gives it *)
Definition malformed_rule : value := VDict [("column", VStr "cmdline")].
End Mask.

(** ** Publishing the configuration ([conf_publisher.py]) *)

Module ConfPublisher.
Import Py.

(** [any(patt in key for patt in patterns_to_filter)] *)
Definition sensitive (patterns_to_filter : list string) (key : string) : bool :=
  existsb (fun patt => is_substring patt key) patterns_to_filter.

(** [remove_sensitive_info]: a dictionary loses the keys that contain a
    pattern and has its other values filtered; a list has its items filtered;
    anything else is returned as it is. *)
Fixpoint remove_sensitive_info (obj : value) (patterns_to_filter : list string)
         {struct obj} : value :=
  match obj with
  | VDict kv =>
      VDict ((fix items (kv : list (string * value)) : list (string * value) :=
                match kv with
                | [] => []
                | (key, v) :: rest =>
                    if sensitive patterns_to_filter key then items rest
                    else (key, remove_sensitive_info v patterns_to_filter) :: items rest
                end) kv)
  | VList xs =>
      VList ((fix each (xs : list value) : list value :=
                match xs with
                | [] => []
                | item :: rest => remove_sensitive_info item patterns_to_filter :: each rest
                end) xs)
  | _ => obj
  end.

Definition patterns_to_filter : list string := ["password"; "token"].

(** [filter_config] *)
Definition filter_config (opts_to_log : value) : value :=
  remove_sensitive_info opts_to_log patterns_to_filter.

(** The options [publish] selects: all of [__opts__] without arguments,
    otherwise the arguments that are keys of [__opts__], in the order given. *)
Definition opts_to_log (args : list string) (opts : dict) : dict :=
  match args with
  | [] => opts
  | _ :: _ =>
      fold_left (fun acc arg => match dict_get opts arg with
                                | Some v => dict_set acc arg v
                                | None => acc
                                end) args []
  end.

(** The message of the record [publish] hands to the Splunk log handler:
    [filtered_conf].  The handler sends it under the key ['message'] of an
    event that has keys of its own. *)
Definition published (args : list string) (opts : dict) : value :=
  filter_config (VDict (opts_to_log args opts)).

(** Some dictionary key inside [obj], at any depth reached through
    dictionaries and lists, contains one of the patterns. *)
Fixpoint mentions_sensitive (patterns : list string) (obj : value) {struct obj} : bool :=
  match obj with
  | VDict kv =>
      (fix items (kv : list (string * value)) : bool :=
         match kv with
         | [] => false
         | (key, v) :: rest =>
             sensitive patterns key || mentions_sensitive patterns v || items rest
         end) kv
  | VList xs =>
      (fix each (xs : list value) : bool :=
         match xs with
         | [] => false
         | item :: rest => mentions_sensitive patterns item || each rest
         end) xs
  | _ => false
  end.
End ConfPublisher.

(** ** Induction on values *)

Section ValueInduction.
Import Py.
Variable P : value -> Prop.
Hypothesis HNone : P VNone.
Hypothesis HBool : forall b, P (VBool b).
Hypothesis HNum : forall n, P (VNum n).
Hypothesis HStr : forall s, P (VStr s).
Hypothesis HList : forall xs, Forall P xs -> P (VList xs).
Hypothesis HDict : forall kv, Forall (fun p => P (snd p)) kv -> P (VDict kv).

Fixpoint value_nested_ind (v : value) : P v :=
  match v with
  | VNone => HNone
  | VBool b => HBool b
  | VNum n => HNum n
  | VStr s => HStr s
  | VList xs =>
      HList xs ((fix each (xs : list value) : Forall P xs :=
                   match xs with
                   | [] => Forall_nil P
                   | x :: rest => Forall_cons x (value_nested_ind x) (each rest)
                   end) xs)
  | VDict kv =>
      HDict kv ((fix items (kv : list (string * value))
                   : Forall (fun p => P (snd p)) kv :=
                   match kv with
                   | [] => Forall_nil _
                   | p :: rest =>
                       Forall_cons (P := fun p => P (snd p)) p
                                   (value_nested_ind (snd p)) (items rest)
                   end) kv)
  end.
End ValueInduction.

(** ** Merging dictionaries ([nebula_osquery.py], [_dict_update])

    The source mutates [dest] and returns it; here the merged dictionary is
    returned.  A Python dictionary has one value per key, so going through the
    entries of [upd] is going through [upd.keys()] and reading [upd[key]]. *)

Module DictUpdate.
Import Py.

(** [set(list(dest.keys())) & set(updkeys)] is not empty *)
Definition shares_key (dest upd : dict) : bool :=
  existsb (fun kv => dict_has dest (fst kv)) upd.

(** What the recursive branch stores under [key]: [recur] stands for the
    recursive call [_dict_update(dest_subkey, val, merge_lists=merge_lists)] *)
Definition merged_value (recur : value -> dict -> dict) (merge_lists : bool)
           (dest_subkey : option value) (val : value) : value :=
  match dest_subkey, val with
  | Some (VDict sub), VDict _ => VDict (recur val sub)
  | Some (VList old), VList new => if merge_lists then VList (old ++ new) else val
  | _, _ => val
  end.

(** [for key in updkeys: ...] of the recursive branch *)
Fixpoint merge_entries (recur : value -> dict -> dict) (merge_lists : bool)
         (upd : list (string * value)) (dest : dict) : dict :=
  match upd with
  | [] => dest
  | (key, val) :: rest =>
      merge_entries recur merge_lists rest
        (dict_set dest key (merged_value recur merge_lists (dict_get dest key) val))
  end.

(** The body of [_dict_update] for two mappings *)
Fixpoint update_mapping (merge_lists recursive_update : bool) (upd : value) (dest : dict)
         {struct upd} : dict :=
  match upd with
  | VDict entries =>
      if recursive_update && shares_key dest entries then
        (fix each (upd : list (string * value)) (dest : dict) : dict :=
           match upd with
           | [] => dest
           | (key, val) :: rest =>
               each rest
                 (dict_set dest key
                    (match dict_get dest key, val with
                     | Some (VDict sub), VDict _ =>
                         VDict (update_mapping merge_lists true val sub)
                     | Some (VList old), VList new =>
                         if merge_lists then VList (old ++ new) else val
                     | _, _ => val
                     end))
           end) entries dest
      else dict_update dest entries
  | _ => dest
  end.

(** [_dict_update(dest, upd, recursive_update, merge_lists)] *)
Definition _dict_update (dest upd : value) (recursive_update merge_lists : bool)
  : exn + value :=
  match dest, upd with
  | VDict d, VDict _ => inr (VDict (update_mapping merge_lists recursive_update upd d))
  | _, _ => inl TypeError
  end.

(** What a key holds after a recursive merge, read off the two sides *)
Definition merged_lookup (merge_lists : bool) (dest upd : dict) (key : string)
  : option value :=
  match dict_get upd key with
  | None => dict_get dest key
  | Some val =>
      Some (merged_value (update_mapping merge_lists true) merge_lists
                         (dict_get dest key) val)
  end.
End DictUpdate.

(** ** Host identity ([returner] of both returners, [SplunkHandler.__init__])

    The three places resolve the destination host name and address with the
    same statements. *)

Module Identity.
Import Py.

(** The grains read, and what [socket.gethostname()] answers *)
Record grains : Type := mkGrains {
  grain_fqdn : string;                 (* __grains__['fqdn'] *)
  grain_local_ip4 : option string;     (* __grains__.get('local_ip4') *)
  grain_fqdn_ip4 : list string;        (* __grains__['fqdn_ip4'] *)
  grain_ipv4 : list string;            (* __grains__['ipv4'] *)
  gethostname : string
}.

(** [s.startswith('127.')] *)
Definition is_loopback (s : string) : bool := is_prefix "127." s.

(** [for ip4_addr in __grains__['ipv4']: if ip4_addr and not
    ip4_addr.startswith('127.'): fqdn_ip4 = ip4_addr; break] *)
Fixpoint first_routable (addresses : list string) (fqdn_ip4 : string) : string :=
  match addresses with
  | [] => fqdn_ip4
  | ip4_addr :: rest =>
      if negb (String.eqb ip4_addr "") && negb (is_loopback ip4_addr) then ip4_addr
      else first_routable rest fqdn_ip4
  end.

(** The address: [None] is the exception
    [Exception('No ipv4 grains found. Is net-tools installed?')]. *)
Definition resolve_ip4 (g : grains) : option string :=
  let candidate :=
    match grain_local_ip4 g with
    | Some ip => if String.eqb ip "" then None else Some ip
    | None => None
    end in
  let candidate :=
    match candidate with
    | Some ip => Some ip
    | None =>
        match grain_fqdn_ip4 g with
        | ip :: _ => Some ip
        | [] => match grain_ipv4 g with
                | ip :: _ => Some ip
                | [] => None
                end
        end
    end in
  match candidate with
  | Some fqdn_ip4 =>
      Some (if is_loopback fqdn_ip4 then first_routable (grain_ipv4 g) fqdn_ip4
            else fqdn_ip4)
  | None => None
  end.

Definition bad_fqdns : list string :=
  ["localhost"; "localhost.localdomain"; "localhost6.localdomain6"].

Definition is_bad_fqdn (name : string) : bool :=
  existsb (String.eqb name) bad_fqdns.

(** The host name, given the minion id and the resolved address *)
Definition resolve_fqdn (g : grains) (minion_id fqdn_ip4 : string) : string :=
  let fqdn := grain_fqdn g in
  let fqdn := if String.eqb fqdn "" then minion_id else fqdn in
  if is_bad_fqdn fqdn then
    let new_fqdn := gethostname g in
    if negb (is_substring "." new_fqdn) || is_bad_fqdn new_fqdn
    then fqdn_ip4 else new_fqdn
  else fqdn.
End Identity.

(** ** More vocabulary for the collector *)

Module Delivery.
Import Py Hec.

Definition count_sleeps (acts : list action) : nat :=
  List.length (filter (fun a => match a with Sleep _ => true | Post _ _ => false end) acts).

(** An endpoint that accepts whatever it is sent, whenever. *)
Definition always_accepts (net : network) (url : string) : Prop :=
  forall n body, net n url body = Accepted.

(** The dictionary the pulsar [batchEvent] serializes *)
Definition pulsar_payload (c : collector) (payload : dict) (eventtime : string)
           (now : value) : dict :=
  let payload := fill_host c payload in
  if (String.eqb eventtime "" && negb (dict_has payload "time"))%bool
  then dict_set payload "time" now else payload.

(** The dictionary the nova [batchEvent] serializes *)
Definition nova_data (c : collector) (payload : dict) (eventtime now_str : string) : dict :=
  dict_update [("time", VStr (if String.eqb eventtime "" then now_str else eventtime))]
              (fill_host c payload).
End Delivery.

(** ** The log handler ([splunklogging.py])

    [splunklogging.py] has its own [http_event_collector]: [batchEvent] is
    the one of the nova returner, [flushBatch] has no retry loop, treats
    every [requests] exception alike and does not reset the byte counter. *)

Module SplunkLog.
Import Py Hec.

(** [except requests.exceptions.RequestException] catches these. *)
Definition is_request_exception (o : outcome) : bool :=
  match o with
  | TimedOut | ConnectionFailed | HTTPFailed | RequestFailed => true
  | Accepted | Crashed => false
  end.

Section WithNetwork.
Variable net : network.

(** [for server in self.server_uri: try: ... break; except ...] *)
Fixpoint for_servers (servers : list (string * bool)) (body : string) (clock : nat)
  : list (string * bool) * list action :=
  match servers with
  | [] => ([], [])
  | server :: rest =>
      match net clock (fst server) body with
      | Accepted => ((fst server, true) :: rest, [Post (fst server) body])
      | Crashed =>
          let (rest', acts) := for_servers rest body (S clock) in
          (server :: rest', Post (fst server) body :: acts)
      | TimedOut | ConnectionFailed | HTTPFailed | RequestFailed =>
          let (rest', acts) := for_servers rest body (S clock) in
          ((fst server, false) :: rest', Post (fst server) body :: acts)
      end
  end.

Definition flushBatch (c : collector) (clock : nat) : collector * list action :=
  if (0 <? List.length (batchEvents c))%nat then
    let (servers, acts) :=
      for_servers (eligible (server_uri c)) (join_events (batchEvents c)) clock in
    ({| host := host c;
        batchEvents := [];
        maxByteLength := maxByteLength c;
        currentByteLength := 0;
        server_uri := servers |}, acts)
  else (c, []).

Variable dumps : value -> string.

(** [batchEvent(payload, eventtime)]; [now_str] is [str(int(time.time()))] *)
Definition batchEvent (c : collector) (payload : dict) (eventtime : value)
           (now_str : string) (clock : nat) : collector * list action :=
  let payload := fill_host c payload in
  let payloadLength := len (dumps (VDict payload)) in
  let (c1, acts) :=
    if currentByteLength c + payloadLength >? maxByteLength c
    then flushBatch c clock
    else (with_batch c (batchEvents c) (currentByteLength c + payloadLength), []) in
  let eventtime := if negb (truthy eventtime) then VStr now_str else eventtime in
  let data := dict_update [("time", eventtime)] payload in
  (with_batch c1 (batchEvents c1 ++ [dumps (VDict data)]) (currentByteLength c1), acts).

(** One entry of [self.endpoint_list]: the collector with the event and
    payload templates built by [__init__] *)
Record endpoint : Type := mkEndpoint {
  hec : collector;
  event_template : dict;
  payload_template : dict
}.

(** What an endpoint's collector is handed for [data]: the serialized form
    that joins the pending list *)
Definition entry_for (e : endpoint) (data : dict) (eventtime : value) (now_str : string)
  : string :=
  let event := dict_update (event_template e) data in
  let payload := dict_set (payload_template e) "event" (VDict event) in
  dumps (VDict (dict_update
                  [("time", if negb (truthy eventtime) then VStr now_str else eventtime)]
                  (fill_host (hec e) payload))).

(** [emit_data]: for every endpoint, [batchEvent] then [flushBatch].
    [now] is [time.time()]. *)
Fixpoint emit_data (endpoints : list endpoint) (data : dict) (now : value)
         (now_str : string) (clock : nat) : list endpoint * list action :=
  match endpoints with
  | [] => ([], [])
  | e :: rest =>
      let event := dict_update (event_template e) data in
      let payload := dict_set (payload_template e) "event" (VDict event) in
      let (c1, acts1) := batchEvent (hec e) payload now now_str clock in
      let (c2, acts2) := flushBatch c1 (clock + count_posts acts1) in
      let (rest', acts3) :=
        emit_data rest data now now_str
                  (clock + count_posts acts1 + count_posts acts2) in
      ({| hec := c2; event_template := event_template e;
          payload_template := payload_template e |} :: rest',
       acts1 ++ acts2 ++ acts3)
  end.

(** [format_record]: the attributes of the record are a dictionary here;
    a missing attribute is the [AttributeError] the bare [except] catches, or,
    in the handler, lets through. *)
Definition format_record (record : dict) : exn + dict :=
  match dict_get record "message", dict_get record "levelname",
        dict_get record "asctime", dict_get record "name" with
  | Some message, Some levelname, Some asctime, Some name =>
      inr [("message", message); ("level", levelname);
           ("timestamp", asctime); ("loggername", name)]
  | _, _, _, _ =>
      match dict_get record "msg", dict_get record "levelname", dict_get record "name" with
      | Some msg, Some levelname, Some name =>
          inr [("message", msg); ("level", levelname); ("loggername", name)]
      | _, _, _ => inl AttributeError
      end
  end.

(** [emit] *)
Definition emit (endpoints : list endpoint) (record : dict) (now : value)
           (now_str : string) (clock : nat) : exn + (list endpoint * list action) :=
  match format_record record with
  | inl e => inl e
  | inr log_entry => inr (emit_data endpoints log_entry now now_str clock)
  end.
End WithNetwork.

(** Every eligible answer of the endpoint is a [requests] exception. *)
Definition always_raises_request_exception (net : network) (url : string) : Prop :=
  forall n body, is_request_exception (net n url body) = true.

(** Nothing is pending in any collector of the handler. *)
Definition nothing_pending (endpoints : list endpoint) : Prop :=
  Forall (fun e => batchEvents (hec e) = []) endpoints.
End SplunkLog.

(** ** Vocabulary for what masking may change *)

Module MaskShape.
Import Py.

(** [r'] is [r] except, possibly, for what it holds under [query_name]. *)
Definition same_except (query_name : string) (r r' : value) : Prop :=
  match r, r' with
  | VDict kv, VDict kv' =>
      forall other, other <> query_name -> dict_get kv' other = dict_get kv other
  | _, _ => r' = r
  end.

(** The entries of [kv'] are those of [kv], in order, each with its value
    or with [mask_by] in its place. *)
Definition entries_masked (mask_by : value) (kv kv' : list (string * value)) : Prop :=
  Forall2 (fun p p' => fst p' = fst p /\ (snd p' = snd p \/ snd p' = mask_by)) kv kv'.

(** One round of the loop of [Mask.mask_attributes] *)
Definition attribute_step (mask_by : value) (acc : value * option exn) (key : value)
  : value * option exn :=
  match acc with
  | (obj, Some e) => (obj, Some e)
  | (obj, None) =>
      match py_contains obj key with
      | inl e => (obj, Some e)
      | inr false => (obj, None)
      | inr true =>
          match py_setitem obj key mask_by with
          | inl e => (obj, Some e)
          | inr obj' => (obj', None)
          end
      end
  end.

(** [v'] is [v] with some dictionary values replaced by [mask_by]: lists
    keep their length, dictionaries their keys, everything else is equal. *)
Inductive masked_version (mask_by : value) : value -> value -> Prop :=
| masked_same : forall v, masked_version mask_by v v
| masked_list : forall xs ys,
    Forall2 (masked_version mask_by) xs ys ->
    masked_version mask_by (VList xs) (VList ys)
| masked_dict : forall kv kv',
    entries_masked mask_by kv kv' ->
    masked_version mask_by (VDict kv) (VDict kv').
End MaskShape.

(** ** The pulsar returner ([splunk_pulsar_return.py], [returner])

    From the alerts of a return to the payloads handed to [hec.batchEvent].
    The identity keys, the custom fields, the removal of empty fields and the
    index-time fields are the statements of the nova returner, taken from
    [Nova].  Division by [1024.0] and [os.path] are inputs. *)

Module Pulsar.
Import Py.

Definition bind {A B : Type} (m : exn + A) (k : A -> exn + B) : exn + B :=
  match m with
  | inl e => inl e
  | inr a => k a
  end.

Notation "x <- m ;; k" := (bind m (fun x => k))
  (at level 61, m at next level, right associativity).

(** [s.split('|')] *)
Fixpoint split_pipe (s : string) : list string :=
  match s with
  | EmptyString => [EmptyString]
  | String a rest =>
      if Ascii.eqb a "|"%char then EmptyString :: split_pipe rest
      else match split_pipe rest with
           | head :: tail => String a head :: tail
           | [] => [String a EmptyString]
           end
  end.

(** The [defaultdict] of the Linux branch *)
Definition linux_actions : list (string * string) :=
  [("IN_ACCESS", "read"); ("IN_ATTRIB", "acl_modified"); ("IN_CLOSE_NOWRITE", "read");
   ("IN_CLOSE_WRITE", "read"); ("IN_CREATE", "created"); ("IN_DELETE", "deleted");
   ("IN_DELETE_SELF", "deleted"); ("IN_MODIFY", "modified"); ("IN_MOVE_SELF", "modified");
   ("IN_MOVED_FROM", "modified"); ("IN_MOVED_TO", "modified"); ("IN_OPEN", "read");
   ("IN_MOVE", "modified"); ("IN_CLOSE", "read")].

(** The [defaultdict] of the Windows branch *)
Definition windows_actions : list (string * string) :=
  [("Delete", "deleted"); ("Read Control", "read"); ("Write DAC", "acl_modified");
   ("Write Owner", "modified"); ("Synchronize", "modified"); ("Access Sys Sec", "read");
   ("Read Data", "read"); ("Write Data", "modified"); ("Append Data", "modified");
   ("Read EA", "read"); ("Write EA", "modified"); ("Execute/Traverse", "read");
   ("Read Attributes", "read"); ("Write Attributes", "acl_modified");
   ("Query Key Value", "read"); ("Set Key Value", "modified");
   ("Create Sub Key", "created"); ("Enumerate Sub-Keys", "read");
   ("Notify About Changes to Keys", "read"); ("Create Link", "created");
   ("Print", "read"); ("Basic info change", "modified");
   ("Compression change", "modified"); ("Data extend", "modified");
   ("EA change", "modified"); ("File create", "created"); ("File delete", "deleted")].

Fixpoint lookup (table : list (string * string)) (key : string) : option string :=
  match table with
  | [] => None
  | (k, v) :: rest => if String.eqb key k then Some v else lookup rest key
  end.

(** [actions[change]]: a missing key gives ['unknown']; a key that cannot
    be hashed raises. *)
Definition actions_item (table : list (string * string)) (change : value) : exn + value :=
  match change with
  | VStr c => inr (VStr (match lookup table c with Some a => a | None => "unknown" end))
  | VList _ | VDict _ => inl TypeError
  | VNone | VBool _ | VNum _ => inr (VStr "unknown")
  end.

(** [actions.get(c, c)] *)
Definition actions_get (table : list (string * string)) (c : value) : exn + value :=
  match c with
  | VStr s => inr (match lookup table s with Some a => VStr a | None => c end)
  | VList _ | VDict _ => inl TypeError
  | VNone | VBool _ | VNum _ => inr c
  end.

(** [alert.get(key, default)] *)
Definition py_get (alert : value) (key : string) (default : value) : exn + value :=
  match alert with
  | VDict kv => inr (match dict_get kv key with Some v => v | None => default end)
  | _ => inl AttributeError
  end.

(** [a + b] for strings *)
Definition str_add (a b : value) : exn + value :=
  match a, b with
  | VStr x, VStr y => inr (VStr (x ++ y))
  | _, _ => inl TypeError
  end.

Section WithOs.
Variable kilobytes : value -> exn + value.          (* [x / 1024.0] *)
Variable basename : value -> exn + value.           (* [os.path.basename] *)
Variable dirname : value -> exn + value.            (* [os.path.dirname] *)

(** The checksum keys, shared by both branches *)
Definition add_checksum (alert : value) (event : dict) : exn + dict :=
  chk <- py_get alert "checksum" VNone ;;
  if truthy chk then
    kind <- py_get alert "checksum_type" (VStr "unknown") ;;
    inr (dict_set (dict_set event "file_hash" chk) "file_hash_type" kind)
  else inr event.

(** The branch [if 'change' in alert]; [None] is [continue]. *)
Definition linux_event (alert : value) : exn + option dict :=
  changed <- py_getitem alert (VStr "change") ;;
  match changed with
  | VStr changed =>
      let parts := split_pipe changed in
      let change := hd EmptyString parts in
      if String.eqb change "IN_IGNORED" then inr None
      else
        let object_type :=
          if (List.length parts =? 2)%nat then "directory" else "file" in
        action <- actions_item linux_actions (VStr change) ;;
        let event := dict_set [] "action" action in
        let event := dict_set event "change_type" (VStr "filesystem") in
        let event := dict_set event "object_category" (VStr object_type) in
        path <- py_getitem alert (VStr "path") ;;
        let event := dict_set event "object_path" path in
        name <- py_getitem alert (VStr "name") ;;
        let event := dict_set event "file_name" name in
        tag <- py_getitem alert (VStr "tag") ;;
        let event := dict_set event "file_path" tag in
        config <- py_getitem alert (VStr "pulsar_config") ;;
        let event := dict_set event "pulsar_config" config in
        has_contents <- py_contains alert (VStr "contents") ;;
        event <- (if has_contents : bool
                  then contents <- py_getitem alert (VStr "contents") ;;
                       inr (dict_set event "contents" contents)
                  else inr event) ;;
        stats <- py_getitem alert (VStr "stats") ;;
        if truthy stats then
          inode <- py_getitem stats (VStr "inode") ;;
          let event := dict_set event "object_id" inode in
          mode <- py_getitem stats (VStr "mode") ;;
          let event := dict_set event "file_acl" mode in
          ctime <- py_getitem stats (VStr "ctime") ;;
          let event := dict_set event "file_create_time" ctime in
          mtime <- py_getitem stats (VStr "mtime") ;;
          let event := dict_set event "file_modify_time" mtime in
          size <- py_getitem stats (VStr "size") ;;
          size <- kilobytes size ;;
          let event := dict_set event "file_size" size in
          user <- py_getitem stats (VStr "user") ;;
          let event := dict_set event "user" user in
          group <- py_getitem stats (VStr "group") ;;
          let event := dict_set event "group" group in
          if String.eqb object_type "file"
          then event <- add_checksum alert event ;; inr (Some event)
          else inr (Some event)
        else inr (Some event)
  | _ => inl AttributeError                      (* no [split] *)
  end.

(** [for c in change: ...] of the Windows branch without ['Accesses'] *)
Fixpoint join_actions (reasons : list value) (event : dict) : exn + dict :=
  match reasons with
  | [] => inr event
  | c :: rest =>
      let current := match dict_get event "action" with Some a => a | None => VNone end in
      if negb (truthy current) then
        mapped <- actions_get windows_actions c ;;
        join_actions rest (dict_set event "action" mapped)
      else
        mapped <- actions_get windows_actions c ;;
        tail <- str_add (VStr ", ") mapped ;;
        joined <- str_add current tail ;;
        join_actions rest (dict_set event "action" joined)
  end.

(** The branch [else:  # Windows, win_pulsar] *)
Definition windows_event (alert : value) : exn + option dict :=
  accesses <- py_get alert "Accesses" VNone ;;
  if truthy accesses then
    hash <- py_getitem alert (VStr "Hash") ;;
    let object_type :=
      if py_eq hash (VStr "Item is a directory") then "directory" else "file" in
    action <- actions_item windows_actions accesses ;;
    let event := dict_set [] "action" action in
    let event := dict_set event "change_type" (VStr "filesystem") in
    let event := dict_set event "object_category" (VStr object_type) in
    object_name <- py_getitem alert (VStr "Object Name") ;;
    let event := dict_set event "object_path" object_name in
    file_name <- basename object_name ;;
    let event := dict_set event "file_name" file_name in
    file_path <- dirname object_name ;;
    let event := dict_set event "file_path" file_path in
    config <- py_getitem alert (VStr "pulsar_config") ;;
    inr (Some (dict_set event "pulsar_config" config))
  else
    change <- py_getitem alert (VStr "Reason") ;;
    reasons <- py_iter change ;;
    event <- join_actions reasons [] ;;
    let event := dict_set event "change_type" (VStr "filesystem") in
    let event := dict_set event "object_category" (VStr "file") in
    full_path <- py_getitem alert (VStr "Full path") ;;
    let event := dict_set event "object_path" full_path in
    file_name <- py_getitem alert (VStr "File name") ;;
    let event := dict_set event "file_name" file_name in
    tag <- py_getitem alert (VStr "tag") ;;
    let event := dict_set event "file_path" tag in
    config <- py_get alert "pulsar_config" (VStr "trubblestack_pulsar_win_config.yaml") ;;
    let event := dict_set event "pulsar_config" config in
    stamp <- py_getitem alert (VStr "Time stamp") ;;
    let event := dict_set event "TimeGenerated" stamp in
    event <- add_checksum alert event ;;
    inr (Some event).

(** The two branches *)
Definition alert_event (alert : value) : exn + option dict :=
  linux <- py_contains alert (VStr "change") ;;
  if linux : bool then linux_event alert else windows_event alert.

Variable ctx : Nova.context.

(** The body of [for alert in alerts], up to the payload handed to
    [hec.batchEvent]; [None] is [continue]. *)
Definition alert_payload (alert : value) : exn + option dict :=
  event <- alert_event alert ;;
  match event with
  | None => inr None
  | Some event =>
      event <- Nova.add_custom_fields ctx (Nova.add_identity ctx event) ;;
      let payload := dict_update [] [("host", Nova.fqdn ctx)] in
      let payload := dict_update payload [("index", Nova.opts_index ctx)] in
      let payload := dict_update payload [("sourcetype", Nova.opts_sourcetype ctx)] in
      let event := Nova.remove_empty_fields event in
      let payload := dict_update payload [("event", VDict event)] in
      inr (Some (Nova.add_fields ctx payload event))
  end.

(** [for alert in alerts: ...]: the payloads batched before the first
    exception, and that exception if there is one *)
Fixpoint batch_alerts (alerts : list value) : list dict * option exn :=
  match alerts with
  | [] => ([], None)
  | alert :: rest =>
      match alert_payload alert with
      | inl e => ([], Some e)
      | inr None => batch_alerts rest
      | inr (Some payload) =>
          let (payloads, err) := batch_alerts rest in (payload :: payloads, err)
      end
  end.
End WithOs.

(** [for item in data: events = item['return']; ...; alerts.extend(events)] *)
Fixpoint alerts_of (data : list value) : exn + list value :=
  match data with
  | [] => inr []
  | item :: rest =>
      events <- py_getitem item (VStr "return") ;;
      more <- alerts_of rest ;;
      inr (match events with
           | VList events => events
           | other => [other]
           end ++ more)
  end.

Definition action_words : list string :=
  ["read"; "acl_modified"; "created"; "deleted"; "modified"; "unknown"].

(** An alert of the Linux branch whose change starts with [IN_IGNORED] *)
Definition is_ignored (alert : value) : bool :=
  match alert with
  | VDict kv =>
      match dict_get kv "change" with
      | Some (VStr changed) => String.eqb (hd EmptyString (split_pipe changed)) "IN_IGNORED"
      | _ => false
      end
  | _ => false
  end.

(** The name a reason is reported under: [actions.get(c, c)] on a string *)
Definition windows_name (reason : string) : string :=
  match lookup windows_actions reason with
  | Some action => action
  | None => reason
  end.

(** A stand-in for the division, on whole numbers *)
Definition kilobytes_sample (size : value) : exn + value :=
  match size with
  | VNum n => inr (VNum (n / 1024))
  | _ => inl TypeError
  end.

(** A stand-in for [os.path]: the path itself *)
Definition path_sample (path : value) : exn + value :=
  match path with
  | VStr _ => inr path
  | _ => inl AttributeError
  end.

Definition sample_windows_alert : value :=
  VDict [("Reason", VList [VStr "Data extend"; VStr "Renamed"; VStr "File delete"]);
         ("Full path", VStr "C:/Users/a/notes.txt"); ("File name", VStr "notes.txt");
         ("tag", VStr "C:/Users"); ("Time stamp", VStr "2018-01-01 00:00:00")].

(** Sample data *)
Definition sample_alert (change : string) : value :=
  VDict [("change", VStr change); ("path", VStr "/etc/passwd"); ("name", VStr "passwd");
         ("tag", VStr "/etc"); ("pulsar_config", VStr "salt://pulsar.yaml");
         ("stats", VDict [])].
End Pulsar.

(* ===================================================================== *)
(** * Part II. Properties                                                 *)
(* ===================================================================== *)

Section DedupFacts.
Context {A : Type} (eq_dec : forall x y : A, {x = y} + {x <> y}).
Import Dedup.

Lemma py_in_spec (x : A) (l : list A) : py_in eq_dec x l = true <-> In x l.
Proof.
  unfold py_in. rewrite existsb_exists. split.
  - intros [y [Hy Heq]]. destruct (eq_dec x y); [subst; assumption | discriminate].
  - intros Hin. exists x. split; [assumption |].
    destruct (eq_dec x x); [reflexivity | contradiction].
Qed.

Lemma py_in_false (x : A) (l : list A) : py_in eq_dec x l = false <-> ~ In x l.
Proof.
  rewrite <- py_in_spec. destruct (py_in eq_dec x l); intuition congruence.
Qed.

Lemma dedupList_In (l : list A) (x : A) : In x (_dedupList eq_dec l) <-> In x l.
Proof.
  induction l as [| a l IH]; simpl; [tauto |].
  destruct (py_in eq_dec a l) eqn:Ha.
  - apply py_in_spec in Ha. rewrite IH. split; [tauto |].
    intros [-> | H]; assumption.
  - simpl. rewrite IH. tauto.
Qed.

Lemma dedupList_NoDup (l : list A) : NoDup (_dedupList eq_dec l).
Proof.
  induction l as [| a l IH]; simpl; [constructor |].
  destruct (py_in eq_dec a l) eqn:Ha; [assumption |].
  constructor; [| assumption].
  rewrite dedupList_In. now apply py_in_false.
Qed.

Lemma py_in_snoc (a x : A) (l : list A) :
  py_in eq_dec a (l ++ [x]) = py_in eq_dec a l || (if eq_dec a x then true else false).
Proof. unfold py_in. rewrite existsb_app. simpl. now rewrite orb_false_r. Qed.

(** Appending [x] at the end evicts every earlier copy of [x]. *)
Lemma dedupList_snoc (l : list A) (x : A) :
  _dedupList eq_dec (l ++ [x]) = remove eq_dec x (_dedupList eq_dec l) ++ [x].
Proof.
  induction l as [| a l IH]; simpl; [reflexivity |].
  rewrite py_in_snoc, IH.
  destruct (eq_dec a x) as [-> | Hne].
  - rewrite orb_true_r.
    destruct (py_in eq_dec x l); simpl; [reflexivity |].
    destruct (eq_dec x x); [reflexivity | contradiction].
  - rewrite orb_false_r.
    destruct (py_in eq_dec a l); simpl; [reflexivity |].
    destruct (eq_dec x a); [congruence | reflexivity].
Qed.

Lemma remove_rev (x : A) (l : list A) :
  remove eq_dec x (rev l) = rev (remove eq_dec x l).
Proof.
  induction l as [| a l IH]; simpl; [reflexivity |].
  rewrite remove_app, IH. simpl.
  destruct (eq_dec x a); simpl; [now rewrite app_nil_r | reflexivity].
Qed.

Lemma dedupList_rev (l : list A) :
  _dedupList eq_dec (rev l) = rev (keep_first_occurrences eq_dec l).
Proof.
  induction l as [| a l IH]; simpl; [reflexivity |].
  now rewrite dedupList_snoc, IH, remove_rev.
Qed.

(** An element survives exactly at its last occurrence: whatever precedes
    it is deduplicated relative to the suffix that starts at it. *)
Lemma dedupList_app (l1 l2 : list A) :
  _dedupList eq_dec (l1 ++ l2) =
  filter (fun y => negb (py_in eq_dec y l2)) (_dedupList eq_dec l1)
    ++ _dedupList eq_dec l2.
Proof.
  induction l1 as [| a l1 IH]; simpl; [reflexivity |].
  unfold py_in at 1. rewrite existsb_app. fold (py_in eq_dec a l1) (py_in eq_dec a l2).
  destruct (py_in eq_dec a l1) eqn:H1; simpl; [exact IH |].
  destruct (py_in eq_dec a l2) eqn:H2; simpl; [exact IH |].
  now rewrite IH.
Qed.
End DedupFacts.

(** C2, as stated, fails: on [[1,2,1,3,2]] the code does not return
    [[1,2,3]]. *)
Lemma dedupList_not_first_occurrences :
  Dedup._dedupList Z.eq_dec [1; 2; 1; 3; 2] <> [1; 2; 3].
Proof. vm_compute. discriminate. Qed.

(** C2 (amended): [_dedupList] returns a duplicate-free list with the same
    elements as its input that keeps the LAST occurrence of each element, in
    the order of those last occurrences: it is the mirror image of keeping
    first occurrences of the reversed input, an element followed by no equal
    element is kept after everything kept before it, and
    [_dedupList([1,2,1,3,2]) = [1,3,2]]. *)
Theorem dedupList_keeps_last_occurrences :
  (forall (A : Type) (eq_dec : forall x y : A, {x = y} + {x <> y}) (l : list A),
      NoDup (Dedup._dedupList eq_dec l)
      /\ (forall x, In x (Dedup._dedupList eq_dec l) <-> In x l)
      /\ Dedup._dedupList eq_dec l
         = rev (Dedup.keep_first_occurrences eq_dec (rev l))
      /\ (forall pre x post, l = pre ++ x :: post ->
            Dedup._dedupList eq_dec l
            = filter (fun y => negb (Dedup.py_in eq_dec y (x :: post)))
                     (Dedup._dedupList eq_dec pre)
              ++ Dedup._dedupList eq_dec (x :: post)))
  /\ Dedup._dedupList Z.eq_dec [1; 2; 1; 3; 2] = [1; 3; 2].
Proof.
  split; [| reflexivity].
  intros A eq_dec l. repeat split.
  - apply dedupList_NoDup.
  - apply dedupList_In.
  - apply dedupList_In.
  - rewrite <- dedupList_rev. now rewrite rev_involutive.
  - intros pre x post ->. apply dedupList_app.
Qed.

(** ** The collector: termination of the retry loop *)

Section HecFacts.
Import Py Hec.
Variable net : network.

Lemma retry_loop_total (fuel : nat) :
  forall retries max_retries retry_sleep server body clock,
    (Z.to_nat (max_retries - retries) < fuel)%nat ->
    exists res,
      retry_loop net fuel retries max_retries retry_sleep server body clock = Some res.
Proof.
  induction fuel as [| fuel IH]; intros retries m s server body clock Hfuel; [lia |].
  simpl. destruct (retries <? m) eqn:Hlt; [| eauto].
  apply Z.ltb_lt in Hlt.
  assert (Hrec : forall sv, exists res,
             retry_loop net fuel (retries + 1) m s sv body (S clock) = Some res)
    by (intro sv; apply IH; lia).
  destruct (negb (retries + 1 =? 0) && sleep_raises s); [eauto |].
  destruct (net clock (fst server) body); eauto;
    match goal with
    | |- context [retry_loop net fuel _ _ _ ?sv _ _] =>
        destruct (Hrec sv) as [[[sv' su] ac] ->]; eauto
    end.
Qed.

Lemma try_server_total (cfg : settings) server body clock :
  exists res, try_server net cfg server body clock = Some res.
Proof. unfold try_server. apply retry_loop_total. lia. Qed.

Lemma for_servers_total (cfg : settings) servers :
  forall body clock, exists res, for_servers net cfg servers body clock = Some res.
Proof.
  induction servers as [| server rest IH]; intros body clock; simpl; [eauto |].
  destruct (try_server_total cfg server body clock) as [[[sv' su] ac] ->].
  destruct su; [eauto |]. destruct (raised ac); [eauto |].
  destruct (IH body (clock + count_posts ac)%nat) as [[[rest' su'] ac'] ->]. eauto.
Qed.

Lemma flushBatch_total (cfg : settings) c clock :
  exists res, flushBatch net cfg c clock = Some res.
Proof.
  unfold flushBatch. destruct (0 <? _)%nat; [| eauto].
  destruct (for_servers_total cfg (eligible (server_uri c))
              (join_events (batchEvents c)) clock) as [[[sv su] ac] ->].
  destruct (raised ac); eauto.
Qed.

Lemma account_and_append_total (cfg : settings) c n entry clock :
  exists res, account_and_append net cfg c n entry clock = Some res.
Proof.
  unfold account_and_append. destruct (_ >? _); [| eauto].
  destruct (flushBatch_total cfg c clock) as [[c' ac] ->].
  destruct (raised ac); eauto.
Qed.

Lemma step_total (cfg : settings) dumps o c clock :
  exists res, step net cfg dumps o c clock = Some res.
Proof.
  destruct o; simpl; [unfold batchEvent_pulsar | unfold batchEvent_nova |];
    auto using account_and_append_total, flushBatch_total.
Qed.

Lemma run_total (cfg : settings) dumps ops :
  forall c clock, exists res, run net cfg dumps ops c clock = Some res.
Proof.
  induction ops as [| o rest IH]; intros c clock; simpl; [eauto |].
  destruct (step_total cfg dumps o c clock) as [[c' ac] ->].
  destruct (raised ac); [eauto |].
  destruct (IH c' (clock + count_posts ac)%nat) as [[c'' ac'] ->]. eauto.
Qed.

(** ** The collector: an endpoint that never accepts *)

Lemma existsb_seq_shift (f : nat -> bool) (k : nat) :
  forall a, existsb f (seq (S a) k) = existsb (fun i => f (S i)) (seq a k).
Proof. induction k as [| k IH]; intro a; simpl; [reflexivity | now rewrite IH]. Qed.

Lemma existsb_pointwise {B : Type} (f g : B -> bool) (l : list B) :
  (forall x, f x = g x) -> existsb f l = existsb g l.
Proof. intro H. induction l as [| x l IH]; simpl; [reflexivity | now rewrite H, IH]. Qed.

Lemma some_request_failed_S clock k url body :
  some_request_failed net clock (S k) url body
  = is_request_failed (net clock url body) || some_request_failed net (S clock) k url body.
Proof.
  unfold some_request_failed. simpl seq. simpl existsb.
  rewrite Nat.add_0_r, existsb_seq_shift. f_equal.
  apply existsb_pointwise. intros i. now rewrite Nat.add_succ_r.
Qed.

Lemma sleep_returns (seconds : Z) : 0 <= seconds -> sleep_raises seconds = false.
Proof. intro H. unfold sleep_raises. now apply Z.ltb_ge. Qed.

Lemma retry_sleep_of_off (cfg : settings) : RETRY cfg = false -> 0 <= retry_sleep_of cfg.
Proof. unfold retry_sleep_of. intros ->. lia. Qed.

Lemma retry_loop_failing (fuel : nat) :
  forall retries max_retries retry_sleep server body clock,
    always_fails net (fst server) ->
    0 <= retry_sleep ->
    (Z.to_nat (max_retries - retries) < fuel)%nat ->
    retry_loop net fuel retries max_retries retry_sleep server body clock
    = Some ((fst server,
             if some_request_failed net clock (Z.to_nat (max_retries - retries))
                                    (fst server) body
             then false else snd server),
            false,
            failed_attempts (Z.to_nat (max_retries - retries)) retries retry_sleep
                            (fst server) body).
Proof.
  induction fuel as [| fuel IH];
    intros retries m s server body clock Hfail Hsleep Hfuel; [lia |].
  simpl. rewrite (sleep_returns s Hsleep), Bool.andb_false_r.
  destruct (retries <? m) eqn:Hlt.
  - apply Z.ltb_lt in Hlt.
    assert (Hk : Z.to_nat (m - retries) = S (Z.to_nat (m - (retries + 1)))) by lia.
    rewrite Hk, some_request_failed_S. simpl failed_attempts.
    pose proof (Hfail clock body) as Hne.
    destruct (net clock (fst server) body) eqn:Hnet; try congruence;
      rewrite IH by (simpl; auto; lia); simpl;
      rewrite <- ?app_assoc; simpl; try reflexivity.
    now destruct (some_request_failed net (S clock) _ _ _).
  - apply Z.ltb_ge in Hlt.
    replace (Z.to_nat (m - retries)) with O by lia. simpl.
    now destruct server.
Qed.

Lemma count_posts_app (a b : list action) :
  count_posts (a ++ b) = (count_posts a + count_posts b)%nat.
Proof. unfold count_posts. now rewrite filter_app, length_app. Qed.

Lemma count_posts_failed_attempts (k : nat) :
  forall retries retry_sleep url body,
    count_posts (failed_attempts k retries retry_sleep url body) = k.
Proof.
  induction k as [| k IH]; intros retries s url body; simpl; [reflexivity |].
  rewrite count_posts_app. simpl app. change (Post url body :: ?l) with ([Post url body] ++ l).
  destruct (negb (retries + 1 =? 0)); cbn [count_posts filter List.length Nat.add];
    unfold count_posts in IH |- *; simpl; now rewrite IH.
Qed.

(** The number of attempts the settings allow on one server. *)
Lemma try_server_failing (cfg : settings) server body clock :
  always_fails net (fst server) ->
  0 <= retry_sleep_of cfg ->
  try_server net cfg server body clock
  = Some ((fst server,
           if some_request_failed net clock (Z.to_nat (max_retries_of cfg + 1))
                                  (fst server) body
           then false else snd server),
          false,
          failed_attempts (Z.to_nat (max_retries_of cfg + 1)) (-1) (retry_sleep_of cfg)
                          (fst server) body).
Proof.
  intros Hfail Hsleep. unfold try_server.
  rewrite retry_loop_failing by (auto; lia).
  now replace (max_retries_of cfg - -1) with (max_retries_of cfg + 1) by lia.
Qed.

Lemma raised_app (a b : list action) : raised (a ++ b) = raised a || raised b.
Proof. unfold raised. apply existsb_app. Qed.

Lemma raised_failed_attempts (k : nat) :
  forall retries retry_sleep url body,
    0 <= retry_sleep ->
    raised (failed_attempts k retries retry_sleep url body) = false.
Proof.
  induction k as [| k IH]; intros retries s url body Hs; simpl; [reflexivity |].
  rewrite raised_app. change (Post url body :: ?l) with ([Post url body] ++ l).
  rewrite raised_app, IH by exact Hs.
  destruct (negb (retries + 1 =? 0)); simpl; [| reflexivity].
  now rewrite (sleep_returns s Hs).
Qed.

Lemma for_servers_all_fail (cfg : settings) servers :
  forall body clock,
    0 <= retry_sleep_of cfg ->
    (forall s, In s servers -> always_fails net (fst s)) ->
    exists servers',
      for_servers net cfg servers body clock
      = Some (servers', false,
              flat_map (fun s => failed_attempts (Z.to_nat (max_retries_of cfg + 1)) (-1)
                                                 (retry_sleep_of cfg) (fst s) body)
                       servers)
      /\ map fst servers' = map fst servers.
Proof.
  induction servers as [| server rest IH]; intros body clock Hsleep Hall; simpl.
  - exists []. split; reflexivity.
  - rewrite try_server_failing by (try exact Hsleep; apply Hall; now left).
    rewrite raised_failed_attempts by exact Hsleep.
    destruct (IH body (clock + count_posts
                (failed_attempts (Z.to_nat (max_retries_of cfg + 1)) (-1)
                   (retry_sleep_of cfg) (fst server) body))%nat Hsleep)
      as [rest' [-> Hfst]].
    + intros s Hs. apply Hall. now right.
    + eexists. split; [reflexivity |]. simpl. now rewrite Hfst.
Qed.

(** ** The collector: where a POST can go and what it carries *)

Lemma retry_loop_posts (fuel : nat) :
  forall retries max_retries retry_sleep server body clock server' success acts,
    retry_loop net fuel retries max_retries retry_sleep server body clock
    = Some (server', success, acts) ->
    fst server' = fst server
    /\ forall url b, In (Post url b) acts -> url = fst server /\ b = body.
Proof.
  induction fuel as [| fuel IH];
    intros retries m s server body clock server' success acts Hrun; [discriminate |].
  simpl in Hrun. destruct (retries <? m).
  - destruct (negb (retries + 1 =? 0) && sleep_raises s).
    { injection Hrun as <- <- <-. split; [reflexivity |].
      intros url b [Hin | []]. discriminate Hin. }
    assert (Hatt : forall url b rest,
               In (Post url b)
                  ((if negb (retries + 1 =? 0) then [Sleep s] else [])
                     ++ [Post (fst server) body] ++ rest) ->
               (url = fst server /\ b = body) \/ In (Post url b) rest).
    { intros url b rest Hin. apply in_app_or in Hin. destruct Hin as [Hin | Hin].
      - destruct (negb (retries + 1 =? 0)); simpl in Hin; [| tauto].
        destruct Hin as [Hin | []]. discriminate.
      - simpl in Hin. destruct Hin as [Hin | Hin]; [| now right].
        injection Hin as <- <-. now left. }
    destruct (net clock (fst server) body);
      try (destruct (retry_loop net fuel _ _ _ _ _ _) as [[[sv su] ac] |] eqn:Hrec;
           [| discriminate];
           injection Hrun as <- <- <-;
           apply IH in Hrec; destruct Hrec as [Hfst Hposts];
           split; [exact Hfst |];
           intros url b Hin; rewrite <- app_assoc in Hin;
           apply Hatt in Hin; destruct Hin as [Hin | Hin]; [exact Hin |];
           apply Hposts in Hin; exact Hin).
    injection Hrun as <- <- <-. split; [reflexivity |].
    intros url b Hin.
    specialize (Hatt url b []). rewrite app_nil_r in Hatt.
    destruct (Hatt Hin) as [H | []]. exact H.
  - injection Hrun as <- <- <-. split; [reflexivity |]. intros url b [].
Qed.

Lemma for_servers_posts (cfg : settings) servers :
  forall body clock servers' success acts,
    for_servers net cfg servers body clock = Some (servers', success, acts) ->
    map fst servers' = map fst servers
    /\ forall url b, In (Post url b) acts -> In url (map fst servers) /\ b = body.
Proof.
  induction servers as [| server rest IH];
    intros body clock servers' success acts Hrun; simpl in Hrun.
  - injection Hrun as <- <- <-. split; [reflexivity |]. intros url b [].
  - destruct (try_server net cfg server body clock) as [[[sv su] ac] |] eqn:Htry;
      [| discriminate].
    unfold try_server in Htry. apply retry_loop_posts in Htry.
    destruct Htry as [Hfst Hposts].
    destruct su.
    + injection Hrun as <- <- <-. simpl. split; [now rewrite Hfst |].
      intros url b Hin. apply Hposts in Hin. destruct Hin as [-> ->]. auto.
    + destruct (raised ac).
      { injection Hrun as <- <- <-. simpl. split; [now rewrite Hfst |].
        intros url b Hin. apply Hposts in Hin. destruct Hin as [-> ->]. auto. }
      destruct (for_servers net cfg rest body _) as [[[rest' su'] ac'] |] eqn:Hrest;
        [| discriminate].
      injection Hrun as <- <- <-. apply IH in Hrest. destruct Hrest as [Hfst' Hposts'].
      simpl. split; [now rewrite Hfst, Hfst' |].
      intros url b Hin. apply in_app_or in Hin. destruct Hin as [Hin | Hin].
      * apply Hposts in Hin. destruct Hin as [-> ->]. auto.
      * apply Hposts' in Hin. destruct Hin as [Hin ->]. auto.
Qed.

(** ** The collector: the first endpoint to accept ends the flush *)

Lemma answers_app (a b : list action) :
  forall clock,
    answers net clock (a ++ b)
    = answers net clock a ++ answers net (clock + count_posts a)%nat b.
Proof.
  induction a as [| x a IH]; intro clock; simpl.
  - now rewrite Nat.add_0_r.
  - destruct x as [secs | url body]; simpl.
    + rewrite IH. reflexivity.
    + rewrite IH. unfold count_posts. simpl. now rewrite Nat.add_succ_r.
Qed.

Lemma well_ended_app clock a success b :
  all_failed net clock a ->
  well_ended net (clock + count_posts a)%nat success b ->
  well_ended net clock success (a ++ b).
Proof.
  intros Ha Hb. destruct success; simpl in *.
  - destruct Hb as [pre [url [body [-> [Hpre Hacc]]]]].
    exists (a ++ pre), url, body. repeat split.
    + now rewrite app_assoc.
    + unfold all_failed in *. rewrite answers_app. now apply Forall_app.
    + now rewrite count_posts_app, Nat.add_assoc.
  - unfold all_failed in *. rewrite answers_app. now apply Forall_app.
Qed.

Lemma retry_loop_well_ended (fuel : nat) :
  forall retries max_retries retry_sleep server body clock server' success acts,
    retry_loop net fuel retries max_retries retry_sleep server body clock
    = Some (server', success, acts) ->
    well_ended net clock success acts.
Proof.
  induction fuel as [| fuel IH];
    intros retries m s server body clock server' success acts Hrun; [discriminate |].
  simpl in Hrun. destruct (retries <? m).
  - destruct (negb (retries + 1 =? 0) && sleep_raises s).
    { injection Hrun as <- <- <-. simpl. constructor. }
    set (slept := if negb (retries + 1 =? 0) then [Sleep s] else []) in *.
    assert (Hslept : answers net clock slept = [] /\ count_posts slept = O)
      by (subst slept; destruct (negb (retries + 1 =? 0)); split; reflexivity).
    destruct Hslept as [Hans Hcnt].
    assert (Hfailed : net clock (fst server) body <> Accepted ->
                      all_failed net clock (slept ++ [Post (fst server) body])).
    { intro Hne. unfold all_failed. rewrite answers_app, Hans, Hcnt, Nat.add_0_r.
      simpl. now constructor. }
    assert (Hone : count_posts (slept ++ [Post (fst server) body]) = 1%nat)
      by (rewrite count_posts_app, Hcnt; reflexivity).
    destruct (net clock (fst server) body) eqn:Hnet;
      try (destruct (retry_loop net fuel _ _ _ _ _ _) as [[[sv su] ac] |] eqn:Hrec;
           [| discriminate];
           injection Hrun as <- <- <-;
           apply well_ended_app; [apply Hfailed; discriminate |];
           rewrite Hone, Nat.add_1_r; eapply IH; exact Hrec).
    injection Hrun as <- <- <-. simpl.
    exists slept, (fst server), body. repeat split.
    + unfold all_failed. rewrite Hans. constructor.
    + now rewrite Hcnt, Nat.add_0_r.
  - injection Hrun as <- <- <-. simpl. constructor.
Qed.

Lemma for_servers_well_ended (cfg : settings) servers :
  forall body clock servers' success acts,
    for_servers net cfg servers body clock = Some (servers', success, acts) ->
    well_ended net clock success acts.
Proof.
  induction servers as [| server rest IH];
    intros body clock servers' success acts Hrun; simpl in Hrun.
  - injection Hrun as <- <- <-. simpl. constructor.
  - destruct (try_server net cfg server body clock) as [[[sv su] ac] |] eqn:Htry;
      [| discriminate].
    unfold try_server in Htry. apply retry_loop_well_ended in Htry.
    destruct su.
    + injection Hrun as <- <- <-. exact Htry.
    + destruct (raised ac).
      { injection Hrun as <- <- <-. exact Htry. }
      destruct (for_servers net cfg rest body _) as [[[rest' su'] ac'] |] eqn:Hrest;
        [| discriminate].
      injection Hrun as <- <- <-. apply well_ended_app; [exact Htry |].
      eapply IH. exact Hrest.
Qed.

(** In a run that ended well, an accepted POST has nothing after it. *)
Lemma accepted_is_last clock success acts pre url body post :
  well_ended net clock success acts ->
  acts = pre ++ Post url body :: post ->
  net (clock + count_posts pre)%nat url body = Accepted ->
  post = [].
Proof.
  intros Hend Hsplit Hacc.
  assert (Hnot : ~ all_failed net clock (pre ++ Post url body :: post)).
  { unfold all_failed. rewrite answers_app. simpl. intro Hall.
    apply Forall_app in Hall. destruct Hall as [_ Hall].
    inversion Hall; subst. congruence. }
  destruct success; simpl in Hend.
  - destruct Hend as [pre0 [url0 [body0 [Heq [Hpre0 _]]]]].
    rewrite Hsplit in Heq.
    apply app_eq_app in Heq. destruct Heq as [l [[Hl1 Hl2] | [Hl1 Hl2]]].
    + destruct l as [| x l]; simpl in Hl2.
      * now inversion Hl2.
      * inversion Hl2 as [[Hx Hnil]]. destruct l; discriminate.
    + destruct l as [| x l]; simpl in Hl2.
      * now inversion Hl2.
      * inversion Hl2; subst. exfalso.
        unfold all_failed in Hpre0. rewrite answers_app in Hpre0.
        apply Forall_app in Hpre0. destruct Hpre0 as [_ Hp2].
        simpl in Hp2. inversion Hp2; subst. congruence.
  - exfalso. apply Hnot. now rewrite <- Hsplit.
Qed.

(** ** The collector: [flushBatch] *)

Lemma flushBatch_empty (cfg : settings) c clock :
  batchEvents c = [] -> flushBatch net cfg c clock = Some (c, []).
Proof. intro H. unfold flushBatch. now rewrite H. Qed.

(** With a sleep that does not raise, no call is left by an exception. *)
Lemma retry_loop_returns (fuel : nat) :
  forall retries max_retries retry_sleep server body clock server' success acts,
    0 <= retry_sleep ->
    retry_loop net fuel retries max_retries retry_sleep server body clock
    = Some (server', success, acts) ->
    raised acts = false.
Proof.
  induction fuel as [| fuel IH];
    intros retries m s server body clock server' success acts Hs Hrun; [discriminate |].
  simpl in Hrun. rewrite (sleep_returns s Hs), Bool.andb_false_r in Hrun.
  destruct (retries <? m).
  - assert (Hatt : raised ((if negb (retries + 1 =? 0) then [Sleep s] else [])
                             ++ [Post (fst server) body]) = false).
    { rewrite raised_app. destruct (negb (retries + 1 =? 0)); simpl; [| reflexivity].
      now rewrite (sleep_returns s Hs). }
    destruct (net clock (fst server) body);
      try (destruct (retry_loop net fuel _ _ _ _ _ _) as [[[sv su] ac] |] eqn:Hrec;
           [| discriminate];
           injection Hrun as <- <- <-;
           rewrite raised_app, Hatt; simpl;
           exact (IH _ _ _ _ _ _ _ _ _ Hs Hrec)).
    injection Hrun as <- <- <-. exact Hatt.
  - injection Hrun as <- <- <-. reflexivity.
Qed.

Lemma for_servers_returns (cfg : settings) servers :
  forall body clock servers' success acts,
    0 <= retry_sleep_of cfg ->
    for_servers net cfg servers body clock = Some (servers', success, acts) ->
    raised acts = false.
Proof.
  induction servers as [| server rest IH];
    intros body clock servers' success acts Hs Hrun; simpl in Hrun.
  - injection Hrun as <- <- <-. reflexivity.
  - destruct (try_server net cfg server body clock) as [[[sv su] ac] |] eqn:Htry;
      [| discriminate].
    unfold try_server in Htry. apply retry_loop_returns in Htry; [| exact Hs].
    rewrite Htry in Hrun. destruct su.
    + injection Hrun as <- <- <-. exact Htry.
    + destruct (for_servers net cfg rest body _) as [[[rest' su'] ac'] |] eqn:Hrest;
        [| discriminate].
      injection Hrun as <- <- <-. rewrite raised_app, Htry. simpl.
      exact (IH _ _ _ _ _ Hs Hrest).
Qed.

Lemma flushBatch_nonempty (cfg : settings) c clock :
  batchEvents c <> [] ->
  0 <= retry_sleep_of cfg ->
  exists servers success acts,
    for_servers net cfg (eligible (server_uri c)) (join_events (batchEvents c)) clock
    = Some (servers, success, acts)
    /\ raised acts = false
    /\ flushBatch net cfg c clock
       = Some ({| host := host c; batchEvents := []; maxByteLength := maxByteLength c;
                  currentByteLength := 0; server_uri := servers |}, acts).
Proof.
  intros H Hs. unfold flushBatch.
  destruct (batchEvents c) as [| e es] eqn:He; [contradiction |]. simpl Nat.ltb.
  destruct (for_servers_total cfg (eligible (server_uri c)) (join_events (e :: es)) clock)
    as [[[sv su] ac] Hfor].
  exists sv, su, ac. rewrite Hfor.
  rewrite (for_servers_returns cfg _ _ _ _ _ _ Hs Hfor). auto.
Qed.

Lemma flushBatch_returns (cfg : settings) c clock c' acts :
  0 <= retry_sleep_of cfg ->
  flushBatch net cfg c clock = Some (c', acts) ->
  raised acts = false.
Proof.
  intro Hs. unfold flushBatch. destruct (0 <? _)%nat.
  - destruct (for_servers net cfg _ _ _) as [[[sv su] ac] |] eqn:Hfor; [| discriminate].
    rewrite (for_servers_returns cfg _ _ _ _ _ _ Hs Hfor).
    intro H. injection H as <- <-. exact (for_servers_returns cfg _ _ _ _ _ _ Hs Hfor).
  - intro H. injection H as <- <-. reflexivity.
Qed.

Lemma eligible_healthy servers s : In s (eligible servers) <-> In s servers /\ snd s = true.
Proof.
  unfold eligible. rewrite filter_In. destruct s as [u [|]]; simpl; intuition congruence.
Qed.

Lemma flushBatch_posts (cfg : settings) c clock c' acts :
  flushBatch net cfg c clock = Some (c', acts) ->
  forall url b, In (Post url b) acts ->
    In url (map fst (eligible (server_uri c))) /\ b = join_events (batchEvents c).
Proof.
  unfold flushBatch. destruct (0 <? _)%nat.
  - destruct (for_servers net cfg _ _ _) as [[[sv su] ac] |] eqn:Hfor; [| discriminate].
    apply for_servers_posts in Hfor.
    destruct (raised ac); intro H; injection H as <- <-; apply Hfor.
  - intro H. injection H as <- <-. intros url b [].
Qed.

Lemma flushBatch_servers (cfg : settings) c clock c' acts :
  flushBatch net cfg c clock = Some (c', acts) ->
  server_uri c' = server_uri c
  \/ map fst (server_uri c') = map fst (eligible (server_uri c)).
Proof.
  unfold flushBatch. destruct (0 <? _)%nat.
  - destruct (for_servers net cfg _ _ _) as [[[sv su] ac] |] eqn:Hfor; [| discriminate].
    apply for_servers_posts in Hfor.
    destruct (raised ac); intro H; injection H as <- <-; right; apply Hfor.
  - intro H. injection H as <- <-. now left.
Qed.

Lemma flushBatch_well_ended (cfg : settings) c clock c' acts :
  flushBatch net cfg c clock = Some (c', acts) ->
  exists success, well_ended net clock success acts.
Proof.
  unfold flushBatch. destruct (0 <? _)%nat.
  - destruct (for_servers net cfg _ _ _) as [[[sv su] ac] |] eqn:Hfor; [| discriminate].
    destruct (raised ac); intro H; injection H as <- <-;
      exists su; eapply for_servers_well_ended; exact Hfor.
  - intro H. injection H as <- <-. exists false. constructor.
Qed.

(** ** The collector: an unhealthy endpoint stays out *)

Lemma unhealthy_not_eligible c url :
  unhealthy c url -> ~ In url (map fst (eligible (server_uri c))).
Proof.
  intros Hun Hin. apply in_map_iff in Hin. destruct Hin as [s [Hfst Hs]].
  apply eligible_healthy in Hs. destruct Hs as [Hs Hflag].
  specialize (Hun s Hs Hfst). congruence.
Qed.

Lemma flushBatch_unhealthy (cfg : settings) c clock c' acts url :
  unhealthy c url ->
  flushBatch net cfg c clock = Some (c', acts) ->
  unhealthy c' url /\ forall b, ~ In (Post url b) acts.
Proof.
  intros Hun Hrun. split.
  - destruct (flushBatch_servers _ _ _ _ _ Hrun) as [Heq | Heq].
    + unfold unhealthy. now rewrite Heq.
    + intros s Hs Hfst. exfalso. apply (unhealthy_not_eligible c url Hun).
      rewrite <- Heq, <- Hfst. now apply in_map.
  - intros b Hin. apply (flushBatch_posts _ _ _ _ _ Hrun) in Hin.
    now apply (unhealthy_not_eligible c url Hun).
Qed.

Lemma account_and_append_unhealthy (cfg : settings) c n entry clock c' acts url :
  unhealthy c url ->
  account_and_append net cfg c n entry clock = Some (c', acts) ->
  unhealthy c' url /\ forall b, ~ In (Post url b) acts.
Proof.
  intros Hun. unfold account_and_append. destruct (_ >? _).
  - destruct (flushBatch net cfg c clock) as [[c1 ac] |] eqn:Hflush; [| discriminate].
    destruct (flushBatch_unhealthy _ _ _ _ _ _ Hun Hflush) as [H1 H2].
    destruct (raised ac); intro H; injection H as <- <-; now split.
  - intro H. injection H as <- <-. split; [exact Hun | intros b []].
Qed.

Lemma step_unhealthy (cfg : settings) dumps o c clock c' acts url :
  unhealthy c url ->
  step net cfg dumps o c clock = Some (c', acts) ->
  unhealthy c' url /\ forall b, ~ In (Post url b) acts.
Proof.
  intros Hun. destruct o; simpl.
  - apply account_and_append_unhealthy; exact Hun.
  - apply account_and_append_unhealthy; exact Hun.
  - apply flushBatch_unhealthy; exact Hun.
Qed.

Lemma run_unhealthy (cfg : settings) dumps ops :
  forall c clock c' acts url,
    unhealthy c url ->
    run net cfg dumps ops c clock = Some (c', acts) ->
    unhealthy c' url /\ forall b, ~ In (Post url b) acts.
Proof.
  induction ops as [| o rest IH]; intros c clock c' acts url Hun Hrun; simpl in Hrun.
  - injection Hrun as <- <-. split; [exact Hun | intros b []].
  - destruct (step net cfg dumps o c clock) as [[c1 ac] |] eqn:Hstep; [| discriminate].
    destruct (step_unhealthy _ _ _ _ _ _ _ _ Hun Hstep) as [Hun1 Hno1].
    destruct (raised ac); [injection Hrun as <- <-; now split |].
    destruct (run net cfg dumps rest c1 _) as [[c2 ac'] |] eqn:Hrest; [| discriminate].
    injection Hrun as <- <-.
    destruct (IH _ _ _ _ _ Hun1 Hrest) as [Hun2 Hno2].
    split; [exact Hun2 |]. intros b Hin. apply in_app_or in Hin.
    destruct Hin as [Hin | Hin]; [now apply (Hno1 b) | now apply (Hno2 b)].
Qed.

(** ** The collector: retries switched off *)

Lemma try_server_no_retry (cfg : settings) server body clock :
  RETRY cfg = false ->
  exists server' success,
    try_server net cfg server body clock
    = Some (server', success, [Post (fst server) body]).
Proof.
  intro Hoff. unfold try_server, max_retries_of, retry_sleep_of. rewrite Hoff.
  simpl. destruct (net clock (fst server) body); eauto.
Qed.

Lemma for_servers_no_retry (cfg : settings) servers :
  RETRY cfg = false ->
  forall body clock, exists servers' success k,
    for_servers net cfg servers body clock
    = Some (servers', success, map (fun s => Post (fst s) body) (firstn k servers)).
Proof.
  intro Hoff. induction servers as [| server rest IH]; intros body clock; simpl.
  - exists [], false, O. reflexivity.
  - destruct (try_server_no_retry cfg server body clock Hoff) as [sv [su ->]].
    destruct su.
    + exists (sv :: rest), true, 1%nat. reflexivity.
    + destruct (IH body (clock + count_posts [Post (fst server) body])%nat)
        as [rest' [su' [k ->]]].
      exists (sv :: rest'), su', (S k). reflexivity.
Qed.
(** An endpoint that accepted is flagged healthy when the loop is left,
    whatever was raised before in the same call. *)
Lemma retry_loop_success_healthy (fuel : nat) :
  forall retries max_retries retry_sleep server body clock server' acts,
    retry_loop net fuel retries max_retries retry_sleep server body clock
    = Some (server', true, acts) ->
    snd server' = true.
Proof.
  induction fuel as [| fuel IH];
    intros retries m sl server body clock server' acts Hrun; [discriminate |].
  simpl in Hrun. destruct (retries <? m); [| discriminate].
  destruct (negb (retries + 1 =? 0) && sleep_raises sl); [discriminate |].
  destruct (net clock (fst server) body);
    try (destruct (retry_loop net fuel _ _ _ _ _ _) as [[[sv su] ac] |] eqn:Hrec;
         [| discriminate];
         injection Hrun as <- -> <-; eapply IH; exact Hrec).
  now injection Hrun as <- <-.
Qed.
End HecFacts.

(** ** Delivery: the claims about [flushBatch] *)

(** C7: with a retry sleep that is not negative, [flushBatch] on a
    non-empty batch returns with the pending list empty and the byte counter
    at 0, whatever the network answered; on an empty pending list [flushBatch]
    performs no action and returns the collector unchanged.  (A negative
    sleep makes [time.sleep] raise before the two resets.) *)
Theorem flushBatch_clears_batch :
  forall (net : Hec.network) (cfg : Hec.settings) (c : Hec.collector) (clock : nat),
    (Hec.batchEvents c <> [] ->
     0 <= Hec.retry_sleep_of cfg ->
     exists c' acts,
       Hec.flushBatch net cfg c clock = Some (c', acts)
       /\ Hec.raised acts = false
       /\ Hec.batchEvents c' = []
       /\ Hec.currentByteLength c' = 0)
    /\ (Hec.batchEvents c = [] -> Hec.flushBatch net cfg c clock = Some (c, [])).
Proof.
  intros net cfg c clock. split.
  - intros Hne Hsleep.
    destruct (flushBatch_nonempty net cfg c clock Hne Hsleep)
      as [sv [su [ac [_ [Hret ->]]]]].
    eexists. eexists. split; [reflexivity |]. split; [exact Hret |].
    split; reflexivity.
  - apply flushBatch_empty.
Qed.

Lemma flushBatch_clears_batch_witness :
  (exists c' acts,
      Hec.flushBatch (Hec.net_refusing Hec.HTTPFailed) (Hec.mkSettings true None None)
                     (Hec.two_servers ["{}"] 2) 0 = Some (c', acts)
      /\ Hec.raised acts = false
      /\ Hec.batchEvents c' = []
      /\ Hec.currentByteLength c' = 0)
  /\ Hec.flushBatch (Hec.net_refusing Hec.HTTPFailed) (Hec.mkSettings true None None)
                    (Hec.two_servers [] 0) 0
     = Some (Hec.two_servers [] 0, []).
Proof.
  split.
  - apply (proj1 (flushBatch_clears_batch (Hec.net_refusing Hec.HTTPFailed)
                    (Hec.mkSettings true None None) (Hec.two_servers ["{}"] 2) 0)).
    + discriminate.
    + apply Z.leb_le. reflexivity.
  - apply (proj2 (flushBatch_clears_batch (Hec.net_refusing Hec.HTTPFailed)
                    (Hec.mkSettings true None None) (Hec.two_servers [] 0) 0)).
    reflexivity.
Defined.

(** C5: with [RETRY] on, [returner_retry_max = 2] and a retry sleep that
    is not negative, an endpoint that never accepts is POSTed to exactly three
    times, with a sleep of [retry_sleep] before the second and the third
    attempt and none before the first; this holds for the loop on one endpoint
    and for a whole [flushBatch] whose eligible endpoints all refuse.  With
    [RETRY] off, [max_retries] is 0 and [flushBatch] makes exactly one POST,
    without any sleep, to each endpoint it tries. *)
Theorem retry_on_three_attempts_retry_off_one :
  (forall (net : Hec.network) (sleep_cfg : option Z) (server : string * bool)
          (body : string) (clock : nat),
      Hec.always_fails net (fst server) ->
      let cfg := Hec.mkSettings true (Some 2) sleep_cfg in
      0 <= Hec.retry_sleep_of cfg ->
      exists server',
        Hec.try_server net cfg server body clock
        = Some (server', false,
                [Hec.Post (fst server) body;
                 Hec.Sleep (Hec.retry_sleep_of cfg); Hec.Post (fst server) body;
                 Hec.Sleep (Hec.retry_sleep_of cfg); Hec.Post (fst server) body]))
  /\ (forall (net : Hec.network) (sleep_cfg : option Z) (c : Hec.collector) (clock : nat),
      Hec.batchEvents c <> [] ->
      (forall s, In s (Hec.eligible (Hec.server_uri c)) -> Hec.always_fails net (fst s)) ->
      let cfg := Hec.mkSettings true (Some 2) sleep_cfg in
      let body := Hec.join_events (Hec.batchEvents c) in
      0 <= Hec.retry_sleep_of cfg ->
      exists c',
        Hec.flushBatch net cfg c clock
        = Some (c',
                flat_map (fun s =>
                            [Hec.Post (fst s) body;
                             Hec.Sleep (Hec.retry_sleep_of cfg); Hec.Post (fst s) body;
                             Hec.Sleep (Hec.retry_sleep_of cfg); Hec.Post (fst s) body])
                         (Hec.eligible (Hec.server_uri c))))
  /\ (forall (net : Hec.network) (max_cfg sleep_cfg : option Z) (c : Hec.collector)
             (clock : nat),
      let cfg := Hec.mkSettings false max_cfg sleep_cfg in
      Hec.max_retries_of cfg = 0
      /\ exists c' k,
          Hec.flushBatch net cfg c clock
          = Some (c',
                  map (fun s => Hec.Post (fst s) (Hec.join_events (Hec.batchEvents c)))
                      (firstn k (Hec.eligible (Hec.server_uri c))))).
Proof.
  split; [| split].
  - intros net sleep_cfg server body clock Hfail cfg Hsleep.
    eexists. rewrite (try_server_failing net cfg server body clock Hfail Hsleep).
    reflexivity.
  - intros net sleep_cfg c clock Hne Hall cfg body Hsleep.
    destruct (flushBatch_nonempty net cfg c clock Hne Hsleep)
      as [sv [su [ac [Hfor [_ ->]]]]].
    destruct (for_servers_all_fail net cfg (Hec.eligible (Hec.server_uri c)) body clock
                Hsleep Hall)
      as [servers' [Hfor' _]].
    fold body in Hfor. rewrite Hfor' in Hfor. injection Hfor as <- <- <-.
    eexists. reflexivity.
  - intros net max_cfg sleep_cfg c clock cfg. split; [reflexivity |].
    unfold Hec.flushBatch. destruct (0 <? _)%nat.
    + destruct (for_servers_no_retry net cfg (Hec.eligible (Hec.server_uri c)) eq_refl
                  (Hec.join_events (Hec.batchEvents c)) clock) as [sv [su [k ->]]].
      destruct (Hec.raised _); eexists; exists k; reflexivity.
    + exists c, O. reflexivity.
Qed.

Lemma retry_on_three_attempts_witness :
  exists c',
    Hec.flushBatch (Hec.net_refusing Hec.TimedOut) (Hec.mkSettings true (Some 2) (Some 7))
                   (Hec.two_servers ["{}"] 2) 0
    = Some (c',
            [Hec.Post Hec.url_a "{}"; Hec.Sleep 7; Hec.Post Hec.url_a "{}";
             Hec.Sleep 7; Hec.Post Hec.url_a "{}";
             Hec.Post Hec.url_b "{}"; Hec.Sleep 7; Hec.Post Hec.url_b "{}";
             Hec.Sleep 7; Hec.Post Hec.url_b "{}"]).
Proof.
  apply (proj1 (proj2 retry_on_three_attempts_retry_off_one)
               (Hec.net_refusing Hec.TimedOut) (Some 7) (Hec.two_servers ["{}"] 2) 0%nat).
  - discriminate.
  - intros s _ n body. discriminate.
  - apply Z.leb_le. reflexivity.
Defined.

(** C6, as stated, fails when retries are on.  The first POST to [url_a]
    raises a generic request exception, which marks the endpoint unhealthy
    (with one attempt only, the entry is left flagged [False]; with retries
    the loop goes on with the entry flagged [False]); the retry is accepted,
    which flags it healthy again, and the second [flushBatch] of the session
    POSTs to [url_a]. *)
Lemma flag_reset_by_successful_retry :
  Hec.try_server Hec.net_first_request_fails (Hec.mkSettings false None None)
                 (Hec.url_a, true) "{}" 0
  = Some ((Hec.url_a, false), false, [Hec.Post Hec.url_a "{}"])
  /\ Hec.retry_loop Hec.net_first_request_fails 4 (-1) 2 15 (Hec.url_a, true) "{}" 0
     = match Hec.retry_loop Hec.net_first_request_fails 3 0 2 15
                            (Hec.url_a, false) "{}" 1 with
       | Some (server', success, acts) =>
           Some (server', success, [Hec.Post Hec.url_a "{}"] ++ acts)
       | None => None
       end
  /\ exists c' first second,
      Hec.run Hec.net_first_request_fails (Hec.mkSettings true (Some 2) (Some 15))
              Hec.dumps_plain
              [Hec.BatchNova [] "7" ""; Hec.Flush; Hec.BatchNova [] "8" ""; Hec.Flush]
              (Hec.two_servers [] 0) 0
      = Some (c', [Hec.Post Hec.url_a first; Hec.Sleep 15; Hec.Post Hec.url_a first;
                   Hec.Post Hec.url_a second])
      /\ first <> second
      /\ Hec.server_uri c' = [(Hec.url_a, true); (Hec.url_b, true)].
Proof.
  split; [reflexivity |]. split; [reflexivity |].
  eexists. eexists. eexists. split; [reflexivity |].
  split; [vm_compute; discriminate | reflexivity].
Qed.

(** C6 (amended): an endpoint whose entries are all flagged [False]
    between two calls is never POSTed to by any later call of the session
    ([batchEvent] or [flushBatch]), and stays flagged or is dropped from
    [server_uri]; a flag set to [False] during a call is set back to [True]
    when a later retry of that call is accepted; and in any one [flushBatch]
    an accepted POST is the last action of the call. *)
Theorem unhealthy_excluded_first_accept_wins :
  (forall (net : Hec.network) (cfg : Hec.settings) (dumps : Py.value -> string)
          (ops : list Hec.op) (c : Hec.collector) (clock : nat) (url : string),
      Hec.unhealthy c url ->
      exists c' acts,
        Hec.run net cfg dumps ops c clock = Some (c', acts)
        /\ Hec.unhealthy c' url
        /\ forall body, ~ In (Hec.Post url body) acts)
  /\ (forall (net : Hec.network) (cfg : Hec.settings) (c : Hec.collector) (clock : nat),
      exists c' acts,
        Hec.flushBatch net cfg c clock = Some (c', acts)
        /\ forall pre url body post,
            acts = pre ++ Hec.Post url body :: post ->
            net (clock + Hec.count_posts pre)%nat url body = Hec.Accepted ->
            post = [])
  /\ (forall (net : Hec.network) (cfg : Hec.settings) (server server' : string * bool)
             (body : string) (clock : nat) (acts : list Hec.action),
      Hec.try_server net cfg server body clock = Some (server', true, acts) ->
      snd server' = true).
Proof.
  split; [| split];
    [| | intros net cfg server server' body clock acts Hrun;
         exact (retry_loop_success_healthy net _ _ _ _ _ _ _ _ _ Hrun)].
  - intros net cfg dumps ops c clock url Hun.
    destruct (run_total net cfg dumps ops c clock) as [[c' acts] Hrun].
    exists c', acts. split; [exact Hrun |].
    exact (run_unhealthy net cfg dumps ops c clock c' acts url Hun Hrun).
  - intros net cfg c clock.
    destruct (flushBatch_total net cfg c clock) as [[c' acts] Hrun].
    exists c', acts. split; [exact Hrun |].
    destruct (flushBatch_well_ended net cfg c clock c' acts Hrun) as [su Hend].
    intros pre url body post. apply (accepted_is_last net clock su acts). exact Hend.
Qed.

Lemma unhealthy_excluded_witness :
  exists c' acts,
    Hec.run (Hec.net_refusing Hec.Accepted) (Hec.mkSettings false None None) Hec.dumps_plain
            [Hec.BatchPulsar (Hec.fim_event "/etc/passwd") "" (Py.VNum 1500000000);
             Hec.Flush;
             Hec.BatchNova (Hec.fim_event "/etc/shadow") "" "1500000001";
             Hec.Flush]
            {| Hec.host := "minion-1"; Hec.batchEvents := []; Hec.maxByteLength := 100;
               Hec.currentByteLength := 0;
               Hec.server_uri := [(Hec.url_a, false); (Hec.url_b, true)] |} 0
    = Some (c', acts)
    /\ Hec.unhealthy c' Hec.url_a
    /\ forall body, ~ In (Hec.Post Hec.url_a body) acts.
Proof.
  apply (proj1 unhealthy_excluded_first_accept_wins).
  intros s [<- | [<- | []]] Hurl; [reflexivity | discriminate Hurl].
Defined.

(** Failover as the specification's example has it: [url_a] raises a generic
    request exception, [url_b] accepts; the second flush of the session goes
    to [url_b] alone. *)
Example failover_session :
  exists c',
    Hec.run (Hec.net_a_down Hec.RequestFailed) (Hec.mkSettings false None None)
            Hec.dumps_plain
            [Hec.BatchNova [] "7" ""; Hec.Flush; Hec.BatchNova [] "8" ""; Hec.Flush]
            (Hec.two_servers [] 0) 0
    = Some (c',
            [Hec.Post Hec.url_a (Hec.nova_entry Hec.dumps_plain (Hec.two_servers [] 0) [] "7" "");
             Hec.Post Hec.url_b (Hec.nova_entry Hec.dumps_plain (Hec.two_servers [] 0) [] "7" "");
             Hec.Post Hec.url_b (Hec.nova_entry Hec.dumps_plain (Hec.two_servers [] 0) [] "8" "")])
    /\ Hec.server_uri c' = [(Hec.url_b, true)].
Proof. eexists. split; reflexivity. Qed.

(** ** Delivery: how a failed attempt is handled *)

Section FailureHandling.
Import Hec.
Variable net : network.

Lemma is_request_failed_spec (o : outcome) : is_request_failed o = true <-> o = RequestFailed.
Proof. destruct o; simpl; split; congruence. Qed.

Lemma some_request_failed_spec clock k url body :
  some_request_failed net clock k url body = true
  <-> exists i, (i < k)%nat /\ net (clock + i)%nat url body = RequestFailed.
Proof.
  unfold some_request_failed. rewrite existsb_exists. split.
  - intros [i [Hin Hi]]. apply in_seq in Hin. apply is_request_failed_spec in Hi.
    exists i. split; [lia | exact Hi].
  - intros [i [Hlt Hi]]. exists i. split; [apply in_seq; lia |].
    now apply is_request_failed_spec.
Qed.

Lemma try_server_first_post (cfg : settings) server body clock :
  0 <= max_retries_of cfg ->
  exists server' success more,
    try_server net cfg server body clock
    = Some (server', success, Post (fst server) body :: more).
Proof.
  intro Hmax. unfold try_server.
  assert (Hlt : (-1 <? max_retries_of cfg) = true) by (apply Z.ltb_lt; lia).
  cbn [retry_loop]. rewrite Hlt. cbn [Z.add Z.eqb negb andb app Z.opp Z.pos_sub].
  assert (Hrec : forall sv, exists res,
             retry_loop net (Z.to_nat (max_retries_of cfg + 1)) (-1 + 1) (max_retries_of cfg)
                        (retry_sleep_of cfg) sv body (S clock) = Some res)
    by (intro sv; apply retry_loop_total; lia).
  destruct (net clock (fst server) body); eauto;
    match goal with
    | |- context [retry_loop net _ _ _ _ ?sv _ _] =>
        destruct (Hrec sv) as [[[sv' su] ac] Heq]
    end; simpl in Heq |- *; rewrite Heq; eauto.
Qed.
End FailureHandling.

(** C1, as stated, fails.  With retries on ([returner_retry_max = 2]) and
    an endpoint answering every POST with a connection error, the loop makes
    all three attempts and leaves the endpoint flagged healthy; it does not
    stop after one attempt with the endpoint flagged unhealthy.  A generic
    request exception does flag the endpoint, and still all three attempts
    are made. *)
Lemma connection_error_neither_marks_nor_skips :
  Hec.try_server (Hec.net_refusing Hec.ConnectionFailed)
                 (Hec.mkSettings true (Some 2) (Some 15)) (Hec.url_a, true) "{}" 0
  = Some ((Hec.url_a, true), false,
          [Hec.Post Hec.url_a "{}"; Hec.Sleep 15; Hec.Post Hec.url_a "{}";
           Hec.Sleep 15; Hec.Post Hec.url_a "{}"])
  /\ ~ (exists acts,
          Hec.try_server (Hec.net_refusing Hec.ConnectionFailed)
                         (Hec.mkSettings true (Some 2) (Some 15)) (Hec.url_a, true) "{}" 0
          = Some ((Hec.url_a, false), false, acts)
          /\ Hec.count_posts acts = 1%nat)
  /\ Hec.try_server (Hec.net_refusing Hec.RequestFailed)
                    (Hec.mkSettings true (Some 2) (Some 15)) (Hec.url_a, true) "{}" 0
     = Some ((Hec.url_a, false), false,
             [Hec.Post Hec.url_a "{}"; Hec.Sleep 15; Hec.Post Hec.url_a "{}";
              Hec.Sleep 15; Hec.Post Hec.url_a "{}"]).
Proof.
  split; [reflexivity |]. split; [| reflexivity].
  intros [acts [Hrun _]]. vm_compute in Hrun. discriminate Hrun.
Qed.

(** C1 (amended): in [flushBatch] no failure short-circuits.  With a
    retry sleep that is not negative, an endpoint that keeps failing, for
    whatever cause (timeout, connection error, HTTP error, generic request
    exception, other exception), is attempted [max_retries + 1] times, and
    only then does delivery go on to the next endpoint in order.  The endpoint
    is flagged unhealthy exactly when one of those attempts raised a generic
    request exception; connection errors, like HTTP errors and timeouts, leave
    its flag as it was. *)
Theorem failed_attempts_exhaust_retry_budget :
  forall (net : Hec.network) (cfg : Hec.settings) (server : string * bool)
         (body : string) (clock : nat),
    Hec.always_fails net (fst server) ->
    0 <= Hec.retry_sleep_of cfg ->
    exists flag,
      Hec.try_server net cfg server body clock
      = Some ((fst server, flag), false,
              Hec.failed_attempts (Z.to_nat (Hec.max_retries_of cfg + 1)) (-1)
                                  (Hec.retry_sleep_of cfg) (fst server) body)
      /\ Hec.count_posts
           (Hec.failed_attempts (Z.to_nat (Hec.max_retries_of cfg + 1)) (-1)
                                (Hec.retry_sleep_of cfg) (fst server) body)
         = Z.to_nat (Hec.max_retries_of cfg + 1)
      /\ ((exists i, (i < Z.to_nat (Hec.max_retries_of cfg + 1))%nat
                     /\ net (clock + i)%nat (fst server) body = Hec.RequestFailed)
          -> flag = false)
      /\ ((forall i, (i < Z.to_nat (Hec.max_retries_of cfg + 1))%nat
                     -> net (clock + i)%nat (fst server) body <> Hec.RequestFailed)
          -> flag = snd server)
      /\ forall rest,
          Hec.for_servers net cfg (server :: rest) body clock
          = match Hec.for_servers net cfg rest body
                    (clock + Z.to_nat (Hec.max_retries_of cfg + 1)) with
            | Some (rest', success, acts) =>
                Some ((fst server, flag) :: rest', success,
                      Hec.failed_attempts (Z.to_nat (Hec.max_retries_of cfg + 1)) (-1)
                                          (Hec.retry_sleep_of cfg) (fst server) body
                        ++ acts)
            | None => None
            end.
Proof.
  intros net cfg server body clock Hfail Hsleep.
  pose proof (try_server_failing net cfg server body clock Hfail Hsleep) as Htry.
  eexists. split; [exact Htry |].
  split; [apply count_posts_failed_attempts |].
  split; [| split].
  - intro Hex. apply some_request_failed_spec in Hex. now rewrite Hex.
  - intro Hnone.
    destruct (Hec.some_request_failed net clock _ (fst server) body) eqn:Hsome;
      [| reflexivity].
    apply some_request_failed_spec in Hsome. destruct Hsome as [i [Hlt Hi]].
    exfalso. exact (Hnone i Hlt Hi).
  - intro rest. cbn [Hec.for_servers]. rewrite Htry.
    rewrite (raised_failed_attempts _ _ _ _ _ Hsleep).
    now rewrite count_posts_failed_attempts.
Qed.

Lemma failed_attempts_exhaust_retry_budget_witness :
  exists flag,
    Hec.try_server (Hec.net_refusing Hec.ConnectionFailed)
                   (Hec.mkSettings true None None) (Hec.url_a, true) "{}" 0
    = Some ((Hec.url_a, flag), false,
            [Hec.Post Hec.url_a "{}"; Hec.Sleep 15; Hec.Post Hec.url_a "{}";
             Hec.Sleep 15; Hec.Post Hec.url_a "{}"; Hec.Sleep 15; Hec.Post Hec.url_a "{}"])
    /\ flag = true.
Proof.
  destruct (failed_attempts_exhaust_retry_budget
              (Hec.net_refusing Hec.ConnectionFailed) (Hec.mkSettings true None None)
              (Hec.url_a, true) "{}" 0%nat)
    as [flag [Htry [_ [_ [Hkeep _]]]]].
  - intros n body. discriminate.
  - apply Z.leb_le. reflexivity.
  - exists flag. split; [exact Htry |]. apply Hkeep. intros i _. discriminate.
Defined.

(** ** Batching *)

Section Batching.
Import Py Hec.
Variable net : network.
Variable cfg : settings.

Lemma flushBatch_first_post c clock s rest :
  batchEvents c <> [] ->
  eligible (server_uri c) = s :: rest ->
  0 <= max_retries_of cfg ->
  exists c' more,
    flushBatch net cfg c clock
    = Some (c', Post (fst s) (join_events (batchEvents c)) :: more).
Proof.
  intros Hne Hel Hmax. unfold flushBatch.
  destruct (batchEvents c) as [| e es] eqn:He; [contradiction |].
  cbn [List.length Nat.ltb Nat.leb].
  rewrite Hel. cbn [for_servers].
  destruct (try_server_first_post net cfg s (join_events (e :: es)) clock Hmax)
    as [sv [su [more ->]]].
  destruct su.
  - cbv beta iota. destruct (raised _); eexists; eexists; reflexivity.
  - destruct (raised (Post (fst s) (join_events (e :: es)) :: more)) eqn:Hraised.
    + cbv beta iota. rewrite Hraised. eexists; eexists; reflexivity.
    + match goal with
      | |- context [for_servers net cfg rest ?b ?k] =>
          destruct (for_servers_total net cfg rest b k) as [[[rest' su'] ac'] ->]
      end.
      cbv beta iota. rewrite <- app_comm_cons.
      match goal with
      | |- context [raised ?a] => destruct (raised a)
      end; eexists; eexists; reflexivity.
Qed.

(** The overflow branch of [batchEvent]: the pending events are flushed and
    [entry] alone is pending afterwards; the counter is whatever the flush
    left, the length of [entry] is not added to it. *)
Lemma account_and_append_overflow c n entry clock :
  currentByteLength c + n > maxByteLength c ->
  0 <= retry_sleep_of cfg ->
  exists c1 acts,
    flushBatch net cfg c clock = Some (c1, acts)
    /\ raised acts = false
    /\ account_and_append net cfg c n entry clock
       = Some (with_batch c1 [entry] (currentByteLength c1), acts)
    /\ currentByteLength c1 = match batchEvents c with
                              | [] => currentByteLength c
                              | _ :: _ => 0
                              end.
Proof.
  intros Hover Hsleep. unfold account_and_append.
  assert (Hgt : (currentByteLength c + n >? maxByteLength c) = true)
    by (apply Z.gtb_lt; lia).
  rewrite Hgt.
  destruct (batchEvents c) as [| e es] eqn:He.
  - rewrite (flushBatch_empty net cfg c clock He).
    exists c, []. rewrite He. repeat split.
  - assert (Hne : batchEvents c <> []) by (rewrite He; discriminate).
    destruct (flushBatch_nonempty net cfg c clock Hne Hsleep)
      as [sv [su [ac [_ [Hret Hflush]]]]].
    rewrite Hflush, Hret. eexists. eexists. repeat split. exact Hret.
Qed.

(** The other branch: nothing is sent, the entry joins the pending list and
    its length the counter. *)
Lemma account_and_append_fits c n entry clock :
  currentByteLength c + n <= maxByteLength c ->
  account_and_append net cfg c n entry clock
  = Some (with_batch c (batchEvents c ++ [entry]) (currentByteLength c + n), []).
Proof.
  intro Hfit. unfold account_and_append.
  assert (Hgt : (currentByteLength c + n >? maxByteLength c) = false)
    by (rewrite Z.gtb_ltb; apply Z.ltb_ge; lia).
  now rewrite Hgt.
Qed.

Lemma oversized_entry_kept_and_sent c n entry clock :
  currentByteLength c + n > maxByteLength c ->
  0 <= retry_sleep_of cfg ->
  kept_and_sent net cfg c clock (account_and_append net cfg c n entry clock) entry.
Proof.
  intros Hover Hsleep.
  destruct (account_and_append_overflow c n entry clock Hover Hsleep)
    as [c1 [acts [Hflush [Hret [Happ _]]]]].
  exists (with_batch c1 [entry] (currentByteLength c1)), acts.
  split; [exact Happ |]. split; [exact Hret |]. split; [reflexivity |].
  split; [exists c1; exact Hflush |]. split; [| split].
  - intros url b Hin. now apply (flushBatch_posts net cfg c clock c1 acts Hflush url b).
  - intros s rest Hne Hel Hmax.
    destruct (flushBatch_first_post c clock s rest Hne Hel Hmax) as [c2 [more Heq]].
    rewrite Heq in Hflush. injection Hflush as _ <-. exists more. reflexivity.
  - intro clock'.
    set (c' := with_batch c1 [entry] (currentByteLength c1)).
    assert (Hne : batchEvents c' <> []) by discriminate.
    destruct (flushBatch_nonempty net cfg c' clock' Hne Hsleep)
      as [sv [su [ac [_ [Hret' Hflush']]]]].
    eexists. exists ac. split; [exact Hflush' |]. split; [exact Hret' |].
    split; [reflexivity |]. split.
    + intros url b Hin.
      apply (flushBatch_posts net cfg c' clock' _ ac Hflush' url b) in Hin.
      destruct Hin as [_ ->]. simpl. reflexivity.
    + intros s rest Hel Hmax.
      destruct (flushBatch_first_post c' clock' s rest Hne Hel Hmax) as [c2 [more Heq]].
      rewrite Heq in Hflush'. injection Hflush' as _ <-.
      exists more. simpl. reflexivity.
Qed.

(** The counter between calls *)
Lemma init_consistent host_ hostname servers port ssl max_bytes :
  consistent (init host_ hostname servers port ssl max_bytes).
Proof. split; [simpl; lia | reflexivity]. Qed.

Lemma flushBatch_consistent c clock c' acts :
  consistent c -> flushBatch net cfg c clock = Some (c', acts) -> consistent c'.
Proof.
  intros Hc. unfold flushBatch. destruct (0 <? _)%nat.
  - destruct (for_servers net cfg _ _ _) as [[[sv su] ac] |]; [| discriminate].
    destruct (raised ac); intro H; injection H as <- <-.
    + exact Hc.
    + split; [simpl; lia | reflexivity].
  - intro H. injection H as <- <-. exact Hc.
Qed.

Lemma account_and_append_consistent c n entry clock c' acts :
  0 <= n ->
  consistent c -> account_and_append net cfg c n entry clock = Some (c', acts) ->
  consistent c'.
Proof.
  intros Hn Hc. unfold account_and_append. destruct (_ >? _).
  - destruct (flushBatch net cfg c clock) as [[c1 ac] |] eqn:Hflush; [| discriminate].
    pose proof (flushBatch_consistent c clock c1 ac Hc Hflush) as Hc1.
    destruct (raised ac); intro H; injection H as <- <-; [exact Hc1 |].
    destruct Hc1 as [Hpos _].
    split; [exact Hpos |]. simpl. intro Habs. now destruct (batchEvents c1).
  - intro H. injection H as <- <-. destruct Hc as [Hpos _]. split; simpl; [lia |].
    intro Habs. now destruct (batchEvents c).
Qed.

Lemma len_nonneg (s : string) : 0 <= len s.
Proof. unfold len. lia. Qed.

Lemma run_consistent dumps ops :
  forall c clock c' acts,
    consistent c -> run net cfg dumps ops c clock = Some (c', acts) -> consistent c'.
Proof.
  induction ops as [| o rest IH]; intros c clock c' acts Hc Hrun; simpl in Hrun.
  - now injection Hrun as <- <-.
  - destruct (step net cfg dumps o c clock) as [[c1 ac] |] eqn:Hstep; [| discriminate].
    assert (Hc1 : consistent c1).
    { destruct o; simpl in Hstep.
      + eapply account_and_append_consistent; [apply len_nonneg | exact Hc | exact Hstep].
      + eapply account_and_append_consistent; [apply len_nonneg | exact Hc | exact Hstep].
      + eapply flushBatch_consistent; eassumption. }
    destruct (raised ac); [now injection Hrun as <- <- |].
    destruct (run net cfg dumps rest c1 _) as [[c2 ac'] |] eqn:Hrest; [| discriminate].
    injection Hrun as <- <-. eapply IH; [exact Hc1 | exact Hrest].
Qed.

End Batching.

(** C10: an event whose serialized length alone exceeds [maxByteLength] is
    still appended by [batchEvent], in both returners, given a retry sleep
    that is not negative: the call returns; what was pending before is
    flushed, that is, the actions of the call are those of [flushBatch] on the
    collector as it was, and pending events are POSTed to the first eligible
    server when there is one and the retry maximum is not negative; the event
    is the one pending entry afterwards; and the next [flushBatch] carries
    exactly that entry, POSTing it to the first eligible server under the same
    conditions. *)
Theorem oversized_event_kept_and_sent :
  forall (net : Hec.network) (cfg : Hec.settings) (dumps : Py.value -> string)
         (c : Hec.collector) (payload : Py.dict) (eventtime : string) (clock : nat),
    0 <= Hec.currentByteLength c ->
    0 <= Hec.retry_sleep_of cfg ->
    (forall now,
        Hec.len (Hec.pulsar_entry dumps c payload eventtime now) > Hec.maxByteLength c ->
        Hec.kept_and_sent net cfg c clock
          (Hec.batchEvent_pulsar net cfg dumps c payload eventtime now clock)
          (Hec.pulsar_entry dumps c payload eventtime now))
    /\ (forall now_str,
        Hec.nova_measured dumps c payload > Hec.maxByteLength c ->
        Hec.kept_and_sent net cfg c clock
          (Hec.batchEvent_nova net cfg dumps c payload eventtime now_str clock)
          (Hec.nova_entry dumps c payload eventtime now_str)).
Proof.
  intros net cfg dumps c payload eventtime clock Hpos Hsleep. split.
  - intros now Hbig.
    apply (oversized_entry_kept_and_sent net cfg c
             (Hec.len (Hec.pulsar_entry dumps c payload eventtime now))
             (Hec.pulsar_entry dumps c payload eventtime now) clock);
      [lia | exact Hsleep].
  - intros now_str Hbig.
    apply (oversized_entry_kept_and_sent net cfg c
             (Hec.nova_measured dumps c payload)
             (Hec.nova_entry dumps c payload eventtime now_str) clock);
      [lia | exact Hsleep].
Qed.

Lemma oversized_event_kept_and_sent_witness :
  Hec.kept_and_sent (Hec.net_refusing Hec.Accepted) (Hec.mkSettings true None (Some 5))
    (Hec.with_batch Hec.small_collector ["{}"] 2) 0
    (Hec.batchEvent_pulsar (Hec.net_refusing Hec.Accepted)
       (Hec.mkSettings true None (Some 5))
       Hec.dumps_plain (Hec.with_batch Hec.small_collector ["{}"] 2)
       (Hec.fim_event "/var/log/a-path-that-is-long-enough-to-pass-the-limit-of-one-hundred-bytes")
       "" (Py.VNum 1500000000) 0)
    (Hec.pulsar_entry Hec.dumps_plain (Hec.with_batch Hec.small_collector ["{}"] 2)
       (Hec.fim_event "/var/log/a-path-that-is-long-enough-to-pass-the-limit-of-one-hundred-bytes")
       "" (Py.VNum 1500000000)).
Proof.
  apply (proj1 (oversized_event_kept_and_sent
                  (Hec.net_refusing Hec.Accepted) (Hec.mkSettings true None (Some 5))
                  Hec.dumps_plain (Hec.with_batch Hec.small_collector ["{}"] 2)
                  (Hec.fim_event
                     "/var/log/a-path-that-is-long-enough-to-pass-the-limit-of-one-hundred-bytes")
                  "" 0%nat ltac:(vm_compute; discriminate)
                  ltac:(vm_compute; discriminate))).
  vm_compute. reflexivity.
Defined.

(** C3 at a concrete input (limit 100, three events of 74, 74 and 73
    bytes): the second event overflows, the first is flushed, and the second
    is pending with the byte counter at 0, not at 74.  The third event is
    therefore taken into the same batch, and the final flush POSTs 148 bytes
    under a limit of 100. *)
Theorem overflow_event_length_not_counted :
  (exists c',
      Hec.run (Hec.net_refusing Hec.Accepted) (Hec.mkSettings false None None)
              Hec.dumps_plain
              [Hec.BatchPulsar (Hec.fim_event "/etc/passwd") "" (Py.VNum 1500000000);
               Hec.BatchPulsar (Hec.fim_event "/etc/shadow") "" (Py.VNum 1500000001)]
              Hec.small_collector 0
      = Some (c', [Hec.Post Hec.url_a
                     (Hec.pulsar_entry Hec.dumps_plain Hec.small_collector
                        (Hec.fim_event "/etc/passwd") "" (Py.VNum 1500000000))])
      /\ Hec.batchEvents c'
         = [Hec.pulsar_entry Hec.dumps_plain Hec.small_collector
              (Hec.fim_event "/etc/shadow") "" (Py.VNum 1500000001)]
      /\ Hec.len (Hec.pulsar_entry Hec.dumps_plain Hec.small_collector
                    (Hec.fim_event "/etc/shadow") "" (Py.VNum 1500000001)) = 74
      /\ Hec.currentByteLength c' = 0)
  /\ (exists c' first second,
      Hec.run (Hec.net_refusing Hec.Accepted) (Hec.mkSettings false None None)
              Hec.dumps_plain
              [Hec.BatchPulsar (Hec.fim_event "/etc/passwd") "" (Py.VNum 1500000000);
               Hec.BatchPulsar (Hec.fim_event "/etc/shadow") "" (Py.VNum 1500000001);
               Hec.BatchPulsar (Hec.fim_event "/etc/group") "" (Py.VNum 1500000002);
               Hec.Flush]
              Hec.small_collector 0
      = Some (c', [Hec.Post Hec.url_a first; Hec.Post Hec.url_a second])
      /\ Hec.len second = 148
      /\ Hec.maxByteLength c' = 100).
Proof.
  split.
  - eexists. repeat split.
  - eexists. eexists. eexists. repeat split.
Qed.

(** ** The nova returner: empty fields *)

Section NovaFacts.
Import Py Nova.

Lemma in_fold_dict_del (keys : list string) :
  forall (d : dict) (kv : string * value),
    In kv (fold_left dict_del keys d) <-> In kv d /\ ~ In (fst kv) keys.
Proof.
  induction keys as [| k keys IH]; intros d kv; simpl; [tauto |].
  rewrite IH. unfold dict_del at 1. rewrite filter_In.
  destruct (String.eqb_spec k (fst kv)) as [-> | Hne]; simpl; intuition congruence.
Qed.

Lemma dict_get_In (d : dict) (k : string) (v : value) :
  dict_get d k = Some v -> In (k, v) d.
Proof.
  induction d as [| [k' v'] d IH]; simpl; [discriminate |].
  destruct (String.eqb_spec k k') as [-> | Hne].
  - intro H. injection H as ->. now left.
  - intro H. right. now apply IH.
Qed.

(** After [remove_empty_fields] no key holds the empty string. *)
Lemma remove_empty_fields_clean (event : dict) :
  ~ has_empty_field (remove_empty_fields event).
Proof.
  intros [k Hk]. apply dict_get_In in Hk. unfold remove_empty_fields in Hk.
  apply in_fold_dict_del in Hk. destruct Hk as [Hin Hnot]. apply Hnot.
  simpl. change k with (fst (k, VStr "")). apply in_map.
  apply filter_In. split; [exact Hin | reflexivity].
Qed.

Lemma dict_get_set_same (d : dict) (k : string) (v : value) :
  dict_get (dict_set d k v) k = Some v.
Proof.
  induction d as [| [k' v'] d IH]; simpl.
  - now rewrite String.eqb_refl.
  - destruct (String.eqb_spec k k') as [-> | Hne]; simpl.
    + now rewrite String.eqb_refl.
    + destruct (String.eqb_spec k k'); [contradiction | exact IH].
Qed.

Lemma dict_get_set_other (d : dict) (k k' : string) (v : value) :
  k' <> k -> dict_get (dict_set d k v) k' = dict_get d k'.
Proof.
  intro Hne. induction d as [| [k0 v0] d IH]; simpl.
  - destruct (String.eqb_spec k' k); [contradiction | reflexivity].
  - destruct (String.eqb_spec k k0) as [-> | Hne0]; simpl.
    + destruct (String.eqb_spec k' k0); [contradiction | reflexivity].
    + destruct (String.eqb_spec k' k0); [reflexivity | exact IH].
Qed.

(** The event of a payload is what was stored under ['event'], whatever
    [add_fields] appended. *)
Lemma event_of_add_fields (ctx : context) (payload event event' : dict) :
  dict_get payload "event" = Some (VDict event') ->
  event_of (add_fields ctx payload event) = event'.
Proof.
  intro Hget. unfold add_fields, event_of.
  match goal with
  | |- context [match ?fields with [] => payload | _ :: _ => _ end] =>
      destruct fields as [| f fs]
  end.
  - now rewrite Hget.
  - unfold dict_update. simpl fold_left.
    rewrite dict_get_set_other by discriminate. now rewrite Hget.
Qed.

(** The Success path hands over events without empty fields. *)
Lemma success_payload_clean (ctx : context) (suc payload : dict) :
  success_payload ctx suc = inr payload -> ~ has_empty_field (event_of payload).
Proof.
  unfold success_payload.
  destruct (check_head ctx "Success" suc) as [e | event]; [discriminate |].
  destruct (add_custom_fields ctx (add_identity ctx event)) as [e | event'];
    [discriminate |].
  intro H. injection H as <-.
  rewrite (event_of_add_fields ctx _ _ (remove_empty_fields event')).
  - apply remove_empty_fields_clean.
  - reflexivity.
Qed.
End NovaFacts.

(** C9 at a concrete input (one check, one custom field that is not
    configured, so [config.get] answers the empty string): the Failure and
    the Compliance path hand an event with [custom_site] holding the empty
    string to batching; the Success path, on the same check, removes the key.
    In general the Success path never leaves an empty field. *)
Theorem failure_and_compliance_keep_empty_fields :
  (exists payload,
      Nova.failure_payload Nova.sample_context Nova.sample_check = inr payload
      /\ Py.dict_get (Nova.event_of payload) "custom_site" = Some (Py.VStr ""))
  /\ (exists payload,
      Nova.compliance_payload Nova.sample_context (Py.VStr "87%") = inr payload
      /\ Py.dict_get (Nova.event_of payload) "custom_site" = Some (Py.VStr ""))
  /\ (exists payload,
      Nova.success_payload Nova.sample_context Nova.sample_check = inr payload
      /\ Py.dict_get (Nova.event_of payload) "custom_site" = None)
  /\ (exists failure compliance,
      Nova.batched_payloads Nova.sample_context
        [("Failure", Py.VList [Py.VDict Nova.sample_check]);
         ("Compliance", Py.VStr "87%")]
      = ([failure; compliance], None)
      /\ Nova.has_empty_field (Nova.event_of failure)
      /\ Nova.has_empty_field (Nova.event_of compliance))
  /\ (forall ctx suc payload,
      Nova.success_payload ctx suc = inr payload ->
      ~ Nova.has_empty_field (Nova.event_of payload)).
Proof.
  split; [eexists; split; reflexivity |].
  split; [eexists; split; reflexivity |].
  split; [eexists; split; reflexivity |].
  split.
  - eexists. eexists. split; [reflexivity |].
    split; exists "custom_site"; reflexivity.
  - exact success_payload_clean.
Qed.

(** ** Password masking *)

Section MaskFacts.
Import Py Mask.
Variable re_sub : string -> string -> string -> option string.

Lemma mask_string_row_good rule column patterns mask_by row row' :
  py_getitem rule (VStr "blacklisted_patterns") = inr (VList patterns) ->
  masked_row re_sub column patterns mask_by row = Some row' ->
  mask_string_row re_sub rule (VStr column) mask_by row = (row', Normal).
Proof.
  intros Hrule Hrow. unfold masked_row in Hrow.
  destruct row as [| | | | | d]; try discriminate.
  destruct (dict_get d column) as [v |] eqn:Hget; [| discriminate].
  destruct v as [| | | s | |]; try discriminate.
  destruct (substitute_all re_sub patterns mask_by s) as [e | s'] eqn:Hsub;
    [discriminate |].
  injection Hrow as <-.
  unfold mask_string_row. cbn [py_contains py_getitem]. unfold dict_has.
  rewrite Hget, Hrule. cbn [py_iter]. rewrite Hsub. reflexivity.
Qed.

Lemma mask_string_row_bad rule column mask_by row :
  column_unusable column row ->
  mask_string_row re_sub rule (VStr column) mask_by row = (row, Broke).
Proof.
  intros [Habsent | [v [Hin [Hget Hstr]]]]; unfold mask_string_row.
  - now rewrite Habsent.
  - rewrite Hin, Hget. destruct v; try reflexivity. discriminate.
Qed.

(** A loop that meets [break] leaves the rows after it alone. *)
Lemma for_rows_break (body : value -> value * signal) pre pre' bad bad' post :
  Forall2 (fun r r' => body r = (r', Normal)) pre pre' ->
  body bad = (bad', Broke) ->
  for_rows body (pre ++ bad :: post) = (pre' ++ bad' :: post, None).
Proof.
  intros Hpre Hbad. induction Hpre as [| r r' pre pre' Hr Hpre IH]; simpl.
  - now rewrite Hbad.
  - now rewrite Hr, IH.
Qed.

Lemma string_rows_stop_at_bad_row rule column patterns mask_by pre pre' bad post :
  py_getitem rule (VStr "blacklisted_patterns") = inr (VList patterns) ->
  Forall2 (fun r r' => masked_row re_sub column patterns mask_by r = Some r') pre pre' ->
  column_unusable column bad ->
  for_rows (mask_string_row re_sub rule (VStr column) mask_by) (pre ++ bad :: post)
  = (pre' ++ bad :: post, None).
Proof.
  intros Hrule Hpre Hbad. apply for_rows_break.
  - eapply Forall2_impl; [| exact Hpre]. intros r r' Hr.
    eapply mask_string_row_good; eassumption.
  - now apply mask_string_row_bad.
Qed.

(** The rule applied through the whole function, to the rows of a named
    query and to all queries. *)
Lemma named_rule_on_one_query q column patterns mask_by rows rows' :
  q <> "*" ->
  for_rows (mask_string_row re_sub (string_rule q column patterns) (VStr column) mask_by)
           rows = (rows', None) ->
  mask_passwords_inplace re_sub
    (MaskLoaded (one_rule_mask mask_by (string_rule q column patterns)))
    (one_query q rows)
  = {| masked := one_query q rows'; logged := None; escaped := None |}.
Proof.
  intros Hq Hrows.
  unfold mask_passwords_inplace, mask_with, one_rule_mask, rules_of.
  cbn [dict_get String.eqb Ascii.eqb Bool.eqb py_iter apply_rules].
  unfold apply_rule at 1. unfold string_rule at 1 2.
  cbn [py_getitem dict_get String.eqb Ascii.eqb Bool.eqb py_eq].
  fold (string_rule q column patterns).
  assert (Hne : String.eqb q "*" = false) by (now apply String.eqb_neq).
  rewrite Hne. cbn [negb]. unfold one_query.
  cbn [iterate for_each in_named_query dict_get]. rewrite String.eqb_refl.
  cbn [py_getitem dict_get String.eqb Ascii.eqb Bool.eqb iterate].
  rewrite Hrows.
  cbn [store_back py_setitem dict_set String.eqb Ascii.eqb Bool.eqb].
  rewrite String.eqb_refl. reflexivity.
Qed.

Lemma star_rule_on_one_query q column patterns mask_by rows rows' :
  for_rows (mask_string_row re_sub (string_rule "*" column patterns) (VStr column) mask_by)
           rows = (rows', None) ->
  mask_passwords_inplace re_sub
    (MaskLoaded (one_rule_mask mask_by (string_rule "*" column patterns)))
    (one_query q rows)
  = {| masked := one_query q rows'; logged := None; escaped := None |}.
Proof.
  intros Hrows.
  unfold mask_passwords_inplace, mask_with, one_rule_mask, rules_of.
  cbn [dict_get String.eqb Ascii.eqb Bool.eqb py_iter apply_rules].
  unfold apply_rule at 1. unfold string_rule at 1 2.
  cbn [py_getitem dict_get String.eqb Ascii.eqb Bool.eqb py_eq negb].
  fold (string_rule "*" column patterns).
  unfold one_query.
  cbn [iterate for_each in_every_query in_items].
  cbn [py_getitem dict_get String.eqb Ascii.eqb Bool.eqb iterate].
  rewrite Hrows.
  cbn [store_back py_setitem dict_set String.eqb Ascii.eqb Bool.eqb].
  reflexivity.
Qed.

(** ** Password masking: the first exception ends the masking *)

Lemma apply_rules_raise row_body pre rule post :
  forall obj obj1 obj2 e,
    apply_rules row_body pre obj = (obj1, None) ->
    apply_rule row_body obj1 rule = (obj2, Some e) ->
    apply_rules row_body (pre ++ rule :: post) obj = (obj2, Some e).
Proof.
  induction pre as [| r pre IH]; intros obj obj1 obj2 e Hpre Hrule; simpl in *.
  - injection Hpre as <-. now rewrite Hrule.
  - destruct (apply_rule row_body obj r) as [obj' [e' |]]; [discriminate |].
    eapply IH; eassumption.
Qed.
End MaskFacts.

(** C8: a [blacklisted_strings] rule masks the rows of a row list one after
    the other and stops, with [break], at the first row in which the column is
    absent or does not hold a string: the rows before it are masked, that row
    and every row after it are left as they were.  This holds of the row loop
    itself and of [mask_passwords_inplace] run with the rule, both when the
    rule names the query and when it names ['*']. *)
Theorem string_rule_breaks_at_first_bad_row :
  forall (re_sub : string -> string -> string -> option string)
         (q column : string) (patterns : list Py.value) (mask_by : Py.value)
         (pre pre' : list Py.value) (bad : Py.value) (post : list Py.value),
    Forall2 (fun r r' => Mask.masked_row re_sub column patterns mask_by r = Some r')
            pre pre' ->
    Mask.column_unusable column bad ->
    Mask.for_rows
      (Mask.mask_string_row re_sub (Mask.string_rule q column patterns)
                            (Py.VStr column) mask_by)
      (pre ++ bad :: post)
    = (pre' ++ bad :: post, None)
    /\ (q <> "*" ->
        Mask.mask_passwords_inplace re_sub
          (Mask.MaskLoaded (Mask.one_rule_mask mask_by (Mask.string_rule q column patterns)))
          (Mask.one_query q (pre ++ bad :: post))
        = {| Mask.masked := Mask.one_query q (pre' ++ bad :: post);
             Mask.logged := None; Mask.escaped := None |})
    /\ (forall q',
        Mask.mask_passwords_inplace re_sub
          (Mask.MaskLoaded (Mask.one_rule_mask mask_by (Mask.string_rule "*" column patterns)))
          (Mask.one_query q' (pre ++ bad :: post))
        = {| Mask.masked := Mask.one_query q' (pre' ++ bad :: post);
             Mask.logged := None; Mask.escaped := None |}).
Proof.
  intros re_sub q column patterns mask_by pre pre' bad post Hpre Hbad.
  assert (Hrows : forall name,
             Mask.for_rows
               (Mask.mask_string_row re_sub (Mask.string_rule name column patterns)
                                     (Py.VStr column) mask_by)
               (pre ++ bad :: post)
             = (pre' ++ bad :: post, None)).
  { intro name. eapply string_rows_stop_at_bad_row; [reflexivity | exact Hpre | exact Hbad]. }
  split; [apply Hrows |]. split.
  - intro Hq. apply named_rule_on_one_query; [exact Hq | apply Hrows].
  - intro q'. apply star_rule_on_one_query. apply Hrows.
Qed.

Lemma string_rule_breaks_at_first_bad_row_witness :
  Mask.mask_passwords_inplace Mask.re_sub_sample
    (Mask.MaskLoaded
       (Mask.one_rule_mask (Py.VStr "******")
          (Mask.string_rule "running_procs" "cmdline" [Py.VStr "(--password=)(.*)"])))
    (Mask.one_query "running_procs" Mask.sample_rows)
  = {| Mask.masked :=
         Mask.one_query "running_procs"
           [Mask.process_row (Py.VStr "mysql --password=******");
            Mask.process_row (Py.VStr "ls -l");
            Mask.process_row (Py.VNum 7);
            Mask.process_row (Py.VStr "curl --password=letmein")];
       Mask.logged := None; Mask.escaped := None |}.
Proof.
  apply (proj1 (proj2 (string_rule_breaks_at_first_bad_row
                         Mask.re_sub_sample "running_procs" "cmdline"
                         [Py.VStr "(--password=)(.*)"] (Py.VStr "******")
                         [Mask.process_row (Py.VStr "mysql --password=hunter2");
                          Mask.process_row (Py.VStr "ls -l")]
                         [Mask.process_row (Py.VStr "mysql --password=******");
                          Mask.process_row (Py.VStr "ls -l")]
                         (Mask.process_row (Py.VNum 7))
                         [Mask.process_row (Py.VStr "curl --password=letmein")]
                         ltac:(repeat constructor)
                         ltac:(right; exists (Py.VNum 7); repeat split)))).
  discriminate.
Defined.

(** C4, as stated, fails.  With a malformed rule (no ['query_name'])
    ahead of a well-formed one, nothing is masked and a [KeyError] is logged;
    without the malformed rule the well-formed one masks the password.  So
    the error is not contained to the malformed rule. *)
Lemma malformed_rule_ends_masking :
  Mask.mask_passwords_inplace Mask.re_sub_sample
    (Mask.MaskLoaded
       [("blacklisted_strings", Py.VList [Mask.malformed_rule; Mask.password_rule "*"])])
    (Mask.sample_object Mask.sample_rows)
  = {| Mask.masked := Mask.sample_object Mask.sample_rows;
       Mask.logged := Some Py.KeyError; Mask.escaped := None |}
  /\ Mask.masked
       (Mask.mask_passwords_inplace Mask.re_sub_sample
          (Mask.MaskLoaded [("blacklisted_strings", Py.VList [Mask.password_rule "*"])])
          (Mask.sample_object Mask.sample_rows))
     = Mask.sample_object
         [Mask.process_row (Py.VStr "mysql --password=******");
          Mask.process_row (Py.VStr "ls -l");
          Mask.process_row (Py.VNum 7);
          Mask.process_row (Py.VStr "curl --password=letmein")]
  /\ Mask.masked
       (Mask.mask_passwords_inplace Mask.re_sub_sample
          (Mask.MaskLoaded
             [("blacklisted_strings", Py.VList [Mask.malformed_rule; Mask.password_rule "*"])])
          (Mask.sample_object Mask.sample_rows))
     <> Mask.masked
          (Mask.mask_passwords_inplace Mask.re_sub_sample
             (Mask.MaskLoaded [("blacklisted_strings", Py.VList [Mask.password_rule "*"])])
             (Mask.sample_object Mask.sample_rows)).
Proof.
  split; [reflexivity |]. split; [reflexivity |].
  vm_compute. discriminate.
Qed.

(** C4 (amended): [mask_passwords_inplace] never raises to its caller;
    every internal error is caught and logged.  The error is not contained to
    the rule it comes from: the first rule that raises ends the masking.  What
    was masked before stays masked, and neither the remaining
    [blacklisted_strings] rules nor, after an error among those, any
    [blacklisted_objects] rule is applied; an error while loading the mask
    leaves the object as it was. *)
Theorem masking_error_is_logged_and_ends_masking :
  forall (re_sub : string -> string -> string -> option string),
    (forall source obj,
        Mask.escaped (Mask.mask_passwords_inplace re_sub source obj) = None)
    /\ (forall mask obj pre rule post obj1 obj2 e,
        Mask.rules_of mask "blacklisted_strings" = inr (pre ++ rule :: post) ->
        Mask.apply_rules (Mask.string_body re_sub (Mask.mask_by_of mask)) pre obj
        = (obj1, None) ->
        Mask.apply_rule (Mask.string_body re_sub (Mask.mask_by_of mask)) obj1 rule
        = (obj2, Some e) ->
        Mask.mask_passwords_inplace re_sub (Mask.MaskLoaded mask) obj
        = {| Mask.masked := obj2; Mask.logged := Some e; Mask.escaped := None |})
    /\ (forall mask obj string_rules obj0 pre rule post obj1 obj2 e,
        Mask.rules_of mask "blacklisted_strings" = inr string_rules ->
        Mask.apply_rules (Mask.string_body re_sub (Mask.mask_by_of mask)) string_rules obj
        = (obj0, None) ->
        Mask.rules_of mask "blacklisted_objects" = inr (pre ++ rule :: post) ->
        Mask.apply_rules (Mask.object_body (Mask.mask_by_of mask)) pre obj0
        = (obj1, None) ->
        Mask.apply_rule (Mask.object_body (Mask.mask_by_of mask)) obj1 rule
        = (obj2, Some e) ->
        Mask.mask_passwords_inplace re_sub (Mask.MaskLoaded mask) obj
        = {| Mask.masked := obj2; Mask.logged := Some e; Mask.escaped := None |})
    /\ (forall e obj,
        Mask.mask_passwords_inplace re_sub (Mask.MaskLoadFailed e) obj
        = {| Mask.masked := obj; Mask.logged := Some e; Mask.escaped := None |}).
Proof.
  intro re_sub. split; [| split; [| split]].
  - intros source obj. unfold Mask.mask_passwords_inplace.
    destruct source as [mask | | e]; [destruct (Mask.mask_with re_sub mask obj) | |];
      reflexivity.
  - intros mask obj pre rule post obj1 obj2 e Hrules Hpre Hrule.
    unfold Mask.mask_passwords_inplace, Mask.mask_with.
    fold (Mask.mask_by_of mask). rewrite Hrules.
    change (fun rule0 column : Py.value =>
              Mask.mask_string_row re_sub rule0 column (Mask.mask_by_of mask))
      with (Mask.string_body re_sub (Mask.mask_by_of mask)).
    now rewrite (apply_rules_raise _ pre rule post obj obj1 obj2 e Hpre Hrule).
  - intros mask obj string_rules obj0 pre rule post obj1 obj2 e Hs Hsr Ho Hpre Hrule.
    unfold Mask.mask_passwords_inplace, Mask.mask_with.
    fold (Mask.mask_by_of mask). rewrite Hs.
    change (fun rule0 column : Py.value =>
              Mask.mask_string_row re_sub rule0 column (Mask.mask_by_of mask))
      with (Mask.string_body re_sub (Mask.mask_by_of mask)).
    rewrite Hsr, Ho.
    change (fun rule0 column : Py.value =>
              Mask.mask_object_row rule0 column (Mask.mask_by_of mask))
      with (Mask.object_body (Mask.mask_by_of mask)).
    now rewrite (apply_rules_raise _ pre rule post obj0 obj1 obj2 e Hpre Hrule).
  - intros e obj. reflexivity.
Qed.

Lemma masking_error_is_logged_and_ends_masking_witness :
  Mask.mask_passwords_inplace Mask.re_sub_sample
    (Mask.MaskLoaded
       [("blacklisted_strings",
         Py.VList [Mask.password_rule "running_procs"; Mask.malformed_rule;
                   Mask.string_rule "*" "pid" [Py.VStr "(4)(.*)"]]);
        ("blacklisted_objects", Py.VList [Mask.env_rule])])
    (Mask.sample_object Mask.sample_rows)
  = {| Mask.masked :=
         Mask.sample_object
           [Mask.process_row (Py.VStr "mysql --password=******");
            Mask.process_row (Py.VStr "ls -l");
            Mask.process_row (Py.VNum 7);
            Mask.process_row (Py.VStr "curl --password=letmein")];
       Mask.logged := Some Py.KeyError; Mask.escaped := None |}.
Proof.
  apply (proj1 (proj2 (masking_error_is_logged_and_ends_masking Mask.re_sub_sample))
               [("blacklisted_strings",
                 Py.VList [Mask.password_rule "running_procs"; Mask.malformed_rule;
                           Mask.string_rule "*" "pid" [Py.VStr "(4)(.*)"]]);
                ("blacklisted_objects", Py.VList [Mask.env_rule])]
               (Mask.sample_object Mask.sample_rows)
               [Mask.password_rule "running_procs"] Mask.malformed_rule
               [Mask.string_rule "*" "pid" [Py.VStr "(4)(.*)"]]
               (Mask.sample_object
                  [Mask.process_row (Py.VStr "mysql --password=******");
                   Mask.process_row (Py.VStr "ls -l");
                   Mask.process_row (Py.VNum 7);
                   Mask.process_row (Py.VStr "curl --password=letmein")])).
  - reflexivity.
  - reflexivity.
  - reflexivity.
Defined.

(** ** Publishing the configuration *)

Section ConfPublisherFacts.
Import Py ConfPublisher.

Lemma remove_sensitive_info_clean (patterns : list string) (obj : value) :
  mentions_sensitive patterns (remove_sensitive_info obj patterns) = false.
Proof.
  induction obj as [| b | n | s | xs IH | kv IH] using value_nested_ind;
    try reflexivity.
  - cbn [remove_sensitive_info mentions_sensitive].
    induction IH as [| x xs Hx _ IHxs]; [reflexivity |].
    cbn. rewrite Hx. exact IHxs.
  - cbn [remove_sensitive_info mentions_sensitive].
    induction IH as [| [key v] kv Hv _ IHkv]; [reflexivity |].
    cbn. destruct (sensitive patterns key) eqn:Hkey; [exact IHkv |].
    cbn. rewrite Hkey. cbn in Hv. rewrite Hv. exact IHkv.
Qed.

Lemma remove_sensitive_info_id (patterns : list string) (obj : value) :
  mentions_sensitive patterns obj = false ->
  remove_sensitive_info obj patterns = obj.
Proof.
  induction obj as [| b | n | s | xs IH | kv IH] using value_nested_ind;
    try reflexivity.
  - cbn [remove_sensitive_info mentions_sensitive]. intro Hclean. f_equal.
    induction IH as [| x xs Hx _ IHxs]; [reflexivity |].
    apply orb_false_iff in Hclean. destruct Hclean as [H1 H2].
    now rewrite (Hx H1), (IHxs H2).
  - cbn [remove_sensitive_info mentions_sensitive]. intro Hclean. f_equal.
    induction IH as [| [key v] kv Hv _ IHkv]; [reflexivity |].
    apply orb_false_iff in Hclean. destruct Hclean as [H1 H3].
    apply orb_false_iff in H1. destruct H1 as [H1 H2].
    rewrite H1. cbn in Hv. now rewrite (Hv H2), (IHkv H3).
Qed.
End ConfPublisherFacts.

(** X1: the configuration [publish] hands to the log handler, as the
    message of the record it emits, holds no dictionary key that contains
    ["password"] or ["token"], at any depth reached through dictionaries and
    lists; the same holds of [remove_sensitive_info] for any list of
    patterns.  (The keys the handler puts around the message, custom fields
    and cloud details, are not filtered.) *)
Theorem published_config_has_no_sensitive_key :
  (forall (args : list string) (opts : Py.dict),
      ConfPublisher.mentions_sensitive ConfPublisher.patterns_to_filter
        (ConfPublisher.published args opts) = false)
  /\ (forall (patterns : list string) (obj : Py.value),
      ConfPublisher.mentions_sensitive patterns
        (ConfPublisher.remove_sensitive_info obj patterns) = false).
Proof.
  split.
  - intros args opts. apply remove_sensitive_info_clean.
  - intros patterns obj. apply remove_sensitive_info_clean.
Qed.

(** X2: [remove_sensitive_info] changes nothing in an object that has no
    sensitive key, and filtering twice is the same as filtering once. *)
Theorem remove_sensitive_info_idempotent :
  forall (patterns : list string) (obj : Py.value),
    (ConfPublisher.mentions_sensitive patterns obj = false ->
     ConfPublisher.remove_sensitive_info obj patterns = obj)
    /\ ConfPublisher.remove_sensitive_info
         (ConfPublisher.remove_sensitive_info obj patterns) patterns
       = ConfPublisher.remove_sensitive_info obj patterns.
Proof.
  intros patterns obj. split.
  - apply remove_sensitive_info_id.
  - apply remove_sensitive_info_id, remove_sensitive_info_clean.
Qed.

Lemma remove_sensitive_info_idempotent_witness :
  ConfPublisher.remove_sensitive_info
    (Py.VDict [("id", Py.VStr "minion-1");
               ("returner", Py.VList [Py.VDict [("index", Py.VStr "trubble")]])])
    ConfPublisher.patterns_to_filter
  = Py.VDict [("id", Py.VStr "minion-1");
              ("returner", Py.VList [Py.VDict [("index", Py.VStr "trubble")]])].
Proof.
  apply (proj1 (remove_sensitive_info_idempotent ConfPublisher.patterns_to_filter _)).
  reflexivity.
Defined.

(** The filter in action: keys are dropped at every depth, and the match
    is case-sensitive. *)
Example filter_config_sample :
  ConfPublisher.filter_config
    (Py.VDict [("id", Py.VStr "minion-1");
               ("splunk_token", Py.VStr "XXXX");
               ("Password", Py.VStr "kept");
               ("returner",
                Py.VList [Py.VDict [("index", Py.VStr "trubble");
                                    ("token", Py.VStr "XXXX");
                                    ("proxy", Py.VDict [("proxy_password", Py.VStr "p")])]])])
  = Py.VDict [("id", Py.VStr "minion-1");
              ("Password", Py.VStr "kept");
              ("returner",
               Py.VList [Py.VDict [("index", Py.VStr "trubble");
                                   ("proxy", Py.VDict [])]])].
Proof. reflexivity. Qed.

(** ** Merging dictionaries *)

Section DictUpdateFacts.
Import Py DictUpdate.

Lemma dict_get_None_iff (d : dict) (k : string) :
  dict_get d k = None <-> ~ In k (map fst d).
Proof.
  induction d as [| [k' v] d IH]; simpl; [tauto |].
  destruct (String.eqb_spec k k') as [-> | Hne].
  - split; [discriminate | intro H; exfalso; apply H; now left].
  - rewrite IH. split.
    + intros H [Heq | Hin]; [congruence | contradiction].
    + intros H Hin. apply H. now right.
Qed.

Lemma update_mapping_unfold (merge_lists recursive_update : bool) (upd dest : dict) :
  update_mapping merge_lists recursive_update (VDict upd) dest
  = if recursive_update && shares_key dest upd
    then merge_entries (update_mapping merge_lists true) merge_lists upd dest
    else dict_update dest upd.
Proof.
  cbn [update_mapping]. destruct (recursive_update && shares_key dest upd);
    [| reflexivity].
  generalize dest. clear dest.
  induction upd as [| [key val] rest IH]; intro dest; [reflexivity |].
  cbn [merge_entries]. rewrite <- IH. reflexivity.
Qed.

Lemma merge_entries_lookup recur merge_lists (upd : dict) :
  NoDup (map fst upd) ->
  forall (dest : dict) (key : string),
    dict_get (merge_entries recur merge_lists upd dest) key
    = match dict_get upd key with
      | None => dict_get dest key
      | Some val => Some (merged_value recur merge_lists (dict_get dest key) val)
      end.
Proof.
  induction upd as [| [k val] rest IH]; intros Hnodup dest key; [reflexivity |].
  simpl in Hnodup. inversion Hnodup as [| ? ? Hfresh Hrest]; subst.
  cbn [merge_entries dict_get]. rewrite (IH Hrest).
  destruct (String.eqb_spec key k) as [-> | Hne].
  - apply dict_get_None_iff in Hfresh. rewrite Hfresh. apply dict_get_set_same.
  - rewrite (dict_get_set_other _ k key) by exact Hne. reflexivity.
Qed.

Lemma dict_update_lookup (upd : dict) :
  NoDup (map fst upd) ->
  forall (dest : dict) (key : string),
    dict_get (dict_update dest upd) key
    = match dict_get upd key with
      | None => dict_get dest key
      | Some val => Some val
      end.
Proof.
  unfold dict_update.
  induction upd as [| [k val] rest IH]; intros Hnodup dest key; [reflexivity |].
  simpl in Hnodup. inversion Hnodup as [| ? ? Hfresh Hrest]; subst.
  cbn [fold_left fst snd dict_get]. rewrite (IH Hrest).
  destruct (String.eqb_spec key k) as [-> | Hne].
  - apply dict_get_None_iff in Hfresh. rewrite Hfresh. apply dict_get_set_same.
  - rewrite (dict_get_set_other _ k key) by exact Hne. reflexivity.
Qed.

Lemma shares_key_false (dest upd : dict) (key : string) (val : value) :
  shares_key dest upd = false -> dict_get upd key = Some val -> dict_get dest key = None.
Proof.
  unfold shares_key. intros Hnone Hget. apply dict_get_In in Hget.
  destruct (dict_get dest key) as [v |] eqn:Hdest; [| reflexivity].
  assert (Hex : existsb (fun kv => dict_has dest (fst kv)) upd = true).
  { apply existsb_exists. exists (key, val). split; [exact Hget |].
    unfold dict_has. simpl. now rewrite Hdest. }
  congruence.
Qed.

Lemma update_mapping_lookup (merge_lists : bool) (dest upd : dict) (key : string) :
  NoDup (map fst upd) ->
  dict_get (update_mapping merge_lists true (VDict upd) dest) key
  = merged_lookup merge_lists dest upd key.
Proof.
  intro Hnodup. rewrite update_mapping_unfold. unfold merged_lookup. cbn [andb].
  destruct (shares_key dest upd) eqn:Hshare.
  - now apply merge_entries_lookup.
  - rewrite (dict_update_lookup upd Hnodup).
    destruct (dict_get upd key) as [val |] eqn:Hget; [| reflexivity].
    rewrite (shares_key_false dest upd key val Hshare Hget).
    now destruct val.
Qed.
End DictUpdateFacts.

(** X3: what [_dict_update] leaves under a key.  A key that [upd] does
    not have keeps the value [dest] had.  For a key of [upd], with
    [recursive_update] on: two dictionaries are merged recursively, two lists
    are concatenated ([dest] first) when [merge_lists] is on, and in every
    other case the value of [upd] replaces the one of [dest]; with
    [recursive_update] off the value of [upd] always replaces. *)
Theorem dict_update_lookup_rule :
  forall (merge_lists : bool) (dest upd : Py.dict) (key : string),
    NoDup (map fst upd) ->
    (exists merged,
        DictUpdate._dict_update (Py.VDict dest) (Py.VDict upd) true merge_lists
        = inr (Py.VDict merged)
        /\ Py.dict_get merged key = DictUpdate.merged_lookup merge_lists dest upd key)
    /\ (exists merged,
        DictUpdate._dict_update (Py.VDict dest) (Py.VDict upd) false merge_lists
        = inr (Py.VDict merged)
        /\ Py.dict_get merged key = match Py.dict_get upd key with
                                    | Some val => Some val
                                    | None => Py.dict_get dest key
                                    end).
Proof.
  intros merge_lists dest upd key Hnodup. split.
  - eexists. split; [reflexivity |]. now apply update_mapping_lookup.
  - eexists. split; [reflexivity |].
    rewrite update_mapping_unfold. cbn [andb].
    rewrite (dict_update_lookup upd Hnodup). now destruct (Py.dict_get upd key).
Qed.

Lemma dict_update_lookup_rule_witness :
  exists merged,
    DictUpdate._dict_update
      (Py.VDict [("day", Py.VDict [("q1", Py.VStr "select 1")]);
                 ("tags", Py.VList [Py.VNum 1; Py.VNum 2])])
      (Py.VDict [("tags", Py.VList [Py.VNum 3]);
                 ("day", Py.VDict [("q2", Py.VStr "select 2")]);
                 ("hour", Py.VNum 5)])
      true true
    = inr (Py.VDict merged)
    /\ Py.dict_get merged "tags" = Some (Py.VList [Py.VNum 1; Py.VNum 2; Py.VNum 3]).
Proof.
  destruct (dict_update_lookup_rule true
              [("day", Py.VDict [("q1", Py.VStr "select 1")]);
               ("tags", Py.VList [Py.VNum 1; Py.VNum 2])]
              [("tags", Py.VList [Py.VNum 3]);
               ("day", Py.VDict [("q2", Py.VStr "select 2")]);
               ("hour", Py.VNum 5)]
              "tags")
    as [[merged [Hrun Hget]] _].
  - repeat constructor; simpl; intuition discriminate.
  - exists merged. split; [exact Hrun | exact Hget].
Defined.

(** X4: [_dict_update] raises [TypeError] exactly when one of its two
    arguments is not a dictionary, and otherwise loses no key: the keys of the
    result are the keys of [dest] and the keys of [upd]. *)
Theorem dict_update_keeps_all_keys :
  forall (recursive_update merge_lists : bool) (dest upd : Py.value),
    match dest, upd with
    | Py.VDict d, Py.VDict u =>
        NoDup (map fst u) ->
        exists merged,
          DictUpdate._dict_update dest upd recursive_update merge_lists
          = inr (Py.VDict merged)
          /\ forall key, In key (map fst merged)
                         <-> In key (map fst d) \/ In key (map fst u)
    | _, _ =>
        DictUpdate._dict_update dest upd recursive_update merge_lists = inl Py.TypeError
    end.
Proof.
  intros recursive_update merge_lists dest upd.
  destruct dest as [| | | | | d]; try reflexivity;
    try (destruct upd; reflexivity).
  destruct upd as [| | | | | u]; try reflexivity.
  intro Hnodup. eexists. split; [reflexivity |]. intro key.
  assert (Hin : forall m, In key (map fst m) <-> Py.dict_get m key <> None).
  { intro m. pose proof (dict_get_None_iff m key) as H.
    destruct (Py.dict_get m key); split; intro H'; try congruence.
    - destruct (in_dec string_dec key (map fst m)) as [Hyes | Hno]; [exact Hyes |].
      apply H in Hno. discriminate.
    - exfalso. apply (proj1 H eq_refl). exact H'. }
  rewrite !Hin.
  destruct recursive_update.
  - rewrite (update_mapping_lookup merge_lists d u key Hnodup).
    unfold DictUpdate.merged_lookup.
    destruct (Py.dict_get u key); destruct (Py.dict_get d key);
      intuition congruence.
  - rewrite update_mapping_unfold. cbn [andb].
    rewrite (dict_update_lookup u Hnodup).
    destruct (Py.dict_get u key); destruct (Py.dict_get d key);
      intuition congruence.
Qed.

Lemma dict_update_keeps_all_keys_witness :
  exists merged,
    DictUpdate._dict_update (Py.VDict [("a", Py.VNum 1)])
                            (Py.VDict [("a", Py.VNum 2); ("b", Py.VNum 3)]) true false
    = inr (Py.VDict merged)
    /\ forall key, In key (map fst merged)
                   <-> In key (map fst [("a", Py.VNum 1)])
                       \/ In key (map fst [("a", Py.VNum 2); ("b", Py.VNum 3)]).
Proof.
  apply (dict_update_keeps_all_keys true false (Py.VDict [("a", Py.VNum 1)])
           (Py.VDict [("a", Py.VNum 2); ("b", Py.VNum 3)])).
  repeat constructor; simpl; intuition discriminate.
Defined.

(** The two examples of a merge: replacement of a scalar, concatenation
    of lists. *)
Example dict_update_samples :
  DictUpdate._dict_update (Py.VDict [("a", Py.VNum 1)]) (Py.VDict [("a", Py.VNum 2)])
                          true false
  = inr (Py.VDict [("a", Py.VNum 2)])
  /\ DictUpdate._dict_update (Py.VDict [("a", Py.VList [Py.VNum 1; Py.VNum 2])])
                             (Py.VDict [("a", Py.VList [Py.VNum 3])]) true true
     = inr (Py.VDict [("a", Py.VList [Py.VNum 1; Py.VNum 2; Py.VNum 3])])
  /\ DictUpdate._dict_update (Py.VList []) (Py.VDict []) true true = inl Py.TypeError.
Proof. repeat split. Qed.

(** ** Host identity *)

Section IdentityFacts.
Import Py Identity.

Lemma first_routable_found (addresses : list string) (fqdn_ip4 : string) :
  (exists ip, In ip addresses /\ ip <> "" /\ is_loopback ip = false) ->
  is_loopback (first_routable addresses fqdn_ip4) = false
  /\ In (first_routable addresses fqdn_ip4) addresses.
Proof.
  induction addresses as [| a rest IH]; intros [ip [Hin [Hne Hlo]]]; [contradiction |].
  simpl. destruct (negb (String.eqb a "") && negb (is_loopback a)) eqn:Hok.
  - apply andb_true_iff in Hok. destruct Hok as [_ Hok].
    apply negb_true_iff in Hok. split; [exact Hok | now left].
  - destruct Hin as [-> | Hin].
    + apply String.eqb_neq in Hne. rewrite Hne, Hlo in Hok. discriminate.
    + destruct IH as [H1 H2]; [exists ip; auto |]. split; [exact H1 | now right].
Qed.
End IdentityFacts.

(** X5: the destination address.  When the [ipv4] grain holds an address
    that is not empty and does not start with ["127."], the resolved address
    does not start with ["127."] either; and resolution fails only when
    [local_ip4] is unset or empty and both [fqdn_ip4] and [ipv4] are empty. *)
Theorem resolved_ip4_avoids_loopback :
  forall (g : Identity.grains),
    ((exists ip, In ip (Identity.grain_ipv4 g) /\ ip <> ""
                 /\ Identity.is_loopback ip = false) ->
     exists fqdn_ip4, Identity.resolve_ip4 g = Some fqdn_ip4
                      /\ Identity.is_loopback fqdn_ip4 = false)
    /\ (Identity.resolve_ip4 g = None
        <-> (Identity.grain_local_ip4 g = None \/ Identity.grain_local_ip4 g = Some "")
            /\ Identity.grain_fqdn_ip4 g = [] /\ Identity.grain_ipv4 g = []).
Proof.
  intro g. split.
  - intros Hex. unfold Identity.resolve_ip4.
    assert (Hscan : forall c,
               Identity.is_loopback
                 (if Identity.is_loopback c
                  then Identity.first_routable (Identity.grain_ipv4 g) c else c) = false).
    { intro c. destruct (Identity.is_loopback c) eqn:Hc; [| exact Hc].
      now apply first_routable_found. }
    destruct (Identity.grain_local_ip4 g) as [ip |].
    + destruct (String.eqb ip ""); [| eexists; split; [reflexivity | apply Hscan]].
      destruct (Identity.grain_fqdn_ip4 g); [| eexists; split; [reflexivity | apply Hscan]].
      destruct (Identity.grain_ipv4 g) as [| a rest];
        [destruct Hex as [? [[] _]] | eexists; split; [reflexivity | apply Hscan]].
    + destruct (Identity.grain_fqdn_ip4 g); [| eexists; split; [reflexivity | apply Hscan]].
      destruct (Identity.grain_ipv4 g) as [| a rest];
        [destruct Hex as [? [[] _]] | eexists; split; [reflexivity | apply Hscan]].
  - unfold Identity.resolve_ip4.
    destruct (Identity.grain_local_ip4 g) as [ip |].
    + destruct (String.eqb_spec ip "") as [-> | Hne].
      * destruct (Identity.grain_fqdn_ip4 g); destruct (Identity.grain_ipv4 g);
          intuition discriminate.
      * split; [discriminate |]. intros [[H | H] _]; [discriminate | congruence].
    + destruct (Identity.grain_fqdn_ip4 g); destruct (Identity.grain_ipv4 g);
        intuition discriminate.
Qed.

Lemma resolved_ip4_avoids_loopback_witness :
  exists fqdn_ip4,
    Identity.resolve_ip4
      {| Identity.grain_fqdn := "localhost";
         Identity.grain_local_ip4 := None;
         Identity.grain_fqdn_ip4 := ["127.0.1.1"];
         Identity.grain_ipv4 := ["127.0.0.1"; ""; "10.0.0.5"];
         Identity.gethostname := "localhost" |} = Some fqdn_ip4
    /\ Identity.is_loopback fqdn_ip4 = false.
Proof.
  apply (proj1 (resolved_ip4_avoids_loopback _)).
  exists "10.0.0.5". simpl. split; [tauto |]. split; [discriminate | reflexivity].
Defined.

(** X6: the destination host name.  Whatever the grains and the minion
    id, the resolved name is one of the placeholder names ([localhost] and
    its variants) only if the resolved address is; when the [fqdn] grain (or
    the minion id standing in for an empty one) is a placeholder, the result
    is the local host name if that has a dot and is no placeholder, and the
    address otherwise. *)
Theorem resolved_fqdn_avoids_placeholders :
  forall (g : Identity.grains) (minion_id fqdn_ip4 : string),
    (Identity.is_bad_fqdn fqdn_ip4 = false ->
     Identity.is_bad_fqdn (Identity.resolve_fqdn g minion_id fqdn_ip4) = false)
    /\ (Identity.is_bad_fqdn
          (if String.eqb (Identity.grain_fqdn g) "" then minion_id
           else Identity.grain_fqdn g) = true ->
        Identity.resolve_fqdn g minion_id fqdn_ip4
        = if Py.is_substring "." (Identity.gethostname g)
             && negb (Identity.is_bad_fqdn (Identity.gethostname g))
          then Identity.gethostname g else fqdn_ip4).
Proof.
  intros g minion_id fqdn_ip4. unfold Identity.resolve_fqdn. split.
  - intro Hip.
    destruct (Identity.is_bad_fqdn
                (if String.eqb (Identity.grain_fqdn g) "" then minion_id
                 else Identity.grain_fqdn g)) eqn:Hbad; [| exact Hbad].
    destruct (Py.is_substring "." (Identity.gethostname g)); simpl; [| exact Hip].
    destruct (Identity.is_bad_fqdn (Identity.gethostname g)) eqn:Hhost;
      [exact Hip | exact Hhost].
  - intros ->.
    destruct (Py.is_substring "." (Identity.gethostname g));
      destruct (Identity.is_bad_fqdn (Identity.gethostname g)); reflexivity.
Qed.

Lemma resolved_fqdn_avoids_placeholders_witness :
  Identity.resolve_fqdn
    {| Identity.grain_fqdn := "localhost";
       Identity.grain_local_ip4 := Some "10.0.0.5";
       Identity.grain_fqdn_ip4 := [];
       Identity.grain_ipv4 := [];
       Identity.gethostname := "localhost" |} "minion-1" "10.0.0.5"
  = "10.0.0.5".
Proof.
  exact (proj2 (resolved_fqdn_avoids_placeholders
                  {| Identity.grain_fqdn := "localhost";
                     Identity.grain_local_ip4 := Some "10.0.0.5";
                     Identity.grain_fqdn_ip4 := [];
                     Identity.grain_ipv4 := [];
                     Identity.gethostname := "localhost" |} "minion-1" "10.0.0.5")
               eq_refl).
Defined.

(** ** Delivery: bounds, delivery to a live endpoint, the endpoint list *)

Section DeliveryFacts.
Import Py Hec Delivery.
Variable net : network.

Lemma count_sleeps_app (a b : list action) :
  count_sleeps (a ++ b) = (count_sleeps a + count_sleeps b)%nat.
Proof. unfold count_sleeps. now rewrite filter_app, length_app. Qed.

Lemma retry_loop_bounds (fuel : nat) :
  forall retries max_retries retry_sleep server body clock server' success acts,
    -1 <= retries ->
    retry_loop net fuel retries max_retries retry_sleep server body clock
    = Some (server', success, acts) ->
    (count_posts acts <= Z.to_nat (max_retries - retries))%nat
    /\ (count_sleeps acts <= Z.to_nat (max_retries - Z.max retries 0))%nat.
Proof.
  induction fuel as [| fuel IH];
    intros retries m sl server body clock server' success acts Hlow Hrun; [discriminate |].
  simpl in Hrun. destruct (retries <? m) eqn:Hlt.
  - apply Z.ltb_lt in Hlt.
    destruct (negb (retries + 1 =? 0) && sleep_raises sl) eqn:Hraise.
    { injection Hrun as <- <- <-. apply Bool.andb_true_iff in Hraise.
      destruct Hraise as [Hnot _]. apply Bool.negb_true_iff, Z.eqb_neq in Hnot.
      clear IH. cbn. split; lia. }
    assert (Hatt : count_posts ((if negb (retries + 1 =? 0) then [Sleep sl] else [])
                                  ++ [Post (fst server) body]) = 1%nat
                   /\ count_sleeps ((if negb (retries + 1 =? 0) then [Sleep sl] else [])
                                      ++ [Post (fst server) body])
                      = (if retries =? -1 then 0%nat else 1%nat)).
    { destruct (Z.eqb_spec (retries + 1) 0) as [H0 | H0];
        destruct (Z.eqb_spec retries (-1)) as [H1 | H1]; try lia; split; reflexivity. }
    destruct Hatt as [Hp Hs].
    destruct (net clock (fst server) body);
      try (destruct (retry_loop net fuel _ _ _ _ _ _) as [[[sv su] ac] |] eqn:Hrec;
           [| discriminate];
           injection Hrun as <- <- <-;
           apply IH in Hrec; [| lia]; destruct Hrec as [Hposts Hsleeps];
           rewrite count_posts_app, count_sleeps_app, Hp, Hs;
           clear IH Hp Hs;
           destruct (Z.eqb_spec retries (-1)); split; lia).
    injection Hrun as <- <- <-. rewrite Hp, Hs. clear IH Hp Hs.
    destruct (Z.eqb_spec retries (-1)); split; lia.
  - injection Hrun as <- <- <-. split; apply Nat.le_0_l.
Qed.

Lemma for_servers_bounds (cfg : settings) servers :
  forall body clock servers' success acts,
    for_servers net cfg servers body clock = Some (servers', success, acts) ->
    (count_posts acts <= List.length servers * Z.to_nat (max_retries_of cfg + 1))%nat
    /\ (count_sleeps acts <= List.length servers * Z.to_nat (max_retries_of cfg))%nat.
Proof.
  induction servers as [| server rest IH];
    intros body clock servers' success acts Hrun; simpl in Hrun.
  - injection Hrun as <- <- <-. split; apply Nat.le_0_l.
  - destruct (try_server net cfg server body clock) as [[[sv su] ac] |] eqn:Htry;
      [| discriminate].
    unfold try_server in Htry. apply retry_loop_bounds in Htry; [| lia].
    destruct Htry as [Hp Hs].
    replace (max_retries_of cfg - -1) with (max_retries_of cfg + 1) in Hp by lia.
    replace (max_retries_of cfg - Z.max (-1) 0) with (max_retries_of cfg) in Hs by lia.
    destruct su.
    + injection Hrun as <- <- <-. simpl. split; lia.
    + destruct (raised ac); [injection Hrun as <- <- <-; simpl; split; lia |].
      destruct (for_servers net cfg rest body _) as [[[rest' su'] ac'] |] eqn:Hrest;
        [| discriminate].
      injection Hrun as <- <- <-. apply IH in Hrest. destruct Hrest as [Hp' Hs'].
      rewrite count_posts_app, count_sleeps_app. simpl. split; lia.
Qed.

Lemma try_server_accepting (cfg : settings) server body clock :
  0 <= max_retries_of cfg ->
  always_accepts net (fst server) ->
  try_server net cfg server body clock
  = Some ((fst server, true), true, [Post (fst server) body]).
Proof.
  intros Hmax Hacc. unfold try_server.
  assert (Hlt : (-1 <? max_retries_of cfg) = true) by (apply Z.ltb_lt; lia).
  cbn [retry_loop]. rewrite Hlt, (Hacc clock body). reflexivity.
Qed.

Lemma for_servers_delivers (cfg : settings) servers :
  0 <= max_retries_of cfg ->
  0 <= retry_sleep_of cfg ->
  (exists s, In s servers /\ always_accepts net (fst s)) ->
  forall body clock, exists servers' acts,
    for_servers net cfg servers body clock = Some (servers', true, acts).
Proof.
  intros Hmax Hsleep.
  induction servers as [| server rest IH]; intros [s [Hin Hacc]] body clock;
    [contradiction |].
  simpl. destruct (try_server_total net cfg server body clock) as [[[sv su] ac] Htry].
  rewrite Htry. destruct su; [eauto |].
  unfold try_server in Htry.
  rewrite (retry_loop_returns net _ _ _ _ _ _ _ _ _ _ Hsleep Htry).
  fold (try_server net cfg server body clock) in Htry.
  destruct Hin as [-> | Hin].
  - rewrite (try_server_accepting cfg s body clock Hmax Hacc) in Htry. discriminate.
  - destruct (IH (ex_intro _ s (conj Hin Hacc)) body (clock + count_posts ac)%nat)
      as [rest' [ac' ->]].
    eauto.
Qed.

Lemma flushBatch_frame (cfg : settings) c clock c' acts :
  flushBatch net cfg c clock = Some (c', acts) ->
  host c' = host c /\ maxByteLength c' = maxByteLength c
  /\ (forall url, In url (map fst (server_uri c')) -> In url (map fst (server_uri c)))
  /\ (List.length (server_uri c') <= List.length (server_uri c))%nat.
Proof.
  unfold flushBatch. destruct (0 <? _)%nat.
  - destruct (for_servers net cfg _ _ _) as [[[sv su] ac] |] eqn:Hfor; [| discriminate].
    apply for_servers_posts in Hfor. destruct Hfor as [Hfst _].
    destruct (raised ac); intro H; injection H as <- <-;
      cbn [host maxByteLength server_uri];
      (split; [reflexivity |]); (split; [reflexivity |]); split.
    + intros url Hin. rewrite Hfst in Hin. apply in_map_iff in Hin.
      destruct Hin as [s [<- Hs]]. apply in_map. unfold eligible in Hs.
      apply filter_In in Hs. tauto.
    + rewrite <- (length_map fst sv), Hfst, length_map. unfold eligible.
      apply filter_length_le.
    + intros url Hin. rewrite Hfst in Hin. apply in_map_iff in Hin.
      destruct Hin as [s [<- Hs]]. apply in_map. unfold eligible in Hs.
      apply filter_In in Hs. tauto.
    + rewrite <- (length_map fst sv), Hfst, length_map. unfold eligible.
      apply filter_length_le.
  - intro H. injection H as <- <-. auto.
Qed.

Lemma step_frame (cfg : settings) dumps o c clock c' acts :
  step net cfg dumps o c clock = Some (c', acts) ->
  host c' = host c /\ maxByteLength c' = maxByteLength c
  /\ (forall url, In url (map fst (server_uri c')) -> In url (map fst (server_uri c)))
  /\ (List.length (server_uri c') <= List.length (server_uri c))%nat.
Proof.
  assert (Happ : forall n entry,
             account_and_append net cfg c n entry clock = Some (c', acts) ->
             host c' = host c /\ maxByteLength c' = maxByteLength c
             /\ (forall url, In url (map fst (server_uri c'))
                             -> In url (map fst (server_uri c)))
             /\ (List.length (server_uri c') <= List.length (server_uri c))%nat).
  { intros n entry. unfold account_and_append. destruct (_ >? _).
    - destruct (flushBatch net cfg c clock) as [[c1 ac] |] eqn:Hflush; [| discriminate].
      apply flushBatch_frame in Hflush.
      destruct (raised ac); intro H; injection H as <- <-; exact Hflush.
    - intro H. injection H as <- <-. simpl. auto. }
  destruct o; simpl; [apply Happ | apply Happ | apply flushBatch_frame].
Qed.

Lemma run_frame (cfg : settings) dumps ops :
  forall c clock c' acts,
    run net cfg dumps ops c clock = Some (c', acts) ->
    host c' = host c /\ maxByteLength c' = maxByteLength c
    /\ (forall url, In url (map fst (server_uri c')) -> In url (map fst (server_uri c)))
    /\ (List.length (server_uri c') <= List.length (server_uri c))%nat.
Proof.
  induction ops as [| o rest IH]; intros c clock c' acts Hrun; simpl in Hrun.
  - injection Hrun as <- <-. auto.
  - destruct (step net cfg dumps o c clock) as [[c1 ac] |] eqn:Hstep; [| discriminate].
    apply step_frame in Hstep.
    destruct (raised ac); [injection Hrun as <- <-; exact Hstep |].
    destruct (run net cfg dumps rest c1 _) as [[c2 ac'] |] eqn:Hrest; [| discriminate].
    injection Hrun as <- <-. apply IH in Hrest.
    destruct Hstep as [H1 [H2 [H3 H4]]]. destruct Hrest as [H1' [H2' [H3' H4']]].
    split; [congruence |]. split; [congruence |]. split; [auto | lia].
Qed.
End DeliveryFacts.

(** X7: one [flushBatch] comes to an end, whatever the network answers,
    after at most [max_retries + 1] POSTs and at most [max_retries] calls of
    [time.sleep] per eligible endpoint: the time a flush can block is bounded
    by the number of endpoints and the retry settings.  It ends by returning
    whenever the retry sleep is not negative; otherwise it may end by the
    exception of [time.sleep]. *)
Theorem flushBatch_attempts_bounded :
  forall (net : Hec.network) (cfg : Hec.settings) (c : Hec.collector) (clock : nat),
  exists c' acts,
    Hec.flushBatch net cfg c clock = Some (c', acts)
    /\ (Hec.count_posts acts
        <= List.length (Hec.eligible (Hec.server_uri c))
           * Z.to_nat (Hec.max_retries_of cfg + 1))%nat
    /\ (Delivery.count_sleeps acts
        <= List.length (Hec.eligible (Hec.server_uri c))
           * Z.to_nat (Hec.max_retries_of cfg))%nat
    /\ (0 <= Hec.retry_sleep_of cfg -> Hec.raised acts = false).
Proof.
  intros net cfg c clock.
  destruct (flushBatch_total net cfg c clock) as [[c' acts] Hflush].
  exists c', acts. split; [exact Hflush |].
  assert (Hbounds :
            (Hec.count_posts acts
             <= List.length (Hec.eligible (Hec.server_uri c))
                * Z.to_nat (Hec.max_retries_of cfg + 1))%nat
            /\ (Delivery.count_sleeps acts
                <= List.length (Hec.eligible (Hec.server_uri c))
                   * Z.to_nat (Hec.max_retries_of cfg))%nat).
  { revert Hflush. unfold Hec.flushBatch. destruct (0 <? _)%nat.
    - destruct (Hec.for_servers net cfg _ _ _) as [[[sv su] ac] |] eqn:Hfor;
        [| discriminate].
      pose proof (for_servers_bounds net cfg _ _ _ _ _ _ Hfor) as Hb.
      destruct (Hec.raised ac); intro H; injection H as <- <-; exact Hb.
    - intro H. injection H as <- <-. split; apply Nat.le_0_l. }
  destruct Hbounds as [Hposts Hsleeps].
  split; [exact Hposts |]. split; [exact Hsleeps |].
  intro Hsleep. exact (flushBatch_returns net cfg c clock c' acts Hsleep Hflush).
Qed.

Lemma flushBatch_attempts_bounded_witness :
  exists c' acts,
    Hec.flushBatch (Hec.net_refusing Hec.TimedOut) (Hec.mkSettings true (Some 1) (Some 5))
                   (Hec.two_servers ["{}"] 2) 0 = Some (c', acts)
    /\ (Hec.count_posts acts <= 4)%nat
    /\ (Delivery.count_sleeps acts <= 2)%nat
    /\ Hec.raised acts = false.
Proof.
  destruct (flushBatch_attempts_bounded
              (Hec.net_refusing Hec.TimedOut) (Hec.mkSettings true (Some 1) (Some 5))
              (Hec.two_servers ["{}"] 2) 0%nat)
    as [c' [acts [Hflush [Hposts [Hsleeps Hreturns]]]]].
  exists c', acts. split; [exact Hflush |]. split; [exact Hposts |].
  split; [exact Hsleeps |]. apply Hreturns. apply Z.leb_le. reflexivity.
Defined.

(** X8: when the pending list is not empty, neither the retry maximum
    nor the retry sleep is negative and some eligible endpoint accepts
    whatever it is sent, [flushBatch] delivers the batch: its actions end with
    a POST that was accepted, every POST carries the joined pending events,
    and the pending list is empty afterwards. *)
Theorem flushBatch_delivers_to_live_endpoint :
  forall (net : Hec.network) (cfg : Hec.settings) (c : Hec.collector) (clock : nat),
    Hec.batchEvents c <> [] ->
    0 <= Hec.max_retries_of cfg ->
    0 <= Hec.retry_sleep_of cfg ->
    (exists s, In s (Hec.eligible (Hec.server_uri c))
               /\ Delivery.always_accepts net (fst s)) ->
    exists c' acts,
      Hec.flushBatch net cfg c clock = Some (c', acts)
      /\ Hec.delivered_last net clock acts
      /\ (forall url body, In (Hec.Post url body) acts
                           -> body = Hec.join_events (Hec.batchEvents c))
      /\ Hec.batchEvents c' = [].
Proof.
  intros net cfg c clock Hne Hmax Hsleep Hlive.
  destruct (flushBatch_nonempty net cfg c clock Hne Hsleep)
    as [sv [su [ac [Hfor [_ Hflush]]]]].
  destruct (for_servers_delivers net cfg _ Hmax Hsleep Hlive
              (Hec.join_events (Hec.batchEvents c)) clock) as [sv' [ac' Hfor']].
  rewrite Hfor' in Hfor. injection Hfor as <- <- <-.
  eexists. exists ac'. split; [exact Hflush |]. split.
  - exact (for_servers_well_ended net cfg _ _ _ _ _ _ Hfor').
  - split; [| reflexivity]. intros url body Hin.
    now apply (flushBatch_posts net cfg c clock _ ac' Hflush url body).
Qed.

Lemma flushBatch_delivers_to_live_endpoint_witness :
  exists c' acts,
    Hec.flushBatch (Hec.net_a_down Hec.TimedOut) (Hec.mkSettings true (Some 1) (Some 5))
                   (Hec.two_servers ["{}"] 2) 0 = Some (c', acts)
    /\ Hec.delivered_last (Hec.net_a_down Hec.TimedOut) 0 acts
    /\ (forall url body, In (Hec.Post url body) acts
                         -> body = Hec.join_events (Hec.batchEvents (Hec.two_servers ["{}"] 2)))
    /\ Hec.batchEvents c' = [].
Proof.
  apply flushBatch_delivers_to_live_endpoint.
  - discriminate.
  - apply Z.leb_le. reflexivity.
  - apply Z.leb_le. reflexivity.
  - exists (Hec.url_b, true). split; [simpl; tauto |]. intros n body. reflexivity.
Defined.

(** X9: a session never adds an endpoint and never changes the host name
    or the byte limit of the collector: after any sequence of [batchEvent]
    and [flushBatch] calls every URL still listed was listed at the start,
    and the list has not grown. *)
Theorem session_never_adds_endpoints :
  forall (net : Hec.network) (cfg : Hec.settings) (dumps : Py.value -> string)
         (ops : list Hec.op) (c : Hec.collector) (clock : nat),
  exists c' acts,
    Hec.run net cfg dumps ops c clock = Some (c', acts)
    /\ Hec.host c' = Hec.host c
    /\ Hec.maxByteLength c' = Hec.maxByteLength c
    /\ (forall url, In url (map fst (Hec.server_uri c'))
                    -> In url (map fst (Hec.server_uri c)))
    /\ (List.length (Hec.server_uri c') <= List.length (Hec.server_uri c))%nat.
Proof.
  intros net cfg dumps ops c clock.
  destruct (run_total net cfg dumps ops c clock) as [[c' acts] Hrun].
  exists c', acts. split; [exact Hrun |].
  exact (run_frame net cfg dumps ops c clock c' acts Hrun).
Qed.

(** ** Batching: what is serialized *)

Section StampFacts.
Import Py Hec Delivery.

Lemma dict_set_keys (d : dict) (k : string) (v : value) :
  map fst (dict_set d k v) = if dict_has d k then map fst d else map fst d ++ [k].
Proof.
  unfold dict_has. induction d as [| [k' v'] d IH]; simpl; [reflexivity |].
  destruct (String.eqb_spec k k') as [-> | Hne]; simpl; [reflexivity |].
  rewrite IH. now destruct (dict_get d k).
Qed.

Lemma dict_set_NoDup (d : dict) (k : string) (v : value) :
  NoDup (map fst d) -> NoDup (map fst (dict_set d k v)).
Proof.
  intro Hnodup. rewrite dict_set_keys. unfold dict_has.
  destruct (dict_get d k) eqn:Hget; [exact Hnodup |].
  apply dict_get_None_iff in Hget.
  apply NoDup_app; [exact Hnodup | repeat constructor; intros [] |].
  intros x Hx [<- | []]. contradiction.
Qed.

Lemma fill_host_lookup (c : collector) (payload : dict) (key : string) :
  dict_get (fill_host c payload) key
  = if String.eqb key "host"
    then match dict_get payload "host" with
         | Some h => Some h
         | None => Some (VStr (host c))
         end
    else dict_get payload key.
Proof.
  unfold fill_host, dict_has.
  destruct (String.eqb_spec key "host") as [-> | Hne].
  - destruct (dict_get payload "host") eqn:Hget; [exact Hget | apply dict_get_set_same].
  - destruct (dict_get payload "host"); [reflexivity |].
    now apply dict_get_set_other.
Qed.

Lemma fill_host_NoDup (c : collector) (payload : dict) :
  NoDup (map fst payload) -> NoDup (map fst (fill_host c payload)).
Proof.
  intro H. unfold fill_host. destruct (dict_has payload "host"); [exact H |].
  now apply dict_set_NoDup.
Qed.
End StampFacts.

Section AppendFacts.
Import Py Hec Delivery.
Variable net : network.
Variable cfg : settings.

(** With a sleep that does not raise, [batchEvent] appends its entry, to
    what was pending or, after a flush, to nothing. *)
Lemma account_and_append_appends (c : collector) (n : Z) (entry : string) (clock : nat) :
  0 <= retry_sleep_of cfg ->
  exists c' acts pending,
    account_and_append net cfg c n entry clock = Some (c', acts)
    /\ batchEvents c' = pending ++ [entry]
    /\ (pending = batchEvents c \/ pending = []).
Proof.
  intro Hsleep. unfold account_and_append. destruct (_ >? _).
  - destruct (flushBatch net cfg c clock) as [[c1 ac] |] eqn:Hflush;
      [| destruct (flushBatch_total net cfg c clock) as [res Hres]; congruence].
    rewrite (flushBatch_returns net cfg c clock c1 ac Hsleep Hflush).
    eexists. eexists. exists (batchEvents c1). split; [reflexivity |].
    split; [reflexivity |].
    revert Hflush. unfold flushBatch. destruct (0 <? _)%nat.
    + destruct (for_servers net cfg _ _ _) as [[[sv su] ac0] |] eqn:Hfor;
        [| discriminate].
      rewrite (for_servers_returns net cfg _ _ _ _ _ _ Hsleep Hfor).
      intro H. injection H as <- <-. now right.
    + intro H. injection H as <- <-. now left.
  - eexists. eexists. exists (batchEvents c). split; [reflexivity |].
    split; [reflexivity | now left].
Qed.

Lemma pulsar_payload_lookup (c : collector) (payload : dict) (eventtime : string)
      (now : value) :
  dict_get (pulsar_payload c payload eventtime now) "host"
  = match dict_get payload "host" with
    | Some h => Some h
    | None => Some (VStr (host c))
    end
  /\ dict_get (pulsar_payload c payload eventtime now) "time"
     = match dict_get payload "time" with
       | Some t => Some t
       | None => if String.eqb eventtime "" then Some now else None
       end
  /\ forall key, key <> "host" -> key <> "time" ->
                 dict_get (pulsar_payload c payload eventtime now) key = dict_get payload key.
Proof.
  unfold pulsar_payload, dict_has.
  pose proof (fill_host_lookup c payload "time") as Htime.
  cbn [String.eqb Ascii.eqb Bool.eqb] in Htime.
  pose proof (fill_host_lookup c payload "host") as Hhost.
  cbn [String.eqb Ascii.eqb Bool.eqb] in Hhost.
  assert (Hother : forall key, key <> "host" ->
                     dict_get (fill_host c payload) key = dict_get payload key).
  { intros key Hk. rewrite fill_host_lookup.
    destruct (String.eqb_spec key "host"); [contradiction | reflexivity]. }
  rewrite Htime.
  destruct (String.eqb eventtime ""); destruct (dict_get payload "time"); cbn [andb negb];
    (split; [try rewrite dict_get_set_other by discriminate; exact Hhost |]);
    (split; [try exact Htime; try apply dict_get_set_same |]);
    intros key Hk Hk'; try rewrite dict_get_set_other by exact Hk'; now apply Hother.
Qed.

Lemma nova_data_lookup (c : collector) (payload : dict) (eventtime now_str : string) :
  NoDup (map fst payload) ->
  dict_get (nova_data c payload eventtime now_str) "host"
  = match dict_get payload "host" with
    | Some h => Some h
    | None => Some (VStr (host c))
    end
  /\ dict_get (nova_data c payload eventtime now_str) "time"
     = match dict_get payload "time" with
       | Some t => Some t
       | None => Some (VStr (if String.eqb eventtime "" then now_str else eventtime))
       end
  /\ forall key, key <> "host" -> key <> "time" ->
                 dict_get (nova_data c payload eventtime now_str) key = dict_get payload key.
Proof.
  intro Hnodup. unfold nova_data.
  split; [| split].
  - rewrite (dict_update_lookup _ (fill_host_NoDup c payload Hnodup)).
    rewrite fill_host_lookup. cbn [String.eqb Ascii.eqb Bool.eqb dict_get].
    now destruct (dict_get payload "host").
  - rewrite (dict_update_lookup _ (fill_host_NoDup c payload Hnodup)).
    rewrite fill_host_lookup. cbn [String.eqb Ascii.eqb Bool.eqb dict_get].
    now destruct (dict_get payload "time").
  - intros key Hhost Htime.
    rewrite (dict_update_lookup _ (fill_host_NoDup c payload Hnodup)).
    rewrite fill_host_lookup.
    destruct (String.eqb_spec key "host"); [contradiction |].
    destruct (dict_get payload key) eqn:Hget; [reflexivity |].
    cbn [dict_get]. destruct (String.eqb_spec key "time"); [contradiction | reflexivity].
Qed.
End AppendFacts.

(** X10: [batchEvent] never overwrites a host or a time the payload
    brings.  With a retry sleep that is not negative, [batchEvent] of either
    returner returns with one more pending entry, added after what was pending
    or, when the call flushed, after nothing.  That entry is the serialized
    form of a dictionary that holds the payload's own ['host'] if it has one
    and the collector's host otherwise, the payload's own ['time'] if it has
    one, and under every other key what the payload holds.  Without a time of
    the payload, the nova returner stamps the given [eventtime], or the
    current time when none is given; the pulsar returner stamps the current
    time when no [eventtime] is given, and no time at all when one is
    given. *)
Theorem batchEvent_keeps_payload_host_and_time :
  forall (net : Hec.network) (cfg : Hec.settings) (dumps : Py.value -> string)
         (c : Hec.collector) (payload : Py.dict) (eventtime : string) (clock : nat),
    NoDup (map fst payload) ->
    0 <= Hec.retry_sleep_of cfg ->
    (forall now,
        exists c' acts pending sent,
          Hec.batchEvent_pulsar net cfg dumps c payload eventtime now clock
          = Some (c', acts)
          /\ Hec.batchEvents c' = pending ++ [dumps (Py.VDict sent)]
          /\ (pending = Hec.batchEvents c \/ pending = [])
          /\ Py.dict_get sent "host"
             = match Py.dict_get payload "host" with
               | Some h => Some h
               | None => Some (Py.VStr (Hec.host c))
               end
          /\ Py.dict_get sent "time"
             = match Py.dict_get payload "time" with
               | Some t => Some t
               | None => if String.eqb eventtime "" then Some now else None
               end
          /\ forall key, key <> "host" -> key <> "time" ->
                         Py.dict_get sent key = Py.dict_get payload key)
    /\ (forall now_str,
        exists c' acts pending sent,
          Hec.batchEvent_nova net cfg dumps c payload eventtime now_str clock
          = Some (c', acts)
          /\ Hec.batchEvents c' = pending ++ [dumps (Py.VDict sent)]
          /\ (pending = Hec.batchEvents c \/ pending = [])
          /\ Py.dict_get sent "host"
             = match Py.dict_get payload "host" with
               | Some h => Some h
               | None => Some (Py.VStr (Hec.host c))
               end
          /\ Py.dict_get sent "time"
             = match Py.dict_get payload "time" with
               | Some t => Some t
               | None => Some (Py.VStr (if String.eqb eventtime "" then now_str
                                        else eventtime))
               end
          /\ forall key, key <> "host" -> key <> "time" ->
                         Py.dict_get sent key = Py.dict_get payload key).
Proof.
  intros net cfg dumps c payload eventtime clock Hnodup Hsleep. split.
  - intro now. unfold Hec.batchEvent_pulsar.
    destruct (account_and_append_appends net cfg c
                (Hec.len (dumps (Py.VDict (Delivery.pulsar_payload c payload eventtime now))))
                (dumps (Py.VDict (Delivery.pulsar_payload c payload eventtime now)))
                clock Hsleep) as [c' [acts [pending [Hrun [Hbatch Hpending]]]]].
    exists c', acts, pending, (Delivery.pulsar_payload c payload eventtime now).
    split; [exact Hrun |]. split; [exact Hbatch |]. split; [exact Hpending |].
    apply pulsar_payload_lookup.
  - intro now_str. unfold Hec.batchEvent_nova.
    destruct (account_and_append_appends net cfg c
                (Hec.len (dumps (Py.VDict (Hec.fill_host c payload))))
                (dumps (Py.VDict (Delivery.nova_data c payload eventtime now_str)))
                clock Hsleep) as [c' [acts [pending [Hrun [Hbatch Hpending]]]]].
    exists c', acts, pending, (Delivery.nova_data c payload eventtime now_str).
    split; [exact Hrun |]. split; [exact Hbatch |]. split; [exact Hpending |].
    now apply nova_data_lookup.
Qed.

Lemma batchEvent_keeps_payload_host_and_time_witness :
  exists c' acts pending sent,
    Hec.batchEvent_nova (Hec.net_refusing Hec.Accepted) (Hec.mkSettings true None (Some 5))
      Hec.dumps_plain (Hec.with_batch Hec.small_collector ["{}"] 2)
      [("time", Py.VNum 1500000000); ("event", Py.VDict [])] "1500000099" "0" 0
    = Some (c', acts)
    /\ Hec.batchEvents c' = pending ++ [Hec.dumps_plain (Py.VDict sent)]
    /\ (pending = ["{}"] \/ pending = [])
    /\ Py.dict_get sent "host" = Some (Py.VStr "minion-1")
    /\ Py.dict_get sent "time" = Some (Py.VNum 1500000000)
    /\ forall key, key <> "host" -> key <> "time" ->
                   Py.dict_get sent key
                   = Py.dict_get [("time", Py.VNum 1500000000); ("event", Py.VDict [])] key.
Proof.
  apply (proj2 (batchEvent_keeps_payload_host_and_time
                  (Hec.net_refusing Hec.Accepted) (Hec.mkSettings true None (Some 5))
                  Hec.dumps_plain (Hec.with_batch Hec.small_collector ["{}"] 2)
                  [("time", Py.VNum 1500000000); ("event", Py.VDict [])] "1500000099" 0%nat
                  ltac:(repeat constructor; simpl; intuition discriminate)
                  ltac:(vm_compute; discriminate)) "0").
Defined.

(** ** The log handler *)

Section SplunkLogFacts.
Import Py Hec SplunkLog.
Variable net : network.

Lemma log_for_servers_all_raise servers :
  (forall s, In s servers -> always_raises_request_exception net (fst s)) ->
  forall body clock,
    SplunkLog.for_servers net servers body clock
    = (map (fun s => (fst s, false)) servers, map (fun s => Post (fst s) body) servers).
Proof.
  induction servers as [| server rest IH]; intros Hall body clock; [reflexivity |].
  cbn [SplunkLog.for_servers map].
  pose proof (Hall server (or_introl eq_refl) clock body) as Hraise.
  rewrite (IH (fun s Hs => Hall s (or_intror Hs)) body (S clock)).
  destruct (net clock (fst server) body); try discriminate Hraise; reflexivity.
Qed.

Lemma log_for_servers_posts servers :
  forall body clock url b,
    In (Post url b) (snd (SplunkLog.for_servers net servers body clock)) -> b = body.
Proof.
  induction servers as [| server rest IH]; intros body clock url b Hin; [contradiction |].
  cbn [SplunkLog.for_servers] in Hin.
  destruct (net clock (fst server) body);
    try (destruct (SplunkLog.for_servers net rest body (S clock)) as [rest' acts] eqn:Hrest;
         cbn [snd] in Hin; destruct Hin as [Heq | Hin];
         [now injection Heq as _ <- |];
         apply (IH body (S clock) url b); now rewrite Hrest).
Qed.

Lemma log_flushBatch_posts c clock url b :
  In (Post url b) (snd (SplunkLog.flushBatch net c clock)) ->
  b = join_events (batchEvents c).
Proof.
  unfold SplunkLog.flushBatch. destruct (0 <? _)%nat; [| intros []].
  destruct (SplunkLog.for_servers net _ _ _) as [servers acts] eqn:Hfor. cbn [snd].
  intro Hin. apply (log_for_servers_posts (eligible (server_uri c)) _ clock url b).
  now rewrite Hfor.
Qed.

Lemma log_flushBatch_state c clock :
  batchEvents (fst (SplunkLog.flushBatch net c clock)) = []
  /\ (batchEvents c <> [] ->
      currentByteLength (fst (SplunkLog.flushBatch net c clock)) = 0).
Proof.
  unfold SplunkLog.flushBatch. destruct (batchEvents c) as [| e es] eqn:He.
  - cbn. rewrite He. split; [reflexivity | contradiction].
  - cbn [List.length Nat.ltb Nat.leb].
    destruct (SplunkLog.for_servers net _ _ _) as [servers acts]. split; reflexivity.
Qed.

Lemma log_emit_data_facts (dumps : value -> string) endpoints :
  forall data now now_str clock,
    nothing_pending endpoints ->
    nothing_pending (fst (emit_data net dumps endpoints data now now_str clock))
    /\ (forall url body,
           In (Post url body) (snd (emit_data net dumps endpoints data now now_str clock)) ->
           exists e, In e endpoints /\ body = entry_for dumps e data now now_str)
    /\ Forall (fun e' => currentByteLength (hec e') = 0)
               (fst (emit_data net dumps endpoints data now now_str clock))
    /\ List.length (fst (emit_data net dumps endpoints data now now_str clock))
       = List.length endpoints.
Proof.
  induction endpoints as [| e rest IH]; intros data now now_str clock Hpending.
  - cbn. repeat split; [constructor | intros url body [] | constructor].
  - inversion Hpending as [| ? ? Hempty Hrest]; subst.
    cbn [emit_data].
    set (payload := dict_set (payload_template e) "event"
                             (VDict (dict_update (event_template e) data))).
    assert (Hbatch :
              exists c1,
                SplunkLog.batchEvent net dumps (hec e) payload now now_str clock = (c1, [])
                /\ batchEvents c1 = [entry_for dumps e data now now_str]).
    { unfold SplunkLog.batchEvent.
      destruct (_ >? _).
      - unfold SplunkLog.flushBatch. rewrite Hempty. cbn.
        eexists. split; [reflexivity |]. cbn [batchEvents currentByteLength with_batch].
        rewrite Hempty. reflexivity.
      - cbn. eexists. split; [reflexivity |]. cbn [batchEvents currentByteLength with_batch].
        rewrite Hempty. reflexivity. }
    destruct Hbatch as [c1 [-> Hc1]].
    destruct (SplunkLog.flushBatch net c1 (clock + count_posts [])) as [c2 acts2] eqn:Hflush.
    pose proof (log_flushBatch_state c1 (clock + count_posts [])) as [Hclear Hreset].
    rewrite Hflush in Hclear, Hreset. cbn [fst] in Hclear, Hreset.
    assert (Hzero : currentByteLength c2 = 0)
      by (apply Hreset; rewrite Hc1; discriminate).
    specialize (IH data now now_str (clock + count_posts [] + count_posts acts2)%nat Hrest).
    destruct (emit_data net dumps rest data now now_str _) as [rest' acts3].
    cbn [fst snd] in IH |- *. destruct IH as [IH1 [IH2 [IH3 IH4]]].
    split; [constructor; [exact Hclear | exact IH1] |]. split.
    + intros url body Hin. cbn [app] in Hin. apply in_app_or in Hin.
      destruct Hin as [Hin | Hin].
      * exists e. split; [now left |].
        assert (Hb : body = join_events (batchEvents c1)).
        { apply (log_flushBatch_posts c1 (clock + count_posts []) url body).
          now rewrite Hflush. }
        rewrite Hb, Hc1. reflexivity.
      * destruct (IH2 url body Hin) as [e' [He' Hbody]]. exists e'. split; [now right | exact Hbody].
    + split; [constructor; [exact Hzero | exact IH3] |].
      cbn [List.length]. now rewrite IH4.
Qed.
End SplunkLogFacts.

(** X11: in the log handler's collector a flush in which every eligible
    endpoint answers with a [requests] exception (timeout, connection error,
    HTTP error or any other) POSTs to each of them exactly once, in order,
    flags them all unhealthy and drops the pending events; from then on no
    call of [flushBatch] on that collector, whatever is pending and whatever
    the network would answer, makes a POST. *)
Theorem log_collector_goes_silent_after_failed_flush :
  forall (net : Hec.network) (c : Hec.collector) (clock : nat),
    Hec.batchEvents c <> [] ->
    (forall s, In s (Hec.eligible (Hec.server_uri c))
               -> SplunkLog.always_raises_request_exception net (fst s)) ->
    snd (SplunkLog.flushBatch net c clock)
    = map (fun s => Hec.Post (fst s) (Hec.join_events (Hec.batchEvents c)))
          (Hec.eligible (Hec.server_uri c))
    /\ Hec.server_uri (fst (SplunkLog.flushBatch net c clock))
       = map (fun s => (fst s, false)) (Hec.eligible (Hec.server_uri c))
    /\ Hec.batchEvents (fst (SplunkLog.flushBatch net c clock)) = []
    /\ forall (net' : Hec.network) (events : list string) (count : Z) (clock' : nat),
        snd (SplunkLog.flushBatch net'
               (Hec.with_batch (fst (SplunkLog.flushBatch net c clock)) events count)
               clock') = [].
Proof.
  intros net c clock Hne Hall.
  assert (Hflush :
            SplunkLog.flushBatch net c clock
            = ({| Hec.host := Hec.host c;
                  Hec.batchEvents := [];
                  Hec.maxByteLength := Hec.maxByteLength c;
                  Hec.currentByteLength := 0;
                  Hec.server_uri := map (fun s => (fst s, false))
                                        (Hec.eligible (Hec.server_uri c)) |},
               map (fun s => Hec.Post (fst s) (Hec.join_events (Hec.batchEvents c)))
                   (Hec.eligible (Hec.server_uri c)))).
  { unfold SplunkLog.flushBatch.
    destruct (Hec.batchEvents c) as [| e es] eqn:He; [contradiction |].
    cbn [List.length Nat.ltb Nat.leb].
    now rewrite (log_for_servers_all_raise net _ Hall). }
  rewrite Hflush. cbn [fst snd Hec.server_uri Hec.batchEvents].
  repeat split.
  intros net' events count clock'. unfold SplunkLog.flushBatch, Hec.with_batch.
  cbn [Hec.batchEvents Hec.server_uri].
  destruct (0 <? List.length events)%nat; [| reflexivity].
  assert (Hnone : Hec.eligible (map (fun s : string * bool => (fst s, false))
                                    (Hec.eligible (Hec.server_uri c))) = []).
  { generalize (Hec.eligible (Hec.server_uri c)). intro l.
    induction l as [| x l IH]; [reflexivity | exact IH]. }
  rewrite Hnone. reflexivity.
Qed.

Lemma log_collector_goes_silent_witness :
  snd (SplunkLog.flushBatch (Hec.net_refusing Hec.ConnectionFailed)
         (Hec.two_servers ["{}"] 2) 0)
  = [Hec.Post Hec.url_a "{}"; Hec.Post Hec.url_b "{}"].
Proof.
  apply (proj1 (log_collector_goes_silent_after_failed_flush
                  (Hec.net_refusing Hec.ConnectionFailed) (Hec.two_servers ["{}"] 2) 0%nat
                  ltac:(discriminate) ltac:(intros s _ n body; reflexivity))).
Defined.

(** X12: the log handler sends every record on its own.  When nothing is
    pending in the handler's collectors (as after [__init__]), [emit_data]
    leaves nothing pending, every POST it makes carries exactly the one
    serialized event of the endpoint concerned, whatever the byte counter and
    the limit are, and it leaves every collector, one per endpoint as before,
    with its byte counter at 0. *)
Theorem log_handler_sends_each_record_alone :
  forall (net : Hec.network) (dumps : Py.value -> string)
         (endpoints : list SplunkLog.endpoint) (data : Py.dict) (now : Py.value)
         (now_str : string) (clock : nat),
    SplunkLog.nothing_pending endpoints ->
    SplunkLog.nothing_pending
      (fst (SplunkLog.emit_data net dumps endpoints data now now_str clock))
    /\ (forall url body,
           In (Hec.Post url body)
              (snd (SplunkLog.emit_data net dumps endpoints data now now_str clock)) ->
           exists e, In e endpoints
                     /\ body = SplunkLog.entry_for dumps e data now now_str)
    /\ Forall (fun e' => Hec.currentByteLength (SplunkLog.hec e') = 0)
              (fst (SplunkLog.emit_data net dumps endpoints data now now_str clock))
    /\ List.length (fst (SplunkLog.emit_data net dumps endpoints data now now_str clock))
       = List.length endpoints.
Proof.
  intros net dumps endpoints data now now_str clock Hpending.
  now apply log_emit_data_facts.
Qed.

Lemma log_handler_sends_each_record_alone_witness :
  SplunkLog.nothing_pending
    (fst (SplunkLog.emit_data (Hec.net_refusing Hec.Accepted) Hec.dumps_plain
            [SplunkLog.mkEndpoint (Hec.two_servers [] 99999) [("minion_id", Py.VStr "m")]
                                  [("index", Py.VStr "trubble")]]
            [("message", Py.VStr "started")] (Py.VNum 1500000000) "1500000000" 0))
  /\ Forall (fun e' => Hec.currentByteLength (SplunkLog.hec e') = 0)
            (fst (SplunkLog.emit_data (Hec.net_refusing Hec.Accepted) Hec.dumps_plain
                    [SplunkLog.mkEndpoint (Hec.two_servers [] 99999)
                                          [("minion_id", Py.VStr "m")]
                                          [("index", Py.VStr "trubble")]]
                    [("message", Py.VStr "started")] (Py.VNum 1500000000) "1500000000" 0)).
Proof.
  destruct (log_handler_sends_each_record_alone
              (Hec.net_refusing Hec.Accepted) Hec.dumps_plain
              [SplunkLog.mkEndpoint (Hec.two_servers [] 99999)
                                    [("minion_id", Py.VStr "m")]
                                    [("index", Py.VStr "trubble")]]
              [("message", Py.VStr "started")] (Py.VNum 1500000000) "1500000000" 0%nat
              ltac:(repeat constructor))
    as [Hpending [_ [Hzero _]]].
  split; [exact Hpending | exact Hzero].
Defined.

(** ** The nova returner: custom fields and index-time fields *)

Section NovaFieldFacts.
Import Py Nova.

Lemma is_prefix_app (p s : string) : is_prefix p (p ++ s) = true.
Proof.
  induction p as [| a p IH]; simpl; [now destruct s |].
  now rewrite Ascii.eqb_refl, IH.
Qed.

Lemma add_custom_field_frame (ctx : context) (event event' : dict) (field key : string) :
  is_prefix "custom_" key = false ->
  add_custom_field ctx (inr event) field = inr event' ->
  dict_get event' key = dict_get event key.
Proof.
  intros Hkey. unfold add_custom_field.
  assert (Hne : key <> ("custom_" ++ field)%string).
  { intros ->. rewrite is_prefix_app in Hkey. discriminate. }
  destruct (config_get ctx field) as [| | | s | xs |];
    try (intro H; injection H as <-; reflexivity).
  - intro H. injection H as <-. unfold dict_update. cbn [fold_left fst snd].
    now apply dict_get_set_other.
  - destruct (join_strings "," xs); [| discriminate].
    intro H. injection H as <-. unfold dict_update. cbn [fold_left fst snd].
    now apply dict_get_set_other.
Qed.

Lemma add_custom_field_error (ctx : context) (e : exn) (fields : list string) :
  fold_left (add_custom_field ctx) fields (inl e) = inl e.
Proof. induction fields as [| f fields IH]; [reflexivity | exact IH]. Qed.

Lemma add_custom_fields_frame (ctx : context) (key : string) :
  is_prefix "custom_" key = false ->
  forall (fields : list string) (event event' : dict),
    fold_left (add_custom_field ctx) fields (inr event) = inr event' ->
    dict_get event' key = dict_get event key.
Proof.
  intros Hkey. induction fields as [| f fields IH]; intros event event' Hrun.
  - injection Hrun as <-. reflexivity.
  - cbn [fold_left] in Hrun.
    destruct (add_custom_field ctx (inr event) f) as [e | event1] eqn:Hone.
    + rewrite add_custom_field_error in Hrun. discriminate.
    + rewrite (IH event1 event' Hrun).
      exact (add_custom_field_frame ctx event event1 f key Hkey Hone).
Qed.

(** What the loop over [index_extracted_fields] has collected *)
Lemma collected_fields_sound (event : dict) (items : list string) :
  forall (fields : dict),
    (forall k v, dict_get fields k = Some v ->
                 exists ev, dict_get event k = Some ev /\ v = VStr (py_str ev)
                            /\ (forall xs, ev <> VList xs) /\ (forall kv, ev <> VDict kv)) ->
    forall k v,
      dict_get (fold_left (fun fields item =>
                             match dict_get event item with
                             | Some (VList _) | Some (VDict _) | None => fields
                             | Some ev => dict_set fields item (VStr (py_str ev))
                             end) items fields) k = Some v ->
      exists ev, dict_get event k = Some ev /\ v = VStr (py_str ev)
                 /\ (forall xs, ev <> VList xs) /\ (forall kv, ev <> VDict kv).
Proof.
  induction items as [| item items IH]; intros fields Hinv k v; [apply Hinv |].
  cbn [fold_left]. apply IH. clear k v. intros k v.
  destruct (dict_get event item) as [ev |] eqn:Hev; [| apply Hinv].
  destruct ev; try apply Hinv;
    (destruct (String.eqb_spec k item) as [-> | Hne];
     [rewrite dict_get_set_same; intro H; injection H as <-;
      eexists; split; [exact Hev |]; split; [reflexivity |]; split; intros; discriminate
     | rewrite dict_get_set_other by exact Hne; apply Hinv]).
Qed.
End NovaFieldFacts.

(** X13: custom fields cannot clash with the built-in keys.  Adding the
    configured custom fields to an event changes only keys that start with
    ["custom_"]: every other key of the event keeps its value.  This holds in
    every path, since Failure, Success and Compliance events all go through
    [add_custom_fields]. *)
Theorem custom_fields_keep_builtin_keys :
  forall (ctx : Nova.context) (event event' : Py.dict) (key : string),
    Py.is_prefix "custom_" key = false ->
    Nova.add_custom_fields ctx event = inr event' ->
    Py.dict_get event' key = Py.dict_get event key.
Proof.
  intros ctx event event' key Hkey Hrun.
  exact (add_custom_fields_frame ctx key Hkey (Nova.custom_fields ctx) event event' Hrun).
Qed.

Lemma custom_fields_keep_builtin_keys_witness :
  exists event',
    Nova.add_custom_fields Nova.sample_context [("dest_host", Py.VStr "minion-1")]
    = inr event'
    /\ Py.dict_get event' "dest_host" = Some (Py.VStr "minion-1").
Proof.
  eexists. split; [reflexivity |].
  apply (custom_fields_keep_builtin_keys Nova.sample_context
           [("dest_host", Py.VStr "minion-1")] _ "dest_host");
    reflexivity.
Defined.

(** X14: the index-time fields.  When a payload without ['fields'] gets
    one from [add_fields], it is a dictionary that is not empty, and each of
    its values is the string [str(v)] of a value [v] the event holds under the
    same key, [v] being neither a list nor a dictionary. *)
Theorem index_fields_are_strings_of_event_values :
  forall (ctx : Nova.context) (payload event : Py.dict) (found : Py.value),
    Py.dict_get payload "fields" = None ->
    Py.dict_get (Nova.add_fields ctx payload event) "fields" = Some found ->
    exists fields,
      found = Py.VDict fields
      /\ fields <> []
      /\ forall k v,
          Py.dict_get fields k = Some v ->
          exists ev, Py.dict_get event k = Some ev
                     /\ v = Py.VStr (Nova.py_str ev)
                     /\ (forall xs, ev <> Py.VList xs)
                     /\ (forall kv, ev <> Py.VDict kv).
Proof.
  intros ctx payload event found Hnone. unfold Nova.add_fields.
  match goal with
  | |- context [match ?collected with [] => payload | _ :: _ => _ end] =>
      pose proof (collected_fields_sound event (Nova.index_extracted_fields ctx) []) as Hsound;
      destruct collected as [| f rest] eqn:Hfs
  end.
  - rewrite Hnone. discriminate.
  - unfold Py.dict_update. cbn [fold_left fst snd]. rewrite dict_get_set_same.
    intro H. injection H as <-. eexists. split; [reflexivity |].
    split; [discriminate |].
    intros k v Hget. apply Hsound; [intros ? ? Habs; discriminate Habs |].
    exact Hget.
Qed.

Lemma index_fields_are_strings_witness :
  exists fields,
    Py.VDict [("check_id", Py.VStr "CIS-1.1.1")] = Py.VDict fields
    /\ fields <> []
    /\ forall k v,
        Py.dict_get fields k = Some v ->
        exists ev, Py.dict_get [("check_id", Py.VStr "CIS-1.1.1"); ("n", Py.VNum 3)] k = Some ev
                   /\ v = Py.VStr (Nova.py_str ev)
                   /\ (forall xs, ev <> Py.VList xs)
                   /\ (forall kv, ev <> Py.VDict kv).
Proof.
  apply (index_fields_are_strings_of_event_values
           {| Nova.jid := Py.VNone; Nova.minion_id := Py.VNone; Nova.master := Py.VNone;
              Nova.fqdn := Py.VNone; Nova.fqdn_ip4 := Py.VNone; Nova.local_fqdn := Py.VNone;
              Nova.system_uuid := Py.VNone; Nova.cloud_details := [];
              Nova.custom_fields := []; Nova.config_get := fun _ => Py.VNone;
              Nova.opts_index := Py.VNone; Nova.opts_sourcetype := Py.VNone;
              Nova.index_extracted_fields := ["check_id"; "missing"] |}
           [("host", Py.VStr "h")]
           [("check_id", Py.VStr "CIS-1.1.1"); ("n", Py.VNum 3)]).
  - reflexivity.
  - reflexivity.
Defined.

(** ** Password masking: what a rule cannot touch *)

Section MaskFrameFacts.
Import Py Mask MaskShape.

Lemma same_except_refl (q : string) (r : value) : same_except q r r.
Proof. destruct r; simpl; auto. Qed.

Lemma in_named_query_frame (body : value -> value * signal) (q : string) (r : value) :
  same_except q r (fst (in_named_query body (VStr q) r)).
Proof.
  destruct r as [| | | | | kv]; try reflexivity.
  cbn [in_named_query].
  destruct (dict_get kv q) as [query_ret |] eqn:Hget; [| apply same_except_refl].
  destruct (py_getitem query_ret (VStr "data")) as [e | rows]; [apply same_except_refl |].
  destruct (iterate (for_rows body) rows) as [rows' err]. cbn [fst].
  unfold store_back at 1. cbn [py_setitem]. simpl.
  intros other Hne. now apply dict_get_set_other.
Qed.

Lemma for_each_frame (q : string) (step : value -> value * option exn) :
  (forall r, same_except q r (fst (step r))) ->
  forall rs, Forall2 (same_except q) rs (fst (for_each step rs)).
Proof.
  intros Hstep. induction rs as [| r rs IH]; [constructor |].
  cbn [for_each]. specialize (Hstep r).
  destruct (step r) as [r' [e |]]; cbn [fst] in *.
  - constructor; [exact Hstep |].
    clear. induction rs; constructor; [apply same_except_refl | assumption].
  - destruct (for_each step rs) as [rs' err]. cbn [fst] in *.
    constructor; assumption.
Qed.

(** [dict_set] on a key that is present replaces one value in place. *)
Lemma dict_set_entries_masked (mask_by : value) (kv : dict) (k : string) :
  entries_masked mask_by kv (dict_set kv k mask_by) \/ dict_has kv k = false.
Proof.
  unfold dict_has, entries_masked. induction kv as [| [k' v'] kv IH]; [now right |].
  cbn [dict_set dict_get]. destruct (String.eqb_spec k k') as [-> | Hne].
  - left. constructor; [cbn; auto |].
    clear. induction kv; constructor; [auto | assumption].
  - destruct IH as [IH | IH]; [left | right; exact IH].
    constructor; [cbn; auto | exact IH].
Qed.

Lemma entries_masked_refl (mask_by : value) (kv : dict) : entries_masked mask_by kv kv.
Proof. unfold entries_masked. induction kv; constructor; [auto | assumption]. Qed.

Lemma entries_masked_trans (mask_by : value) (a b c : dict) :
  entries_masked mask_by a b -> entries_masked mask_by b c -> entries_masked mask_by a c.
Proof.
  unfold entries_masked. intro Hab. revert c.
  induction Hab as [| x y a b [Hk Hv] _ IH]; intros c Hbc; inversion Hbc; subst;
    [constructor |].
  constructor; [| now apply IH].
  match goal with H : _ /\ _ |- _ => destruct H as [Hk' Hv'] end.
  split; [congruence |]. destruct Hv' as [-> | ->]; auto.
Qed.

Lemma mask_attributes_shape (mask_by : value) (keys : list value) :
  forall (kv : dict) (err : option exn),
  exists kv',
    fst (fold_left (attribute_step mask_by) keys (VDict kv, err)) = VDict kv'
    /\ entries_masked mask_by kv kv'.
Proof.
  induction keys as [| key keys IH]; intros kv err.
  - exists kv. split; [reflexivity | apply entries_masked_refl].
  - cbn [fold_left]. unfold attribute_step at 2. destruct err as [e |]; [apply IH |].
    cbn [py_contains].
    destruct key as [| | | k | |]; try apply IH.
    destruct (dict_has kv k) eqn:Hhas; [| apply IH].
    cbn [py_setitem].
    destruct (IH (dict_set kv k mask_by) None) as [kv' [Heq Hrel]].
    exists kv'. split; [exact Heq |].
    eapply entries_masked_trans; [| exact Hrel].
    destruct (dict_set_entries_masked mask_by kv k) as [H | H]; [exact H | congruence].
Qed.

Lemma mask_attributes_scalar (mask_by obj : value) (keys : list value) :
  (forall xs, obj <> VList xs) -> (forall kv, obj <> VDict kv) ->
  forall err, fst (fold_left (attribute_step mask_by) keys (obj, err)) = obj.
Proof.
  intros Hl Hd. induction keys as [| key keys IH]; intro err; [reflexivity |].
  cbn [fold_left]. unfold attribute_step at 2. destruct err; [apply IH |].
  destruct obj as [| b | n | s | xs | kv];
    try (exfalso; now apply (Hl xs)); try (exfalso; now apply (Hd kv));
      cbn [py_contains py_setitem]; try apply IH.
  destruct key; try apply IH.
  match goal with
  | |- context [if ?b then _ else _] => destruct b; apply IH
  end.
Qed.

Lemma mask_attributes_version (obj : value) (keys : list value) (mask_by : value) :
  (forall xs, obj <> VList xs) ->
  masked_version mask_by obj (fst (mask_attributes obj keys mask_by)).
Proof.
  intro Hnot. change (mask_attributes obj keys mask_by)
    with (fold_left (attribute_step mask_by) keys (obj, None)).
  destruct obj as [| b | n | s | xs | kv];
    try (rewrite mask_attributes_scalar by (intros; discriminate); apply masked_same).
  - exfalso. now apply (Hnot xs).
  - destruct (mask_attributes_shape mask_by keys kv None) as [kv' [-> Hrel]].
    now apply masked_dict.
Qed.

Lemma mask_one_object_version (rule mask_by obj : value) :
  (forall xs, obj <> VList xs) ->
  masked_version mask_by obj (fst (mask_one_object rule mask_by obj)).
Proof.
  intro Hnot. unfold mask_one_object.
  repeat match goal with
         | |- masked_version _ _ (fst (match ?x with _ => _ end)) =>
             destruct x; cbn [fst]; try apply masked_same
         end.
  now apply mask_attributes_version.
Qed.

Lemma recursively_mask_objects_version (rule mask_by : value) (obj : value) :
  masked_version mask_by obj (fst (_recursively_mask_objects obj rule mask_by)).
Proof.
  induction obj as [| b | n | s | xs IH | kv _] using value_nested_ind;
    try (cbn [_recursively_mask_objects]; apply mask_one_object_version; discriminate).
  cbn [_recursively_mask_objects].
  match goal with
  | |- context [let (_, _) := ?loop xs in _] =>
      assert (Hloop : Forall2 (masked_version mask_by) xs (fst (loop xs)))
  end.
  { induction IH as [| x xs Hx _ IHxs]; [constructor |].
    destruct (_recursively_mask_objects x rule mask_by) as [x' [e |]]; cbn [fst] in *.
    - constructor; [exact Hx |].
      clear. induction xs; constructor; [apply masked_same | assumption].
    - match goal with
      | |- context [let (_, _) := ?rec in _] => destruct rec as [xs' err]
      end.
      cbn [fst] in *. constructor; assumption. }
  match goal with
  | |- context [let (_, _) := ?loop in _] => destruct loop as [xs' err]
  end.
  cbn [fst] in *. now apply masked_list.
Qed.
End MaskFrameFacts.

(** X15: a rule that names a query touches nothing else.  For a rule
    whose ['query_name'] is a string other than ['*'], of either kind
    ([blacklisted_strings] or [blacklisted_objects]), applying it to a list of
    result sets leaves, in every result set, the entry of every other query as
    it was, also when the rule raises part of the way. *)
Theorem named_rule_leaves_other_queries :
  forall (row_body : Py.value -> Py.value -> Py.value -> Py.value * Mask.signal)
         (rule column : Py.value) (q : string) (rs : list Py.value),
    Py.py_getitem rule (Py.VStr "query_name") = inr (Py.VStr q) ->
    q <> "*" ->
    Py.py_getitem rule (Py.VStr "column") = inr column ->
    exists rs' err,
      Mask.apply_rule row_body (Py.VList rs) rule = (Py.VList rs', err)
      /\ Forall2 (MaskShape.same_except q) rs rs'.
Proof.
  intros row_body rule column q rs Hname Hq Hcol.
  unfold Mask.apply_rule. rewrite Hname, Hcol. cbn [Py.py_eq].
  assert (Hne : String.eqb q "*" = false) by (now apply String.eqb_neq).
  rewrite Hne. cbn [negb Mask.iterate].
  pose proof (for_each_frame q
                (Mask.in_named_query (row_body rule column) (Py.VStr q))
                (in_named_query_frame (row_body rule column) q) rs) as Hframe.
  destruct (Mask.for_each _ rs) as [rs' err]. exists rs', err. split; [reflexivity |].
  exact Hframe.
Qed.

Lemma named_rule_leaves_other_queries_witness :
  exists rs' err,
    Mask.apply_rule (Mask.string_body Mask.re_sub_sample (Py.VStr "******"))
      (Py.VList [Py.VDict [("running_procs", Py.VDict [("data", Py.VList Mask.sample_rows)]);
                           ("logins", Py.VDict [("data", Py.VList Mask.sample_rows)])]])
      (Mask.password_rule "running_procs")
    = (Py.VList rs', err)
    /\ Forall2 (MaskShape.same_except "running_procs")
               [Py.VDict [("running_procs", Py.VDict [("data", Py.VList Mask.sample_rows)]);
                          ("logins", Py.VDict [("data", Py.VList Mask.sample_rows)])]]
               rs'.
Proof.
  apply (named_rule_leaves_other_queries _ _ (Py.VStr "cmdline") "running_procs");
    [reflexivity | discriminate | reflexivity].
Defined.

(** X16: what object masking can change.  Whatever the rule and the mask,
    and whether or not an exception is raised on the way,
    [_recursively_mask_objects] leaves a value that differs from the one it
    was given only in dictionary values replaced by the mask: every list keeps
    its length and order, every dictionary its keys and their order, and
    numbers, strings and the rest are untouched. *)
Theorem object_masking_only_replaces_values :
  forall (object_to_mask blacklisted_object mask_by : Py.value),
    MaskShape.masked_version mask_by object_to_mask
      (fst (Mask._recursively_mask_objects object_to_mask blacklisted_object mask_by)).
Proof.
  intros obj rule mask_by. apply recursively_mask_objects_version.
Qed.

(* --------------------------------------------------------------------- *)
(** ** The pulsar returner: from alerts to payloads *)

Section PulsarFacts.
Import Py Pulsar.
Variable kilobytes basename dirname : value -> exn + value.
Variable ctx : Nova.context.

Lemma alert_payload_clean (alert : value) (payload : dict) :
  alert_payload kilobytes basename dirname ctx alert = inr (Some payload) ->
  ~ Nova.has_empty_field (Nova.event_of payload).
Proof.
  unfold alert_payload, bind.
  destruct (alert_event kilobytes basename dirname alert) as [e | [event |]];
    try discriminate.
  destruct (Nova.add_custom_fields ctx (Nova.add_identity ctx event))
    as [e | event']; [discriminate |].
  intro H. injection H as <-.
  rewrite (event_of_add_fields ctx _ _ (Nova.remove_empty_fields event')).
  - apply remove_empty_fields_clean.
  - reflexivity.
Qed.

Lemma batch_alerts_clean (alerts : list value) :
  forall payload,
    In payload (fst (batch_alerts kilobytes basename dirname ctx alerts)) ->
    ~ Nova.has_empty_field (Nova.event_of payload).
Proof.
  induction alerts as [| alert rest IH]; intros payload; simpl; [tauto |].
  destruct (alert_payload kilobytes basename dirname ctx alert)
    as [e | [first |]] eqn:Hfirst; simpl; [tauto | | apply IH].
  destruct (batch_alerts kilobytes basename dirname ctx rest) as [payloads err].
  simpl in *. intros [<- | Hin].
  - now apply (alert_payload_clean alert).
  - now apply IH.
Qed.
End PulsarFacts.

(** X17: the pulsar returner sends no empty fields.  Whatever the alerts
    are, every payload the loop over the alerts hands to [batchEvent] carries
    an event in which no key holds the empty string. *)
Theorem pulsar_events_have_no_empty_field :
  forall (kilobytes basename dirname : Py.value -> Py.exn + Py.value)
         (ctx : Nova.context) (alerts : list Py.value) (payload : Py.dict),
    In payload (fst (Pulsar.batch_alerts kilobytes basename dirname ctx alerts)) ->
    ~ Nova.has_empty_field (Nova.event_of payload).
Proof.
  intros kilobytes basename dirname ctx alerts payload.
  apply batch_alerts_clean.
Qed.

Lemma pulsar_events_have_no_empty_field_witness :
  exists payload,
    fst (Pulsar.batch_alerts Pulsar.kilobytes_sample Pulsar.path_sample Pulsar.path_sample
           Nova.sample_context [Pulsar.sample_alert "IN_MODIFY"]) = [payload]
    /\ ~ Nova.has_empty_field (Nova.event_of payload).
Proof.
  eexists. split; [reflexivity |].
  apply (pulsar_events_have_no_empty_field
           Pulsar.kilobytes_sample Pulsar.path_sample Pulsar.path_sample
           Nova.sample_context [Pulsar.sample_alert "IN_MODIFY"]).
  left. reflexivity.
Defined.

Section PulsarBranchFacts.
Import Py Pulsar.
Variable kilobytes basename dirname : value -> exn + value.

Lemma dict_get_has (d : dict) (k : string) (v : value) :
  dict_get d k = Some v -> dict_has d k = true.
Proof.
  unfold dict_has. intros ->. reflexivity.
Qed.

Lemma ignored_alert_has_no_payload (ctx : Nova.context) (alert : value) :
  is_ignored alert = true ->
  alert_payload kilobytes basename dirname ctx alert = inr None.
Proof.
  unfold is_ignored. destruct alert as [| | | | | kv]; try discriminate.
  destruct (dict_get kv "change") as [[| | | changed | |] |] eqn:Hget; try discriminate.
  intro Hignored.
  unfold alert_payload, alert_event, linux_event, bind. cbn [py_contains].
  rewrite (dict_get_has _ _ _ Hget). cbn [py_getitem]. rewrite Hget.
  now rewrite Hignored.
Qed.

Lemma lookup_linux_actions (change : string) :
  In (match lookup linux_actions change with
      | Some action => action
      | None => "unknown"
      end) action_words.
Proof.
  unfold linux_actions, action_words. cbn [lookup].
  repeat (destruct (String.eqb change _); [simpl; tauto |]).
  simpl; tauto.
Qed.

Lemma lookup_windows_actions (reason action : string) :
  lookup windows_actions reason = Some action -> action <> EmptyString.
Proof.
  unfold windows_actions. cbn [lookup].
  repeat (destruct (String.eqb reason _);
          [intro H; injection H as <-; discriminate |]).
  discriminate.
Qed.
End PulsarBranchFacts.

(** X18: ignored alerts change nothing.  Alerts of the Linux branch whose
    change starts with [IN_IGNORED] are skipped before anything is built:
    dropping them from the list of alerts gives the same payloads and the same
    exception, if any. *)
Theorem ignored_alerts_change_nothing :
  forall (kilobytes basename dirname : Py.value -> Py.exn + Py.value)
         (ctx : Nova.context) (alerts : list Py.value),
    Pulsar.batch_alerts kilobytes basename dirname ctx
      (filter (fun alert => negb (Pulsar.is_ignored alert)) alerts)
    = Pulsar.batch_alerts kilobytes basename dirname ctx alerts.
Proof.
  intros kilobytes basename dirname ctx alerts.
  induction alerts as [| alert rest IH]; [reflexivity |].
  cbn [filter]. destruct (Pulsar.is_ignored alert) eqn:Hignored; cbn [negb].
  - cbn [Pulsar.batch_alerts].
    now rewrite (ignored_alert_has_no_payload kilobytes basename dirname ctx alert Hignored).
  - cbn [Pulsar.batch_alerts]. now rewrite IH.
Qed.

(** X19: the vocabulary of the Linux branch.  When the Linux branch builds
    an event, its action is one of read, acl_modified, created, deleted,
    modified and unknown, and its object category is directory when the change
    has exactly two parts separated by a bar, and file otherwise. *)
Theorem linux_event_action_and_category :
  forall (kilobytes : Py.value -> Py.exn + Py.value) (alert : Py.value)
         (changed : string) (event : Py.dict),
    Py.py_getitem alert (Py.VStr "change") = inr (Py.VStr changed) ->
    Pulsar.linux_event kilobytes alert = inr (Some event) ->
    (exists action,
        Py.dict_get event "action" = Some (Py.VStr action)
        /\ In action Pulsar.action_words)
    /\ Py.dict_get event "object_category"
       = Some (Py.VStr (if (List.length (Pulsar.split_pipe changed) =? 2)%nat
                        then "directory" else "file")).
Proof.
  intros kilobytes alert changed event Hchange.
  unfold Pulsar.linux_event, Pulsar.add_checksum, Pulsar.bind. rewrite Hchange.
  pose proof (lookup_linux_actions (hd EmptyString (Pulsar.split_pipe changed))) as Hword.
  cbn [Pulsar.actions_item].
  set (action := match Pulsar.lookup Pulsar.linux_actions _ with
                 | Some a => a
                 | None => "unknown"
                 end) in *.
  set (category := if (List.length (Pulsar.split_pipe changed) =? 2)%nat
                   then "directory" else "file").
  clearbody action category.
  repeat (cbv beta iota;
          match goal with
          | |- inl _ = inr _ -> _ => discriminate
          | |- inr None = inr (Some _) -> _ => discriminate
          | |- inr (Some _) = inr (Some _) -> _ =>
              let H := fresh in intro H; injection H as <-
          | |- context [Py.py_getitem ?a ?b] => destruct (Py.py_getitem a b)
          | |- context [Py.py_contains ?a ?b] => destruct (Py.py_contains a b)
          | |- context [Pulsar.py_get ?a ?b ?c] => destruct (Pulsar.py_get a b c)
          | |- context [kilobytes ?a] => destruct (kilobytes a)
          | |- context [Py.truthy ?a] => destruct (Py.truthy a)
          | |- context [String.eqb ?a ?b] => destruct (String.eqb a b)
          | |- context [if ?b then _ else _] => is_var b; destruct b
          end);
    (split; [exists action; split; [reflexivity | exact Hword] | reflexivity]).
Qed.

Lemma linux_event_action_and_category_witness :
  exists event,
    Pulsar.linux_event Pulsar.kilobytes_sample (Pulsar.sample_alert "IN_DELETE|IN_ISDIR")
    = inr (Some event)
    /\ (exists action,
           Py.dict_get event "action" = Some (Py.VStr action)
           /\ In action Pulsar.action_words)
    /\ Py.dict_get event "object_category" = Some (Py.VStr "directory").
Proof.
  eexists. split; [reflexivity |].
  apply (linux_event_action_and_category Pulsar.kilobytes_sample
           (Pulsar.sample_alert "IN_DELETE|IN_ISDIR") "IN_DELETE|IN_ISDIR");
    reflexivity.
Defined.

Section WindowsReasons.
Import Py Pulsar.

Lemma append_empty_r (s : string) : (s ++ "")%string = s.
Proof.
  induction s as [| a s IH]; simpl; [reflexivity | now rewrite IH].
Qed.

Lemma append_assoc_r (s t u : string) : ((s ++ t) ++ u)%string = (s ++ (t ++ u))%string.
Proof.
  induction s as [| a s IH]; simpl; [reflexivity | now rewrite IH].
Qed.

Lemma append_not_empty (s t : string) : s <> EmptyString -> (s ++ t)%string <> EmptyString.
Proof.
  destruct s; [congruence | discriminate].
Qed.

Lemma concat_empty_cons (x : string) (l : list string) :
  String.concat "" (x :: l) = (x ++ String.concat "" l)%string.
Proof.
  destruct l as [| y l]; simpl; [now rewrite append_empty_r | reflexivity].
Qed.

Lemma concat_comma_cons (l : list string) :
  forall x,
    String.concat ", " (x :: l)
    = (x ++ String.concat "" (map (fun y => ", " ++ y) l))%string.
Proof.
  induction l as [| y l IH]; intro x.
  - simpl. now rewrite append_empty_r.
  - change (String.concat ", " (x :: y :: l))
      with (x ++ ", " ++ String.concat ", " (y :: l))%string.
    rewrite IH. cbn [map]. rewrite concat_empty_cons. reflexivity.
Qed.

Lemma windows_name_not_empty (reason : string) :
  reason <> EmptyString -> windows_name reason <> EmptyString.
Proof.
  intro Hr. unfold windows_name.
  destruct (lookup windows_actions reason) as [action |] eqn:Hlook; [| exact Hr].
  exact (lookup_windows_actions reason action Hlook).
Qed.

Lemma actions_get_name (reason : string) :
  actions_get windows_actions (VStr reason) = inr (VStr (windows_name reason)).
Proof.
  unfold actions_get, windows_name.
  now destruct (lookup windows_actions reason).
Qed.

Lemma truthy_string (s : string) : s <> EmptyString -> truthy (VStr s) = true.
Proof.
  intro Hs. simpl. destruct (String.eqb_spec s ""); [contradiction | reflexivity].
Qed.

(** What the loop over the reasons appends to an action that is set *)
Lemma join_actions_appends (reasons : list string) :
  forall (event : dict) (current : string),
    ~ In EmptyString reasons ->
    current <> EmptyString ->
    dict_get event "action" = Some (VStr current) ->
    exists event',
      join_actions (map VStr reasons) event = inr event'
      /\ dict_get event' "action"
         = Some (VStr (current
                       ++ String.concat ""
                            (map (fun name => ", " ++ name) (map windows_name reasons)))%string).
Proof.
  induction reasons as [| r rest IH]; intros event current Hno Hcur Hget.
  - exists event. cbn. now rewrite append_empty_r.
  - cbn [map join_actions]. rewrite Hget, (truthy_string current Hcur). cbn [negb].
    rewrite actions_get_name. unfold bind. cbn [str_add].
    destruct (IH (dict_set event "action" (VStr (current ++ ", " ++ windows_name r)))
                 (current ++ ", " ++ windows_name r)%string) as [event' [Hrun Haction]].
    + intro Hin. apply Hno. now right.
    + now apply append_not_empty.
    + apply dict_get_set_same.
    + exists event'. split; [exact Hrun |].
      rewrite Haction, concat_empty_cons, append_assoc_r. reflexivity.
Qed.

(** The loop over the reasons, from an event without action *)
Lemma join_actions_joins (reasons : list string) :
  ~ In EmptyString reasons ->
  exists event,
    join_actions (map VStr reasons) [] = inr event
    /\ dict_get event "action"
       = match reasons with
         | [] => None
         | _ :: _ => Some (VStr (String.concat ", " (map windows_name reasons)))
         end.
Proof.
  destruct reasons as [| r rest]; intro Hno.
  - exists []. split; reflexivity.
  - cbn [map join_actions dict_get truthy negb]. rewrite actions_get_name. unfold bind.
    destruct (join_actions_appends rest (dict_set [] "action" (VStr (windows_name r)))
                (windows_name r)) as [event [Hrun Haction]].
    + intro Hin. apply Hno. now right.
    + apply windows_name_not_empty. intros ->. apply Hno. now left.
    + apply dict_get_set_same.
    + exists event. split; [exact Hrun |].
      rewrite Haction. now rewrite concat_comma_cons.
Qed.
End WindowsReasons.

(** X20: the action of a Windows alert without accesses.  When the alert
    has no ['Accesses'] and its ['Reason'] is a list of strings, none of them
    empty, the event's action is the reported names of the reasons, in their
    order, joined by a comma and a space; a reason the table does not know is
    reported under its own name.  With no reason at all the event has no
    action. *)
Theorem windows_reasons_are_joined :
  forall (basename dirname : Py.value -> Py.exn + Py.value)
         (alert : Py.dict) (reasons : list string) (event : Py.dict),
    Py.truthy (match Py.dict_get alert "Accesses" with
               | Some accesses => accesses
               | None => Py.VNone
               end) = false ->
    Py.dict_get alert "Reason" = Some (Py.VList (map Py.VStr reasons)) ->
    ~ In EmptyString reasons ->
    Pulsar.windows_event basename dirname (Py.VDict alert) = inr (Some event) ->
    Py.dict_get event "action"
    = match reasons with
      | [] => None
      | _ :: _ => Some (Py.VStr (String.concat ", " (map Pulsar.windows_name reasons)))
      end.
Proof.
  intros basename dirname alert reasons event Hfalsy Hreason Hno.
  destruct (join_actions_joins reasons Hno) as [joined [Hrun Haction]].
  unfold Pulsar.windows_event, Pulsar.add_checksum, Pulsar.bind.
  cbn [Pulsar.py_get Py.py_getitem]. cbv beta iota.
  rewrite Hfalsy, Hreason. cbv beta iota. cbn [Py.py_iter]. cbv beta iota.
  rewrite Hrun. rewrite <- Haction. clear Hfalsy Hreason Hrun Haction.
  repeat (cbv beta iota;
          match goal with
          | |- inl _ = inr _ -> _ => discriminate
          | |- inr (Some _) = inr (Some _) -> _ =>
              let H := fresh in intro H; injection H as <-
          | |- context [Py.dict_get alert ?k] => destruct (Py.dict_get alert k)
          | |- context [Py.truthy ?a] => destruct (Py.truthy a)
          end);
    repeat rewrite dict_get_set_other by discriminate; reflexivity.
Qed.

Lemma windows_reasons_are_joined_witness :
  exists event,
    Pulsar.windows_event Pulsar.path_sample Pulsar.path_sample Pulsar.sample_windows_alert
    = inr (Some event)
    /\ Py.dict_get event "action" = Some (Py.VStr "modified, Renamed, deleted").
Proof.
  eexists. split; [reflexivity |].
  apply (windows_reasons_are_joined Pulsar.path_sample Pulsar.path_sample
           [("Reason", Py.VList [Py.VStr "Data extend"; Py.VStr "Renamed";
                                 Py.VStr "File delete"]);
            ("Full path", Py.VStr "C:/Users/a/notes.txt");
            ("File name", Py.VStr "notes.txt");
            ("tag", Py.VStr "C:/Users"); ("Time stamp", Py.VStr "2018-01-01 00:00:00")]
           ["Data extend"; "Renamed"; "File delete"]).
  - reflexivity.
  - reflexivity.
  - simpl. intros [H | [H | [H | []]]]; discriminate H.
  - reflexivity.
Defined.

(* --------------------------------------------------------------------- *)
(** ** Delivery: a retry sleep that raises *)

Section SleepRaises.
Import Py Hec.
Variable net : network.
Variable cfg : settings.

(** The second round of the retry loop is left by the exception. *)
Lemma try_server_sleep_raises (server : string * bool) (body : string) (clock : nat) :
  1 <= max_retries_of cfg ->
  retry_sleep_of cfg < 0 ->
  net clock (fst server) body <> Accepted ->
  try_server net cfg server body clock
  = Some ((fst server,
           if is_request_failed (net clock (fst server) body) then false else snd server),
          false,
          [Post (fst server) body; Sleep (retry_sleep_of cfg)]).
Proof.
  intros Hmax Hsleep Hrefused. unfold try_server.
  assert (Hfuel : Z.to_nat (max_retries_of cfg + 1) = S (Z.to_nat (max_retries_of cfg)))
    by lia.
  rewrite Hfuel.
  assert (Hfirst : (-1 <? max_retries_of cfg) = true) by (apply Z.ltb_lt; lia).
  assert (Hsecond : (-1 + 1 <? max_retries_of cfg) = true) by (apply Z.ltb_lt; lia).
  assert (Hraises : sleep_raises (retry_sleep_of cfg) = true)
    by (unfold sleep_raises; apply Z.ltb_lt; exact Hsleep).
  cbn [retry_loop]. rewrite Hfirst, Hsecond, Hraises.
  cbn [Z.add Z.eqb negb andb app Z.opp Z.pos_sub].
  destruct server as [url flag]. cbn [fst snd] in *.
  destruct (net clock url body); try contradiction; reflexivity.
Qed.
End SleepRaises.

(** X21: a negative retry sleep.  With a retry maximum of at least 1 and a
    negative retry sleep, a [flushBatch] whose first POST is refused is left
    by the exception of [time.sleep] before the second attempt: one POST is
    made, no other endpoint is tried, the pending events and the byte counter
    are left as they were.  A [batchEvent] whose size test called that
    [flushBatch] is left the same way, without appending its event, and
    whatever the session was to do next is not done. *)
Theorem negative_retry_sleep_ends_the_session :
  forall (net : Hec.network) (cfg : Hec.settings) (dumps : Py.value -> string)
         (c : Hec.collector) (clock : nat) (s : string * bool)
         (rest : list (string * bool)),
    Hec.batchEvents c <> [] ->
    Hec.eligible (Hec.server_uri c) = s :: rest ->
    1 <= Hec.max_retries_of cfg ->
    Hec.retry_sleep_of cfg < 0 ->
    net clock (fst s) (Hec.join_events (Hec.batchEvents c)) <> Hec.Accepted ->
    exists c',
      Hec.flushBatch net cfg c clock
      = Some (c', [Hec.Post (fst s) (Hec.join_events (Hec.batchEvents c));
                   Hec.Sleep (Hec.retry_sleep_of cfg)])
      /\ Hec.batchEvents c' = Hec.batchEvents c
      /\ Hec.currentByteLength c' = Hec.currentByteLength c
      /\ map fst (Hec.server_uri c') = map fst (s :: rest)
      /\ (forall n entry,
             Hec.currentByteLength c + n > Hec.maxByteLength c ->
             Hec.account_and_append net cfg c n entry clock
             = Some (c', [Hec.Post (fst s) (Hec.join_events (Hec.batchEvents c));
                          Hec.Sleep (Hec.retry_sleep_of cfg)]))
      /\ (forall ops,
             Hec.run net cfg dumps (Hec.Flush :: ops) c clock
             = Some (c', [Hec.Post (fst s) (Hec.join_events (Hec.batchEvents c));
                          Hec.Sleep (Hec.retry_sleep_of cfg)])).
Proof.
  intros net cfg dumps c clock s rest Hne Hel Hmax Hsleep Hrefused.
  assert (Hraises : Hec.sleep_raises (Hec.retry_sleep_of cfg) = true)
    by (unfold Hec.sleep_raises; apply Z.ltb_lt; exact Hsleep).
  assert (Hflush :
            Hec.flushBatch net cfg c clock
            = Some ({| Hec.host := Hec.host c;
                       Hec.batchEvents := Hec.batchEvents c;
                       Hec.maxByteLength := Hec.maxByteLength c;
                       Hec.currentByteLength := Hec.currentByteLength c;
                       Hec.server_uri :=
                         (fst s,
                          if Hec.is_request_failed
                               (net clock (fst s) (Hec.join_events (Hec.batchEvents c)))
                          then false else snd s) :: rest |},
                    [Hec.Post (fst s) (Hec.join_events (Hec.batchEvents c));
                     Hec.Sleep (Hec.retry_sleep_of cfg)])).
  { unfold Hec.flushBatch.
    destruct (Hec.batchEvents c) as [| e es] eqn:He; [contradiction |].
    cbn [List.length Nat.ltb Nat.leb]. rewrite Hel. cbn [Hec.for_servers].
    rewrite (try_server_sleep_raises net cfg s _ clock Hmax Hsleep Hrefused).
    cbn [Hec.raised existsb orb]. rewrite Hraises. cbn [orb].
    cbn [Hec.raised existsb orb]. rewrite Hraises. reflexivity. }
  eexists. split; [exact Hflush |].
  split; [reflexivity |]. split; [reflexivity |]. split; [reflexivity |]. split.
  - intros n entry Hover. unfold Hec.account_and_append.
    assert (Hgt : (Hec.currentByteLength c + n >? Hec.maxByteLength c) = true)
      by (apply Z.gtb_lt; lia).
    rewrite Hgt, Hflush. cbn [Hec.raised existsb orb]. now rewrite Hraises.
  - intro ops. cbn [Hec.run Hec.step]. rewrite Hflush.
    cbn [Hec.raised existsb orb]. now rewrite Hraises.
Qed.

Lemma negative_retry_sleep_ends_the_session_witness :
  exists c',
    Hec.run (Hec.net_refusing Hec.TimedOut) (Hec.mkSettings true (Some 2) (Some (-5)))
            Hec.dumps_plain [Hec.Flush; Hec.BatchNova [] "7" ""; Hec.Flush]
            (Hec.two_servers ["{}"] 2) 0
    = Some (c', [Hec.Post Hec.url_a "{}"; Hec.Sleep (-5)])
    /\ Hec.batchEvents c' = ["{}"]
    /\ Hec.currentByteLength c' = 2.
Proof.
  destruct (negative_retry_sleep_ends_the_session
              (Hec.net_refusing Hec.TimedOut) (Hec.mkSettings true (Some 2) (Some (-5)))
              Hec.dumps_plain (Hec.two_servers ["{}"] 2) 0%nat
              (Hec.url_a, true) [(Hec.url_b, true)])
    as [c' [_ [Hbatch [Hcount [_ [_ Hrun]]]]]].
  - discriminate.
  - reflexivity.
  - apply Z.leb_le. reflexivity.
  - reflexivity.
  - discriminate.
  - exists c'. split; [apply Hrun |]. split; [exact Hbatch | exact Hcount].
Defined.
